(** * QueueingSimu: the discrete-event engine of [queue_simulation.py]

    A shallow embedding of the M/M/c simulation engine: Python's [heapq]
    binary heap over event tuples, the [QueueSimulation] object as a record
    threaded through its methods, and the two statistics snapshots.

    Conventions of the embedding.
    - Python [int] is [Z]; [float] is modelled by exact rationals [Q], so
      rounding, underflow, infinities and NaN are outside the model.  Of the
      float range the model keeps what raises in the theoretical statistics:
      the conversion of an int to a float and the power [**] raise
      OverflowError when the result rounds beyond the largest float.
      Theorems that assert a result of that computation assume rates of
      moderate size, which keeps every intermediate value of the code well
      inside the float range.
    - A Python exception is the [Raise] result; the exception kinds are the
      ones this code can raise.
    - [random.expovariate(lambd)] is [-log(1 - random()) / lambd]; the stream
      of values [-log(1 - random())] is the function [unit_exp], read at the
      position [rng_index] of the module-level generator.
    - Every [Customer] object is referenced from exactly one place at a time
      (an event payload or the waiting line), so customers are plain values. *)

From Stdlib Require Import ZArith QArith Qpower Qabs Lia ZifyNat Lqa String Ascii.
From Stdlib Require Import OrderedTypeEx Sorted.
From stdpp Require Import base list.

Local Open Scope string_scope.
Local Open Scope list_scope.

(** ** Python results *)

Inductive exn : Type :=
  | TypeError
  | ZeroDivisionError
  | IndexError
  | ValueError
  | OverflowError.

Inductive result (A : Type) : Type :=
  | Ok (a : A)
  | Raise (e : exn).

Arguments Ok {A} a.
Arguments Raise {A} e.

Definition bind {A B : Type} (r : result A) (k : A -> result B) : result B :=
  match r with
  | Ok a => k a
  | Raise e => Raise e
  end.

Notation "'let!' x ':=' r 'in' k" := (bind r (fun x => k))
  (at level 10, x pattern, r at level 100, k at level 200, only parsing).

(** A call fails when it raises, whatever the exception. *)
Definition fails {A : Type} (r : result A) : Prop := exists e, r = Raise e.

(** ** Python's [heapq] on a list *)

Module heapq.
Section Heap.
Context {A : Type}.
(** [lt a b] is the comparison [a < b], which may raise. *)
Variable lt : A -> A -> result bool.

(** The [while pos > startpos] loop of [_siftdown].  [pos] strictly
    decreases, so [pos] rounds are enough; with no round left [pos] is [0]
    and the loop condition is false. *)
Fixpoint siftdown_loop (fuel : nat) (heap : list A) (startpos pos : nat)
    (newitem : A) : result (list A) :=
  match fuel with
  | O => Ok (<[pos := newitem]> heap)
  | S fuel' =>
      if decide (startpos < pos) then
        let parentpos := (pos - 1) / 2 in
        match heap !! parentpos with
        | None => Raise IndexError
        | Some parent =>
            let! b := lt newitem parent in
            if (b : bool)
            then siftdown_loop fuel' (<[pos := parent]> heap) startpos parentpos newitem
            else Ok (<[pos := newitem]> heap)
        end
      else Ok (<[pos := newitem]> heap)
  end.

Definition _siftdown (heap : list A) (startpos pos : nat) : result (list A) :=
  match heap !! pos with
  | None => Raise IndexError
  | Some newitem => siftdown_loop pos heap startpos pos newitem
  end.

(** The index of the smaller child: [rightpos] when it exists and
    [not heap[childpos] < heap[rightpos]]. *)
Definition smaller_child (heap : list A) (endpos childpos : nat) : result nat :=
  let rightpos := childpos + 1 in
  if decide (rightpos < endpos) then
    match heap !! childpos, heap !! rightpos with
    | Some l, Some r => let! b := lt l r in Ok (if (b : bool) then childpos else rightpos)
    | _, _ => Raise IndexError
    end
  else Ok childpos.

(** The [while childpos < endpos] loop of [_siftup]: the smaller child
    moves up until a leaf is reached; returns the list and the leaf.
    [pos] strictly increases, so [endpos] rounds are enough. *)
Fixpoint siftup_loop (fuel : nat) (heap : list A) (endpos pos : nat)
    : result (list A * nat) :=
  match fuel with
  | O => Ok (heap, pos)
  | S fuel' =>
      let childpos := 2 * pos + 1 in
      if decide (childpos < endpos) then
        let! c := smaller_child heap endpos childpos in
        match heap !! c with
        | None => Raise IndexError
        | Some x => siftup_loop fuel' (<[pos := x]> heap) endpos c
        end
      else Ok (heap, pos)
  end.

Definition _siftup (heap : list A) (pos : nat) : result (list A) :=
  let endpos := length heap in
  let startpos := pos in
  match heap !! pos with
  | None => Raise IndexError
  | Some newitem =>
      let! (heap1, leaf) := siftup_loop endpos heap endpos pos in
      _siftdown (<[leaf := newitem]> heap1) startpos leaf
  end.

Definition heappush (heap : list A) (item : A) : result (list A) :=
  let heap := heap ++ [item] in
  _siftdown heap 0 (length heap - 1).

Definition heappop (heap : list A) : result (A * list A) :=
  match heap !! (length heap - 1) with
  | None => Raise IndexError
  | Some lastelt =>
      let heap := take (length heap - 1) heap in
      match heap with
      | [] => Ok (lastelt, heap)
      | returnitem :: _ =>
          let! heap := _siftup (<[0 := lastelt]> heap) 0 in
          Ok (returnitem, heap)
      end
  end.

End Heap.
End heapq.

(** ** Customers and events *)

Record Customer : Type := mkCustomer {
  id : Z;
  arrival_time : Q;
  service_start_time : option Q;   (* None until a server accepts the customer *)
  departure_time : option Q        (* None until service completes *)
}.

Definition waiting_time (c : Customer) : option Q :=
  match service_start_time c with
  | None => None
  | Some t => Some (t - arrival_time c)%Q
  end.

Definition system_time (c : Customer) : option Q :=
  match departure_time c with
  | None => None
  | Some t => Some (t - arrival_time c)%Q
  end.

(** [a < b] on floats. *)
Definition Qltb (a b : Q) : bool :=
  match (a ?= b)%Q with
  | Lt => true
  | _ => false
  end.

Definition opt_eqb (a b : option Q) : bool :=
  match a, b with
  | None, None => true
  | Some x, Some y => Qeq_bool x y
  | _, _ => false
  end.

(** The [__eq__] that [@dataclass] generates: field-wise equality.  No
    ordering method is generated ([order=False]). *)
Definition Customer_eqb (a b : Customer) : bool :=
  (id a =? id b)%Z
  && Qeq_bool (arrival_time a) (arrival_time b)
  && opt_eqb (service_start_time a) (service_start_time b)
  && opt_eqb (departure_time a) (departure_time b).

(** An entry of the event queue: the tuple [(time, event_type, data)]. *)
Definition Event : Type := Q * string * Customer.

Definition ev_time (e : Event) : Q := fst (fst e).
Definition ev_type (e : Event) : string := snd (fst e).
Definition ev_data (e : Event) : Customer := snd e.

(** Tuple comparison [a < b]: the first position where the tuples differ
    decides; two customers that differ cannot be ordered. *)
Definition tuple_lt (a b : Event) : result bool :=
  if negb (Qeq_bool (ev_time a) (ev_time b)) then Ok (Qltb (ev_time a) (ev_time b))
  else if negb (ev_type a =? ev_type b)%string then Ok (ev_type a <? ev_type b)%string
  else if negb (Customer_eqb (ev_data a) (ev_data b)) then Raise TypeError
  else Ok false.

(** ** The simulation object *)

Record Sim : Type := mkSim {
  num_servers : Z;
  arrival_rate : Q;
  service_rate : Q;
  current_time : Q;
  event_queue : list Event;
  waiting_queue : list Customer;
  busy_servers : Z;
  next_customer_id : Z;
  customers_arrived : Z;
  customers_served : Z;
  total_waiting_time : Q;
  total_system_time : Q;
  queue_length_sum : Q;
  last_event_time : Q;
  max_queue_length : Z;
  time_history : list Q;
  queue_length_history : list Z;
  customers_in_system_history : list Z;
  rng_index : nat
}.

(** Attribute assignment [self.f = v], one function per assigned attribute. *)
Definition set_current_time (s : Sim) (v : Q) : Sim :=
  {| num_servers := num_servers s; arrival_rate := arrival_rate s;
     service_rate := service_rate s; current_time := v; event_queue := event_queue s;
     waiting_queue := waiting_queue s; busy_servers := busy_servers s;
     next_customer_id := next_customer_id s; customers_arrived := customers_arrived s;
     customers_served := customers_served s; total_waiting_time := total_waiting_time s;
     total_system_time := total_system_time s; queue_length_sum := queue_length_sum s;
     last_event_time := last_event_time s; max_queue_length := max_queue_length s;
     time_history := time_history s; queue_length_history := queue_length_history s;
     customers_in_system_history := customers_in_system_history s;
     rng_index := rng_index s |}.

Definition set_event_queue (s : Sim) (v : list Event) : Sim :=
  {| num_servers := num_servers s; arrival_rate := arrival_rate s;
     service_rate := service_rate s; current_time := current_time s; event_queue := v;
     waiting_queue := waiting_queue s; busy_servers := busy_servers s;
     next_customer_id := next_customer_id s; customers_arrived := customers_arrived s;
     customers_served := customers_served s; total_waiting_time := total_waiting_time s;
     total_system_time := total_system_time s; queue_length_sum := queue_length_sum s;
     last_event_time := last_event_time s; max_queue_length := max_queue_length s;
     time_history := time_history s; queue_length_history := queue_length_history s;
     customers_in_system_history := customers_in_system_history s;
     rng_index := rng_index s |}.

Definition set_waiting_queue (s : Sim) (v : list Customer) : Sim :=
  {| num_servers := num_servers s; arrival_rate := arrival_rate s;
     service_rate := service_rate s; current_time := current_time s;
     event_queue := event_queue s; waiting_queue := v; busy_servers := busy_servers s;
     next_customer_id := next_customer_id s; customers_arrived := customers_arrived s;
     customers_served := customers_served s; total_waiting_time := total_waiting_time s;
     total_system_time := total_system_time s; queue_length_sum := queue_length_sum s;
     last_event_time := last_event_time s; max_queue_length := max_queue_length s;
     time_history := time_history s; queue_length_history := queue_length_history s;
     customers_in_system_history := customers_in_system_history s;
     rng_index := rng_index s |}.

Definition set_busy_servers (s : Sim) (v : Z) : Sim :=
  {| num_servers := num_servers s; arrival_rate := arrival_rate s;
     service_rate := service_rate s; current_time := current_time s;
     event_queue := event_queue s; waiting_queue := waiting_queue s; busy_servers := v;
     next_customer_id := next_customer_id s; customers_arrived := customers_arrived s;
     customers_served := customers_served s; total_waiting_time := total_waiting_time s;
     total_system_time := total_system_time s; queue_length_sum := queue_length_sum s;
     last_event_time := last_event_time s; max_queue_length := max_queue_length s;
     time_history := time_history s; queue_length_history := queue_length_history s;
     customers_in_system_history := customers_in_system_history s;
     rng_index := rng_index s |}.

Definition set_next_customer_id (s : Sim) (v : Z) : Sim :=
  {| num_servers := num_servers s; arrival_rate := arrival_rate s;
     service_rate := service_rate s; current_time := current_time s;
     event_queue := event_queue s; waiting_queue := waiting_queue s;
     busy_servers := busy_servers s; next_customer_id := v;
     customers_arrived := customers_arrived s; customers_served := customers_served s;
     total_waiting_time := total_waiting_time s;
     total_system_time := total_system_time s; queue_length_sum := queue_length_sum s;
     last_event_time := last_event_time s; max_queue_length := max_queue_length s;
     time_history := time_history s; queue_length_history := queue_length_history s;
     customers_in_system_history := customers_in_system_history s;
     rng_index := rng_index s |}.

Definition set_customers_arrived (s : Sim) (v : Z) : Sim :=
  {| num_servers := num_servers s; arrival_rate := arrival_rate s;
     service_rate := service_rate s; current_time := current_time s;
     event_queue := event_queue s; waiting_queue := waiting_queue s;
     busy_servers := busy_servers s; next_customer_id := next_customer_id s;
     customers_arrived := v; customers_served := customers_served s;
     total_waiting_time := total_waiting_time s;
     total_system_time := total_system_time s; queue_length_sum := queue_length_sum s;
     last_event_time := last_event_time s; max_queue_length := max_queue_length s;
     time_history := time_history s; queue_length_history := queue_length_history s;
     customers_in_system_history := customers_in_system_history s;
     rng_index := rng_index s |}.

Definition set_customers_served (s : Sim) (v : Z) : Sim :=
  {| num_servers := num_servers s; arrival_rate := arrival_rate s;
     service_rate := service_rate s; current_time := current_time s;
     event_queue := event_queue s; waiting_queue := waiting_queue s;
     busy_servers := busy_servers s; next_customer_id := next_customer_id s;
     customers_arrived := customers_arrived s; customers_served := v;
     total_waiting_time := total_waiting_time s;
     total_system_time := total_system_time s; queue_length_sum := queue_length_sum s;
     last_event_time := last_event_time s; max_queue_length := max_queue_length s;
     time_history := time_history s; queue_length_history := queue_length_history s;
     customers_in_system_history := customers_in_system_history s;
     rng_index := rng_index s |}.

Definition set_total_waiting_time (s : Sim) (v : Q) : Sim :=
  {| num_servers := num_servers s; arrival_rate := arrival_rate s;
     service_rate := service_rate s; current_time := current_time s;
     event_queue := event_queue s; waiting_queue := waiting_queue s;
     busy_servers := busy_servers s; next_customer_id := next_customer_id s;
     customers_arrived := customers_arrived s; customers_served := customers_served s;
     total_waiting_time := v; total_system_time := total_system_time s;
     queue_length_sum := queue_length_sum s; last_event_time := last_event_time s;
     max_queue_length := max_queue_length s; time_history := time_history s;
     queue_length_history := queue_length_history s;
     customers_in_system_history := customers_in_system_history s;
     rng_index := rng_index s |}.

Definition set_total_system_time (s : Sim) (v : Q) : Sim :=
  {| num_servers := num_servers s; arrival_rate := arrival_rate s;
     service_rate := service_rate s; current_time := current_time s;
     event_queue := event_queue s; waiting_queue := waiting_queue s;
     busy_servers := busy_servers s; next_customer_id := next_customer_id s;
     customers_arrived := customers_arrived s; customers_served := customers_served s;
     total_waiting_time := total_waiting_time s; total_system_time := v;
     queue_length_sum := queue_length_sum s; last_event_time := last_event_time s;
     max_queue_length := max_queue_length s; time_history := time_history s;
     queue_length_history := queue_length_history s;
     customers_in_system_history := customers_in_system_history s;
     rng_index := rng_index s |}.

Definition set_queue_length_sum (s : Sim) (v : Q) : Sim :=
  {| num_servers := num_servers s; arrival_rate := arrival_rate s;
     service_rate := service_rate s; current_time := current_time s;
     event_queue := event_queue s; waiting_queue := waiting_queue s;
     busy_servers := busy_servers s; next_customer_id := next_customer_id s;
     customers_arrived := customers_arrived s; customers_served := customers_served s;
     total_waiting_time := total_waiting_time s;
     total_system_time := total_system_time s; queue_length_sum := v;
     last_event_time := last_event_time s; max_queue_length := max_queue_length s;
     time_history := time_history s; queue_length_history := queue_length_history s;
     customers_in_system_history := customers_in_system_history s;
     rng_index := rng_index s |}.

Definition set_last_event_time (s : Sim) (v : Q) : Sim :=
  {| num_servers := num_servers s; arrival_rate := arrival_rate s;
     service_rate := service_rate s; current_time := current_time s;
     event_queue := event_queue s; waiting_queue := waiting_queue s;
     busy_servers := busy_servers s; next_customer_id := next_customer_id s;
     customers_arrived := customers_arrived s; customers_served := customers_served s;
     total_waiting_time := total_waiting_time s;
     total_system_time := total_system_time s; queue_length_sum := queue_length_sum s;
     last_event_time := v; max_queue_length := max_queue_length s;
     time_history := time_history s; queue_length_history := queue_length_history s;
     customers_in_system_history := customers_in_system_history s;
     rng_index := rng_index s |}.

Definition set_max_queue_length (s : Sim) (v : Z) : Sim :=
  {| num_servers := num_servers s; arrival_rate := arrival_rate s;
     service_rate := service_rate s; current_time := current_time s;
     event_queue := event_queue s; waiting_queue := waiting_queue s;
     busy_servers := busy_servers s; next_customer_id := next_customer_id s;
     customers_arrived := customers_arrived s; customers_served := customers_served s;
     total_waiting_time := total_waiting_time s;
     total_system_time := total_system_time s; queue_length_sum := queue_length_sum s;
     last_event_time := last_event_time s; max_queue_length := v;
     time_history := time_history s; queue_length_history := queue_length_history s;
     customers_in_system_history := customers_in_system_history s;
     rng_index := rng_index s |}.

Definition set_time_history (s : Sim) (v : list Q) : Sim :=
  {| num_servers := num_servers s; arrival_rate := arrival_rate s;
     service_rate := service_rate s; current_time := current_time s;
     event_queue := event_queue s; waiting_queue := waiting_queue s;
     busy_servers := busy_servers s; next_customer_id := next_customer_id s;
     customers_arrived := customers_arrived s; customers_served := customers_served s;
     total_waiting_time := total_waiting_time s;
     total_system_time := total_system_time s; queue_length_sum := queue_length_sum s;
     last_event_time := last_event_time s; max_queue_length := max_queue_length s;
     time_history := v; queue_length_history := queue_length_history s;
     customers_in_system_history := customers_in_system_history s;
     rng_index := rng_index s |}.

Definition set_queue_length_history (s : Sim) (v : list Z) : Sim :=
  {| num_servers := num_servers s; arrival_rate := arrival_rate s;
     service_rate := service_rate s; current_time := current_time s;
     event_queue := event_queue s; waiting_queue := waiting_queue s;
     busy_servers := busy_servers s; next_customer_id := next_customer_id s;
     customers_arrived := customers_arrived s; customers_served := customers_served s;
     total_waiting_time := total_waiting_time s;
     total_system_time := total_system_time s; queue_length_sum := queue_length_sum s;
     last_event_time := last_event_time s; max_queue_length := max_queue_length s;
     time_history := time_history s; queue_length_history := v;
     customers_in_system_history := customers_in_system_history s;
     rng_index := rng_index s |}.

Definition set_customers_in_system_history (s : Sim) (v : list Z) : Sim :=
  {| num_servers := num_servers s; arrival_rate := arrival_rate s;
     service_rate := service_rate s; current_time := current_time s;
     event_queue := event_queue s; waiting_queue := waiting_queue s;
     busy_servers := busy_servers s; next_customer_id := next_customer_id s;
     customers_arrived := customers_arrived s; customers_served := customers_served s;
     total_waiting_time := total_waiting_time s;
     total_system_time := total_system_time s; queue_length_sum := queue_length_sum s;
     last_event_time := last_event_time s; max_queue_length := max_queue_length s;
     time_history := time_history s; queue_length_history := queue_length_history s;
     customers_in_system_history := v; rng_index := rng_index s |}.

Definition set_rng_index (s : Sim) (v : nat) : Sim :=
  {| num_servers := num_servers s; arrival_rate := arrival_rate s;
     service_rate := service_rate s; current_time := current_time s;
     event_queue := event_queue s; waiting_queue := waiting_queue s;
     busy_servers := busy_servers s; next_customer_id := next_customer_id s;
     customers_arrived := customers_arrived s; customers_served := customers_served s;
     total_waiting_time := total_waiting_time s;
     total_system_time := total_system_time s; queue_length_sum := queue_length_sum s;
     last_event_time := last_event_time s; max_queue_length := max_queue_length s;
     time_history := time_history s; queue_length_history := queue_length_history s;
     customers_in_system_history := customers_in_system_history s; rng_index := v |}.

(** [QueueSimulation(num_servers, arrival_rate, service_rate)].  The
    generator position is not an attribute of the object: a fresh process
    starts it at [0]. *)
Definition init (num_servers : Z) (arrival_rate service_rate : Q) : result Sim :=
  Ok {| num_servers := num_servers;
        arrival_rate := arrival_rate;
        service_rate := service_rate;
        current_time := 0;
        event_queue := [];
        waiting_queue := [];
        busy_servers := 0;
        next_customer_id := 0;
        customers_arrived := 0;
        customers_served := 0;
        total_waiting_time := 0;
        total_system_time := 0;
        queue_length_sum := 0;
        last_event_time := 0;
        max_queue_length := 0;
        time_history := [];
        queue_length_history := [];
        customers_in_system_history := [];
        rng_index := 0 |}.

(** Float division [x / y]. *)
Definition pydiv (x y : Q) : result Q :=
  if Qeq_bool y 0 then Raise ZeroDivisionError else Ok (x / y)%Q.

Definition len {A : Type} (l : list A) : Z := Z.of_nat (length l).

Section Engine.
(** The values [-log(1 - random())] of the successive draws. *)
Variable unit_exp : nat -> Q.

(** [random.expovariate(lambd)] *)
Definition expovariate (lambd : Q) (s : Sim) : result (Q * Sim) :=
  let u := unit_exp (rng_index s) in
  let s := set_rng_index s (S (rng_index s)) in
  let! x := pydiv u lambd in
  Ok (x, s).

Definition schedule_event (s : Sim) (time : Q) (event_type : string)
    (data : Customer) : result Sim :=
  let! q := heapq.heappush tuple_lt (event_queue s) (time, event_type, data) in
  Ok (set_event_queue s q).

Definition generate_interarrival_time (s : Sim) : result (Q * Sim) :=
  expovariate (arrival_rate s) s.

Definition generate_service_time (s : Sim) : result (Q * Sim) :=
  expovariate (service_rate s) s.

Definition update_statistics (s : Sim) (time_delta : Q) : Sim :=
  let queue_length := len (waiting_queue s) in
  let s := set_queue_length_sum s
             (queue_length_sum s + inject_Z queue_length * time_delta)%Q in
  set_max_queue_length s (Z.max (max_queue_length s) queue_length).

Definition handle_arrival (s : Sim) (customer : Customer) : result Sim :=
  let s := set_customers_arrived s (customers_arrived s + 1) in
  let! s :=
    (if (busy_servers s <? num_servers s)%Z then
       let s := set_busy_servers s (busy_servers s + 1) in
       let customer :=
         {| id := id customer; arrival_time := arrival_time customer;
            service_start_time := Some (current_time s);
            departure_time := departure_time customer |} in
       let! (service_time, s) := generate_service_time s in
       let departure_time := (current_time s + service_time)%Q in
       schedule_event s departure_time "departure" customer
     else
       Ok (set_waiting_queue s (waiting_queue s ++ [customer]))) in
  let! (gap, s) := generate_interarrival_time s in
  let next_arrival_time := (current_time s + gap)%Q in
  let next_customer :=
    {| id := next_customer_id s; arrival_time := next_arrival_time;
       service_start_time := None; departure_time := None |} in
  let s := set_next_customer_id s (next_customer_id s + 1) in
  schedule_event s next_arrival_time "arrival" next_customer.

(** [x += y] where [y] may be [None]. *)
Definition add_opt (x : Q) (y : option Q) : result Q :=
  match y with
  | None => Raise TypeError
  | Some y => Ok (x + y)%Q
  end.

Definition handle_departure (s : Sim) (customer : Customer) : result Sim :=
  let customer :=
    {| id := id customer; arrival_time := arrival_time customer;
       service_start_time := service_start_time customer;
       departure_time := Some (current_time s) |} in
  let s := set_customers_served s (customers_served s + 1) in
  let! w := add_opt (total_waiting_time s) (waiting_time customer) in
  let s := set_total_waiting_time s w in
  let! t := add_opt (total_system_time s) (system_time customer) in
  let s := set_total_system_time s t in
  match waiting_queue s with
  | next_customer :: rest =>
      let s := set_waiting_queue s rest in
      let next_customer :=
        {| id := id next_customer; arrival_time := arrival_time next_customer;
           service_start_time := Some (current_time s);
           departure_time := departure_time next_customer |} in
      let! (service_time, s) := generate_service_time s in
      let departure_time := (current_time s + service_time)%Q in
      schedule_event s departure_time "departure" next_customer
  | [] =>
      Ok (set_busy_servers s (busy_servers s - 1))
  end.

(** Truth value of an optional bound: [None] and zero are false. *)
Definition truthy_float (x : option Q) : bool :=
  match x with
  | None => false
  | Some v => negb (Qeq_bool v 0)
  end.

Definition truthy_int (x : option Z) : bool :=
  match x with
  | None => false
  | Some v => negb (v =? 0)%Z
  end.

(** [max_time and event_time > max_time] *)
Definition past_max_time (max_time : option Q) (event_time : Q) : bool :=
  match max_time with
  | Some m => truthy_float max_time && Qltb m event_time
  | None => false
  end.

(** [max_customers and self.customers_served >= max_customers] *)
Definition enough_customers (max_customers : option Z) (s : Sim) : bool :=
  match max_customers with
  | Some m => truthy_int max_customers && (m <=? customers_served s)%Z
  | None => false
  end.

(** The part of [run] before the loop: the first arrival is scheduled. *)
Definition schedule_first_arrival (s : Sim) : result Sim :=
  let! (first_arrival_time, s) := generate_interarrival_time s in
  let first_customer :=
    {| id := next_customer_id s; arrival_time := first_arrival_time;
       service_start_time := None; departure_time := None |} in
  let s := set_next_customer_id s (next_customer_id s + 1) in
  schedule_event s first_arrival_time "arrival" first_customer.

(** What one test of the [while] condition and one pass through the loop
    body lead to. *)
Inductive step_result : Type :=
  | Continue (s : Sim)     (* the event was processed; back to the loop head *)
  | Break (s : Sim)        (* the loop is left: empty queue or a [break] *)
  | Fail (e : exn).        (* an exception leaves [run] *)

Definition process_event (s : Sim) (event : Event) : result Sim :=
  let '(event_time, event_type, data) := event in
  let time_delta := (event_time - last_event_time s)%Q in
  let s := update_statistics s time_delta in
  let s := set_current_time s event_time in
  let s := set_last_event_time s event_time in
  let s := set_time_history s (time_history s ++ [current_time s]) in
  let s := set_queue_length_history s
             (queue_length_history s ++ [len (waiting_queue s)]) in
  let s := set_customers_in_system_history s
             (customers_in_system_history s
                ++ [(len (waiting_queue s) + busy_servers s)%Z]) in
  if (event_type =? "arrival")%string then handle_arrival s data
  else if (event_type =? "departure")%string then handle_departure s data
  else Ok s.

Definition loop_step (max_time : option Q) (max_customers : option Z)
    (s : Sim) : step_result :=
  match event_queue s with
  | [] => Break s
  | _ :: _ =>
      match heapq.heappop tuple_lt (event_queue s) with
      | Raise e => Fail e
      | Ok (event, q) =>
          let s := set_event_queue s q in
          if past_max_time max_time (ev_time event) then Break s
          else if enough_customers max_customers s then Break s
          else
            match process_event s event with
            | Raise e => Fail e
            | Ok s => Continue s
            end
      end
  end.

(** How a call of [run] stands after at most [n] passes through the loop. *)
Inductive run_result : Type :=
  | Running (s : Sim)      (* at the loop head, [n] events processed *)
  | Returned (s : Sim)     (* [run] has returned *)
  | Raised (e : exn).      (* [run] was left by an exception *)

Fixpoint run_loop (n : nat) (max_time : option Q) (max_customers : option Z)
    (s : Sim) : run_result :=
  match n with
  | O => Running s
  | S n' =>
      match loop_step max_time max_customers s with
      | Continue s' => run_loop n' max_time max_customers s'
      | Break s' => Returned s'
      | Fail e => Raised e
      end
  end.

Definition run (n : nat) (max_time : option Q) (max_customers : option Z)
    (s : Sim) : run_result :=
  match schedule_first_arrival s with
  | Raise e => Raised e
  | Ok s => run_loop n max_time max_customers s
  end.

End Engine.

(** ** Snapshots *)

(** The values stored in the dictionaries the two snapshot methods return. *)
Inductive value : Type :=
  | VInt (z : Z)
  | VFloat (q : Q)
  | VStr (s : string).

Definition dict : Type := list (string * value).

Fixpoint dict_get (d : dict) (k : string) : option value :=
  match d with
  | [] => None
  | (k', v) :: d' => if (k' =? k)%string then Some v else dict_get d' k
  end.

Definition get_statistics (s : Sim) : result dict :=
  if (customers_served s =? 0)%Z then
    Ok [ ("customers_arrived", VInt (customers_arrived s));
         ("customers_served", VInt 0);
         ("avg_waiting_time", VInt 0);
         ("avg_system_time", VInt 0);
         ("avg_queue_length", VInt 0);
         ("max_queue_length", VInt 0);
         ("server_utilization", VInt 0);
         ("current_queue_length", VInt (len (waiting_queue s)));
         ("busy_servers", VInt (busy_servers s)) ]
  else
    let served := inject_Z (customers_served s) in
    let! avg_waiting_time := pydiv (total_waiting_time s) served in
    let! avg_system_time := pydiv (total_system_time s) served in
    let! avg_queue_length :=
      (if Qltb 0 (current_time s)
       then let! x := pydiv (queue_length_sum s) (current_time s) in Ok (VFloat x)
       else Ok (VInt 0)) in
    let! server_utilization :=
      (if Qltb 0 (current_time s)
       then
         let! a := pydiv (total_system_time s) served in
         let! x := pydiv (served * (a - avg_waiting_time))
                         (current_time s * inject_Z (num_servers s)) in
         Ok (VFloat x)
       else Ok (VInt 0)) in
    Ok [ ("customers_arrived", VInt (customers_arrived s));
         ("customers_served", VInt (customers_served s));
         ("avg_waiting_time", VFloat avg_waiting_time);
         ("avg_system_time", VFloat avg_system_time);
         ("avg_queue_length", avg_queue_length);
         ("max_queue_length", VInt (max_queue_length s));
         ("server_utilization", server_utilization);
         ("current_queue_length", VInt (len (waiting_queue s)));
         ("busy_servers", VInt (busy_servers s));
         ("current_time", VFloat (current_time s)) ].

(** [math.factorial] *)
Definition factorial (n : Z) : result Z :=
  if (n <? 0)%Z then Raise ValueError else Ok (Z.of_nat (fact (Z.to_nat n))).

(** A value of this magnitude or more rounds beyond the largest float,
    [sys.float_info.max = 2^1024 - 2^971]. *)
Definition int_limit : Z := 2 ^ 1024 - 2 ^ 970.

Definition float_limit : Q := inject_Z int_limit.

Definition overflows (x : Q) : bool := Qle_bool float_limit (Qabs x).

(** The conversion of an int that meets a float in [n * x] or [x / n]:
    "int too large to convert to float". *)
Definition float_of_int (n : Z) : result Q :=
  if overflows (inject_Z n) then Raise OverflowError else Ok (inject_Z n).

(** [x ** n] for a float [x] and an int [n]: zero cannot be raised to a
    negative power, and a result out of the float range is an
    OverflowError. *)
Definition pypow (x : Q) (n : Z) : result Q :=
  if (n <? 0)%Z && Qeq_bool x 0 then Raise ZeroDivisionError
  else if overflows (x ^ n) then Raise OverflowError
  else Ok (x ^ n)%Q.

(** [range(c)] *)
Definition range (c : Z) : list Z := map Z.of_nat (seq 0 (Z.to_nat c)).

(** [sum((c * rho) ** n / math.factorial(n) for n in ns)], from the
    accumulator [acc]. *)
Fixpoint sum_terms (c : Z) (rho : Q) (ns : list Z) (acc : Q) : result Q :=
  match ns with
  | [] => Ok acc
  | n :: ns' =>
      let! c_float := float_of_int c in
      let! p := pypow (c_float * rho) n in
      let! f := factorial n in
      let! f_float := float_of_int f in
      let! t := pydiv p f_float in
      sum_terms c rho ns' (acc + t)%Q
  end.

Definition get_theoretical_statistics (s : Sim) : result dict :=
  let! c_float := float_of_int (num_servers s) in
  let! rho := pydiv (arrival_rate s) (c_float * service_rate s) in
  if Qle_bool 1 rho then
    Ok [ ("utilization", VFloat rho);
         ("note", VStr "System is unstable (ρ >= 1)") ]
  else
    let! (L, Lq, W, Wq) :=
      (if (num_servers s =? 1)%Z then
         let! L := pydiv (arrival_rate s) (service_rate s - arrival_rate s) in
         let! square := pypow (arrival_rate s) 2 in
         let! Lq := pydiv square
                          (service_rate s * (service_rate s - arrival_rate s)) in
         let! W := pydiv 1 (service_rate s - arrival_rate s) in
         let! Wq := pydiv (arrival_rate s)
                          (service_rate s * (service_rate s - arrival_rate s)) in
         Ok (L, Lq, W, Wq)
       else
         let c := num_servers s in
         let lambda_rate := arrival_rate s in
         let mu := service_rate s in
         let! sum_term := sum_terms c rho (range c) 0 in
         let! c_float := float_of_int c in
         let! p := pypow (c_float * rho) c in
         let! f := factorial c in
         let! f_float := float_of_int f in
         let! erlang_c_term := pydiv p (f_float * (1 - rho)) in
         let! P0 := pydiv 1 (sum_term + erlang_c_term) in
         let C := (erlang_c_term * P0)%Q in
         let! Lq := pydiv (C * rho) (1 - rho) in
         let! Wq := pydiv Lq lambda_rate in
         let! mu_inv := pydiv 1 mu in
         let W := (Wq + mu_inv)%Q in
         let L := (lambda_rate * W)%Q in
         Ok (L, Lq, W, Wq)) in
    Ok [ ("utilization", VFloat rho);
         ("avg_customers_in_system", VFloat L);
         ("avg_customers_in_queue", VFloat Lq);
         ("avg_time_in_system", VFloat W);
         ("avg_time_in_queue", VFloat Wq) ].

(** ** The closed forms of queueing theory, as the specification writes them *)

Module Theory.

(** sum over n < k of a^n / n! *)
Fixpoint partial_exp (a : Q) (k : nat) : Q :=
  match k with
  | O => 0
  | S k' => partial_exp a k' + a ^ Z.of_nat k' / inject_Z (Z.of_nat (fact k'))
  end%Q.

Definition tail_term (c : nat) (rho : Q) : Q :=
  ((inject_Z (Z.of_nat c) * rho) ^ Z.of_nat c
    / (inject_Z (Z.of_nat (fact c)) * (1 - rho)))%Q.

Definition P0 (c : nat) (rho : Q) : Q :=
  (/ (partial_exp (inject_Z (Z.of_nat c) * rho) c + tail_term c rho))%Q.

Definition ErlangC (c : nat) (rho : Q) : Q := (tail_term c rho * P0 c rho)%Q.

Definition Lq (c : nat) (rho : Q) : Q := (ErlangC c rho * rho / (1 - rho))%Q.

End Theory.

(** ** The heap invariant *)

(** [heap[(i - 1) >> 1]] is not above [heap[i]]. *)
Definition edge_ok {A : Type} (le : A -> A -> Prop) (heap : list A) (i : nat) : Prop :=
  forall x p, heap !! i = Some x -> heap !! ((i - 1) / 2) = Some p -> le p x.

Definition heap_ok {A : Type} (le : A -> A -> Prop) (heap : list A) : Prop :=
  forall i, 0 < i -> edge_ok le heap i.

(** The hole of [_siftdown] is at [pos]: every edge but the one above the
    hole is in order, [newitem] fits above the children of the hole, and so
    does the item above the hole. *)
Definition hole_up {A : Type} (le : A -> A -> Prop) (heap : list A) (pos : nat)
    (newitem : A) : Prop :=
  pos < length heap /\
  (forall i, 0 < i -> i <> pos -> edge_ok le heap i) /\
  (forall j y, 0 < j -> (j - 1) / 2 = pos -> heap !! j = Some y -> le newitem y) /\
  (forall j y p, 0 < pos -> 0 < j -> (j - 1) / 2 = pos -> heap !! j = Some y ->
     heap !! ((pos - 1) / 2) = Some p -> le p y).

(** The hole of the first loop of [_siftup] is at [pos]: every edge that
    does not start at the hole is in order, and the item above the hole fits
    above the children of the hole. *)
Definition hole_down {A : Type} (le : A -> A -> Prop) (heap : list A) (pos : nat)
    : Prop :=
  pos < length heap /\
  (forall i, 0 < i -> (i - 1) / 2 <> pos -> edge_ok le heap i) /\
  (forall j y p, 0 < pos -> 0 < j -> (j - 1) / 2 = pos -> heap !! j = Some y ->
     heap !! ((pos - 1) / 2) = Some p -> le p y).

(** ** Vocabulary of the properties *)

(** Events are compared by their time alone. *)
Definition le_time (a b : Event) : Prop := (ev_time a <= ev_time b)%Q.

(** The number of pending events of one kind. *)
Fixpoint count_type (k : string) (q : list Event) : nat :=
  match q with
  | [] => 0
  | e :: q' => (if (ev_type e =? k)%string then 1 else 0) + count_type k q'
  end.

Definition pending_arrivals (s : Sim) : nat := count_type "arrival" (event_queue s).
Definition pending_departures (s : Sim) : nat := count_type "departure" (event_queue s).

(** Consecutive entries never decrease. *)
Definition nondecreasing (l : list Q) : Prop :=
  forall i t1 t2, l !! i = Some t1 -> l !! S i = Some t2 -> (t1 <= t2)%Q.

(** The state in which the handler of an event of time [event_time] is
    called: statistics, clock and histories are updated, in that order. *)
Definition at_event (s : Sim) (event_time : Q) : Sim :=
  let s := update_statistics s (event_time - last_event_time s)%Q in
  let s := set_current_time s event_time in
  let s := set_last_event_time s event_time in
  let s := set_time_history s (time_history s ++ [current_time s]) in
  let s := set_queue_length_history s
             (queue_length_history s ++ [len (waiting_queue s)]) in
  set_customers_in_system_history s
    (customers_in_system_history s ++ [(len (waiting_queue s) + busy_servers s)%Z]).

(** The event queue is a heap by time and holds no event before [t]. *)
Definition queue_after (t : Q) (q : list Event) : Prop :=
  heap_ok le_time q /\ forall e, e ∈ q -> (t <= ev_time e)%Q.

(** No more departures are pending than servers are busy, and no more
    servers are busy than there are. *)
Definition servers_inv (s : Sim) : Prop :=
  (Z.of_nat (pending_departures s) <= busy_servers s <= num_servers s)%Z.

(** A generator whose every draw has the same value. *)
Definition constant_draws (x : Q) : nat -> Q := fun _ => x.

(** Any two items of the list can be compared. *)
Definition comparable {A : Type} (lt : A -> A -> result bool) (l : list A) : Prop :=
  forall a b, a ∈ l -> b ∈ l -> exists r, lt a b = Ok r.

(** Events ordered by time and, at equal times, by the event type. *)
Definition le_key (a b : Event) : Prop :=
  (ev_time a < ev_time b)%Q
  \/ (ev_time a == ev_time b)%Q /\ (ev_type a <=? ev_type b)%string = true.

(** Two events tie when time and type agree and the customers differ. *)
Definition tie (a b : Event) : bool :=
  Qeq_bool (ev_time a) (ev_time b)
  && (ev_type a =? ev_type b)%string
  && negb (Customer_eqb (ev_data a) (ev_data b)).

Definition no_ties (es : list Event) : Prop :=
  forall a b, a ∈ es -> b ∈ es -> tie a b = false.

(** [heappush] of the events of [es], in this order, onto [q]. *)
Fixpoint push_all (q es : list Event) : result (list Event) :=
  match es with
  | [] => Ok q
  | e :: es' => let! q' := heapq.heappush tuple_lt q e in push_all q' es'
  end.

(** [heappop] until the queue is empty, at most [n] times. *)
Fixpoint pop_all (n : nat) (q : list Event) : result (list Event) :=
  match n, q with
  | S n', _ :: _ =>
      let! (e, q') := heapq.heappop tuple_lt q in
      let! out := pop_all n' q' in
      Ok (e :: out)
  | _, _ => Ok []
  end.

(** A generator whose first draws are listed and whose later draws are [d]. *)
Definition listed_draws (l : list Q) (d : Q) : nat -> Q := fun n => nth n l d.

(** The clock shows the time of the last recorded event. *)
Definition clock_recorded (s : Sim) : Prop :=
  match last (time_history s) with
  | Some t => current_time s = t
  | None => current_time s = 0%Q
  end.

(** The processed events of one call: the entries it has added to the time
    history never decrease, and none of them lies after a pending event or
    after the clock. *)
Definition processed_in_order (th0 : list Q) (s : Sim) : Prop :=
  exists processed,
    time_history s = th0 ++ processed /\
    nondecreasing processed /\
    (forall t e, t ∈ processed -> e ∈ event_queue s -> (t <= ev_time e)%Q) /\
    (forall t, t ∈ processed -> (t <= current_time s)%Q).

Definition order_inv (th0 : list Q) (s : Sim) : Prop :=
  (0 < arrival_rate s)%Q /\ (0 < service_rate s)%Q /\
  heap_ok le_time (event_queue s) /\ processed_in_order th0 s.

(** ** More vocabulary: the customers in the system *)

(** Every customer that has arrived has been served, is waiting, or is in
    service. *)
Definition customers_balance (s : Sim) : Prop :=
  customers_arrived s
  = (customers_served s + len (waiting_queue s) + busy_servers s)%Z.

(** A customer waits only while every server is busy. *)
Definition work_conserving (s : Sim) : Prop :=
  waiting_queue s <> [] -> busy_servers s = num_servers s.

(** The queue holds arrivals and departures only. *)
Definition known_types (q : list Event) : Prop :=
  forall e, e ∈ q -> ev_type e = "arrival" \/ ev_type e = "departure".

(** The three histories are parallel and have one entry per handled
    arrival or departure. *)
Definition history_inv (s : Sim) : Prop :=
  known_types (event_queue s) /\
  Z.of_nat (length (time_history s)) = (customers_arrived s + customers_served s)%Z /\
  length (queue_length_history s) = length (time_history s) /\
  length (customers_in_system_history s) = length (time_history s).

(** The events a call has processed all lie at or before the bound [m]. *)
Definition processed_before (m : Q) (th0 : list Q) (s : Sim) : Prop :=
  exists processed,
    time_history s = th0 ++ processed /\ forall t, t ∈ processed -> (t <= m)%Q.

(** What the engine keeps true of the customer an event carries: an
    arriving customer does not arrive after its event, a departing one has
    started service between its arrival and its departure. *)
Definition event_ok (e : Event) : Prop :=
  (ev_type e = "arrival" -> (arrival_time (ev_data e) <= ev_time e)%Q) /\
  (ev_type e = "departure" ->
   exists st, service_start_time (ev_data e) = Some st /\
              (arrival_time (ev_data e) <= st)%Q /\ (st <= ev_time e)%Q).

Definition customers_inv (s : Sim) : Prop :=
  (0 < arrival_rate s)%Q /\ (0 < service_rate s)%Q /\
  queue_after (current_time s) (event_queue s) /\
  (forall e, e ∈ event_queue s -> event_ok e) /\
  (forall c, c ∈ waiting_queue s -> (arrival_time c <= current_time s)%Q) /\
  (0 <= customers_served s)%Z /\
  (0 <= total_waiting_time s)%Q /\
  (total_waiting_time s <= total_system_time s)%Q.

(** The time integral of the queue length as the histories give it: every
    recorded length weighs the time elapsed since the event before. *)
Fixpoint weighted_length (prev : Q) (ts : list Q) (ls : list Z) : Q :=
  match ts, ls with
  | t :: ts', l :: ls' => (inject_Z l * (t - prev) + weighted_length t ts' ls')%Q
  | _, _ => 0%Q
  end.

(** The largest recorded length, zero for an empty history. *)
Definition max_length (ls : list Z) : Z := fold_right Z.max 0%Z ls.

Definition integral_inv (s : Sim) : Prop :=
  length (queue_length_history s) = length (time_history s) /\
  last_event_time s = default 0%Q (last (time_history s)) /\
  (queue_length_sum s
   == weighted_length 0 (time_history s) (queue_length_history s))%Q /\
  max_queue_length s = max_length (queue_length_history s).

(** The customers of a list have increasing ids, head to tail. *)
Definition increasing_ids (l : list Customer) : Prop :=
  forall i j a b, i < j -> l !! i = Some a -> l !! j = Some b -> (id a < id b)%Z.

(** Ids are handed out in the order of arrival: a pending arrival carries
    the number of customers arrived so far, and the waiting customers carry
    smaller ids, in increasing order. *)
Definition ids_inv (s : Sim) : Prop :=
  pending_arrivals s <= 1 /\
  next_customer_id s = (customers_arrived s + 1)%Z /\
  (0 <= customers_arrived s)%Z /\
  (forall e, e ∈ event_queue s -> ev_type e = "arrival" ->
     id (ev_data e) = customers_arrived s) /\
  (forall c, c ∈ waiting_queue s -> (0 <= id c < customers_arrived s)%Z) /\
  increasing_ids (waiting_queue s).

(** The entries of the snapshot that the front ends read. *)
Definition displayed_keys : list string :=
  [ "customers_arrived"; "customers_served"; "current_queue_length";
    "busy_servers"; "avg_waiting_time"; "avg_system_time"; "avg_queue_length";
    "max_queue_length"; "server_utilization" ].

(** [reset]: [self.__init__(self.num_servers, self.arrival_rate,
    self.service_rate)]; the module-level generator keeps its position. *)
Definition reset (s : Sim) : result Sim :=
  let! s' := init (num_servers s) (arrival_rate s) (service_rate s) in
  Ok (set_rng_index s' (rng_index s)).

(** ** The animation of [realtime_simulation] (interactive_sim.py) *)

(** The lists [times], [queue_lengths] and [customers_in_system] of the
    enclosing function, to which the callback appends. *)
Record Trace : Type := mkTrace {
  times : list Q;
  queue_lengths : list Z;
  customers_in_system : list Z }.

(** What one test of the [while] condition of the callback and one pass
    through its body lead to. *)
Inductive frame_step_result : Type :=
  | Processed (s : Sim) (tr : Trace)  (* the event was handled and recorded *)
  | Exit                              (* the condition is false, or the [break] *)
  | Crash (e : exn).

(** How a call of the callback, or the animation, stands. *)
Inductive frame_result : Type :=
  | InLoop (s : Sim) (tr : Trace)     (* at a loop head, the fuel is used up *)
  | Drawn (s : Sim) (tr : Trace)      (* the loop was left, the plots are drawn *)
  | Crashed (e : exn).

Section Realtime.
Variable unit_exp : nat -> Q.

Definition frame_step (max_time target_time : Q) (s : Sim) (tr : Trace)
    : frame_step_result :=
  match event_queue s with
  | [] => Exit
  | (event_time, event_type, data) :: _ =>
      if negb (Qle_bool event_time target_time) then Exit
      else if Qltb max_time event_time then Exit
      else
        match heapq.heappop tuple_lt (event_queue s) with
        | Raise e => Crash e
        | Ok (_, q) =>
            let s := set_event_queue s q in
            let time_delta := (event_time - last_event_time s)%Q in
            let s := update_statistics s time_delta in
            let s := set_current_time s event_time in
            let s := set_last_event_time s event_time in
            match
              (if (event_type =? "arrival")%string
               then handle_arrival unit_exp s data
               else if (event_type =? "departure")%string
               then handle_departure unit_exp s data
               else Ok s)
            with
            | Raise e => Crash e
            | Ok s =>
                Processed s
                  {| times := times tr ++ [current_time s];
                     queue_lengths := queue_lengths tr ++ [len (waiting_queue s)];
                     customers_in_system :=
                       customers_in_system tr
                         ++ [(len (waiting_queue s) + busy_servers s)%Z] |}
            end
        end
  end.

Fixpoint frame_loop (n : nat) (max_time target_time : Q) (s : Sim) (tr : Trace)
    : frame_result :=
  match n with
  | O => InLoop s tr
  | S n' =>
      match frame_step max_time target_time s tr with
      | Processed s' tr' => frame_loop n' max_time target_time s' tr'
      | Exit => Drawn s tr
      | Crash e => Crashed e
      end
  end.

(** [update(frame)], with at most [n] passes through its loop. *)
Definition update (n : nat) (max_time : Q) (frame : Z) (s : Sim) (tr : Trace)
    : frame_result :=
  let target_time := (inject_Z frame * (max_time / 200))%Q in
  frame_loop n max_time target_time s tr.

(** The calls of the callback the animation makes, one per frame. *)
Fixpoint animate (n : nat) (max_time : Q) (frames : list Z) (s : Sim) (tr : Trace)
    : frame_result :=
  match frames with
  | [] => Drawn s tr
  | frame :: rest =>
      match update n max_time frame s tr with
      | Drawn s' tr' => animate n max_time rest s' tr'
      | r => r
      end
  end.

(** [realtime_simulation]: a new object, the first arrival, empty lists,
    then the animation. *)
Definition realtime_simulation (n : nat) (num_servers : Z)
    (arrival_rate service_rate max_time : Q) (frames : list Z) : frame_result :=
  match (let! s := init num_servers arrival_rate service_rate in
         schedule_first_arrival unit_exp s) with
  | Raise e => Crashed e
  | Ok s => animate n max_time frames s (mkTrace [] [] [])
  end.

End Realtime.

(** The state in which the callback calls the handler of an event: as
    [at_event], without the histories. *)
Definition at_frame_event (s : Sim) (event_time : Q) : Sim :=
  let s := update_statistics s (event_time - last_event_time s)%Q in
  let s := set_current_time s event_time in
  set_last_event_time s event_time.

(** What the animation keeps true of the object and its lists. *)
Definition realtime_inv (limit : Q) (s : Sim) (tr : Trace) : Prop :=
  pending_arrivals s = 1 /\
  time_history s = [] /\
  length (queue_lengths tr) = length (times tr) /\
  length (customers_in_system tr) = length (times tr) /\
  (forall t, t ∈ times tr -> (t <= limit)%Q).

(** ** The window (gui_simulation.py) *)

Module QueueSimulationGUI.
Section Gui.
Variable unit_exp : nat -> Q.

(** [validate_parameters], on the values of the entry fields; [askyesno] is
    the answer to the question asked when the utilization is one or more.
    An exception makes the method return [False]. *)
Definition validate_parameters (num_servers : Z)
    (arrival_rate service_rate max_time : Q) (askyesno : bool) : bool :=
  if (num_servers <? 1)%Z then false
  else if Qle_bool arrival_rate 0 then false
  else if Qle_bool service_rate 0 then false
  else if Qle_bool max_time 0 then false
  else
    match pydiv arrival_rate (inject_Z num_servers * service_rate) with
    | Raise _ => false
    | Ok rho => if Qle_bool 1 rho then askyesno else true
    end.

(** [_run_simulation_thread], up to the end of the call of [run]. *)
Definition _run_simulation_thread (n : nat) (num_servers : Z)
    (arrival_rate service_rate max_time : Q) (max_customers : Z) : run_result :=
  match init num_servers arrival_rate service_rate with
  | Raise e => Raised e
  | Ok sim =>
      let max_customers :=
        if (0 <? max_customers)%Z then Some max_customers else None in
      run unit_exp n (Some max_time) max_customers sim
  end.

(** [run_simulation], while no other run is in progress: nothing is run
    unless the parameters are valid. *)
Definition run_simulation (n : nat) (num_servers : Z)
    (arrival_rate service_rate max_time : Q) (max_customers : Z)
    (askyesno : bool) : option run_result :=
  if negb (validate_parameters num_servers arrival_rate service_rate max_time askyesno)
  then None
  else Some (_run_simulation_thread n num_servers arrival_rate service_rate
               max_time max_customers).

End Gui.
End QueueSimulationGUI.

(** ** The console (interactive_sim.py) *)

Module InteractiveQueueSimulator.

(** The parameters the console keeps. *)
Record App : Type := mkApp {
  num_servers : Z;
  arrival_rate : Q;
  service_rate : Q;
  max_time : Q;
  max_customers : option Z }.

Definition __init__ : App := mkApp 1 1 (3 # 2) 100 None.

(** What the user types at a prompt: nothing, a text that [int] or [float]
    converts to a (finite) value, or a text that makes it raise ValueError. *)
Inductive answer (A : Type) : Type :=
  | Blank
  | Value (v : A)
  | Invalid.
Arguments Blank {A}.
Arguments Value {A} v.
Arguments Invalid {A}.

(** [set_parameters]: each value is stored before it is checked; a rejected
    value and a ValueError both end the method. *)
Definition set_parameters (a : App) (servers : answer Z)
    (arrival service time : answer Q) : App :=
  match servers with
  | Invalid => a
  | _ =>
      let a := match servers with
               | Value v => mkApp v (arrival_rate a) (service_rate a) (max_time a)
                              (max_customers a)
               | _ => a
               end in
      if match servers with Value _ => (num_servers a <? 1)%Z | _ => false end
      then a
      else
        match arrival with
        | Invalid => a
        | _ =>
            let a := match arrival with
                     | Value v => mkApp (num_servers a) v (service_rate a) (max_time a)
                                    (max_customers a)
                     | _ => a
                     end in
            if match arrival with Value _ => Qle_bool (arrival_rate a) 0 | _ => false end
            then a
            else
              match service with
              | Invalid => a
              | _ =>
                  let a := match service with
                           | Value v => mkApp (num_servers a) (arrival_rate a) v
                                          (max_time a) (max_customers a)
                           | _ => a
                           end in
                  if match service with
                     | Value _ => Qle_bool (service_rate a) 0
                     | _ => false
                     end
                  then a
                  else
                    match time with
                    | Value v => mkApp (num_servers a) (arrival_rate a)
                                   (service_rate a) v (max_customers a)
                    | _ => a
                    end
              end
        end
  end.

(** [print_current_parameters]: the utilization it prints, computed
    without any guard. *)
Definition print_current_parameters (a : App) : result Q :=
  pydiv (arrival_rate a) (inject_Z (num_servers a) * service_rate a).

(** [run_simulation], up to the end of the call of [run]. *)
Definition run_simulation (unit_exp : nat -> Q) (n : nat) (a : App) : run_result :=
  match init (num_servers a) (arrival_rate a) (service_rate a) with
  | Raise e => Raised e
  | Ok sim => run unit_exp n (Some (max_time a)) (max_customers a) sim
  end.

End InteractiveQueueSimulator.

(** A rate of moderate size, between [2^-100] and [2^100]: with such rates
    no product or quotient of the code leaves the float range. *)
Definition moderate (x : Q) : Prop :=
  (/ inject_Z (2 ^ 100) <= x)%Q /\ (x <= inject_Z (2 ^ 100))%Q.

(** A utilization that stays below one when it is rounded. *)
Definition clearly_stable (rho : Q) : Prop := (rho <= 1 - / inject_Z (2 ^ 40))%Q.

(** The factorial computed on [Z]. *)
Fixpoint Zfact (n : nat) : Z :=
  match n with
  | O => 1
  | S n' => (Z.of_nat n * Zfact n')%Z
  end.

(** The entries of the theoretical statistics that [compare_theoretical]
    and the tests read once they know of no note. *)
Definition compared_keys : list string :=
  [ "utilization"; "avg_time_in_queue"; "avg_time_in_system";
    "avg_customers_in_queue"; "avg_customers_in_system" ].

(** * Facts about the heap *)

#[local] Ltac Zify.zify_post_hook ::= Z.to_euclidean_division_equations.
#[local] Arguments Nat.div _ _ : simpl never.
#[local] Arguments Nat.mul _ _ : simpl never.

Section ListUpdate.
Context {A : Type}.
Implicit Types l : list A.

Lemma cons_insert_perm l j x y :
  l !! j = Some y -> y :: <[j := x]> l ≡ₚ x :: l.
Proof.
  revert j. induction l as [|a l IH]; intros [|j] Hj; simpl in *; try discriminate.
  - injection Hj as ->. apply perm_swap.
  - rewrite (perm_swap a y), (IH j Hj). apply perm_swap.
Qed.

Lemma cons_insert_exchange l i x y :
  i < length l -> x :: <[i := y]> l ≡ₚ y :: <[i := x]> l.
Proof.
  intros Hi. destruct (lookup_lt_is_Some_2 l i Hi) as [z Hz].
  apply (Permutation_cons_inv (a := z)).
  rewrite (perm_swap x z), (cons_insert_perm l i y z Hz).
  rewrite (perm_swap y z), (cons_insert_perm l i x z Hz).
  apply perm_swap.
Qed.

(** Writing [y], read at [j], to [i] and then [x] to [j] permutes the list
    in which [x] was written to [i]. *)
Lemma insert_move_perm l i j x y :
  l !! j = Some y -> i < length l ->
  <[j := x]> (<[i := y]> l) ≡ₚ <[i := x]> l.
Proof.
  revert i j. induction l as [|a l IH]; intros [|i] [|j] Hj Hi; simpl in *;
    try discriminate; try lia.
  - reflexivity.
  - by apply cons_insert_perm.
  - injection Hj as ->. apply cons_insert_exchange. lia.
  - f_equiv. apply IH; [done | lia].
Qed.

Lemma last_split l x :
  l !! (length l - 1) = Some x -> l = take (length l - 1) l ++ [x].
Proof.
  intros Hx. pose proof (lookup_lt_Some _ _ _ Hx) as Hlt.
  rewrite <- (take_S_r l _ x Hx).
  replace (S (length l - 1)) with (length l) by lia.
  by rewrite take_ge.
Qed.
End ListUpdate.

Section HeapPermutation.
Context {A : Type} (lt : A -> A -> result bool).
Implicit Types heap : list A.

Lemma siftdown_loop_perm fuel heap startpos pos newitem h :
  pos < length heap ->
  heapq.siftdown_loop lt fuel heap startpos pos newitem = Ok h ->
  h ≡ₚ <[pos := newitem]> heap.
Proof.
  revert heap pos. induction fuel as [|fuel IH]; intros heap pos Hpos; simpl.
  - intros [= <-]. reflexivity.
  - destruct (decide (startpos < pos)) as [Hlt|_]; [|by intros [= <-]].
    destruct (heap !! ((pos - 1) / 2)) as [parent|] eqn:Hp; simpl; [|discriminate].
    destruct (lt newitem parent) as [[|]|]; simpl; try discriminate.
    + intros Hrec. apply IH in Hrec.
      * rewrite Hrec. by apply insert_move_perm.
      * rewrite length_insert. apply lookup_lt_Some in Hp. lia.
    + by intros [= <-].
Qed.

Lemma _siftdown_perm heap startpos pos h :
  heapq._siftdown lt heap startpos pos = Ok h -> h ≡ₚ heap.
Proof.
  unfold heapq._siftdown. destruct (heap !! pos) as [newitem|] eqn:Hn; simpl; [|discriminate].
  intros Hs. apply siftdown_loop_perm in Hs; [|by eapply lookup_lt_Some].
  by rewrite Hs, list_insert_id.
Qed.

Lemma smaller_child_lookup heap endpos childpos c :
  childpos < endpos -> endpos = length heap ->
  heapq.smaller_child lt heap endpos childpos = Ok c ->
  (c = childpos \/ c = childpos + 1) /\ c < endpos.
Proof.
  unfold heapq.smaller_child. intros Hc He.
  destruct (decide (childpos + 1 < endpos)) as [Hr|Hr].
  - destruct (heap !! childpos), (heap !! (childpos + 1)); simpl; try discriminate.
    destruct (lt a a0) as [[|]|]; simpl; intros [= <-]; lia.
  - intros [= <-]. lia.
Qed.

Lemma siftup_loop_perm fuel heap endpos pos h leaf :
  endpos = length heap -> pos < length heap ->
  heapq.siftup_loop lt fuel heap endpos pos = Ok (h, leaf) ->
  length h = length heap /\ leaf < length heap /\
  forall x, <[leaf := x]> h ≡ₚ <[pos := x]> heap.
Proof.
  revert heap pos. induction fuel as [|fuel IH]; intros heap pos He Hpos; simpl.
  - intros [= <- <-]. done.
  - destruct (decide (2 * pos + 1 < endpos)) as [Hlt|_]; [|by intros [= <- <-]].
    destruct (heapq.smaller_child lt heap endpos (2 * pos + 1)) as [c|] eqn:Hc;
      simpl; [|discriminate].
    apply smaller_child_lookup in Hc as [_ Hc]; [|done..].
    destruct (heap !! c) as [y|] eqn:Hy; simpl; [|discriminate].
    intros Hrec. apply IH in Hrec as (Hlen & Hleaf & Hperm).
    + rewrite length_insert in Hlen, Hleaf. repeat split; try done.
      intros x. rewrite Hperm. by apply insert_move_perm.
    + by rewrite length_insert.
    + rewrite length_insert. lia.
Qed.

Lemma _siftup_perm heap pos h :
  heapq._siftup lt heap pos = Ok h -> h ≡ₚ heap.
Proof.
  unfold heapq._siftup. destruct (heap !! pos) as [newitem|] eqn:Hn; simpl; [|discriminate].
  destruct (heapq.siftup_loop lt (length heap) heap (length heap) pos)
    as [[h1 leaf]|] eqn:Hup; simpl; [|discriminate].
  apply siftup_loop_perm in Hup as (_ & _ & Hperm);
    [|done|by eapply lookup_lt_Some].
  intros Hs. apply _siftdown_perm in Hs.
  by rewrite Hs, Hperm, list_insert_id.
Qed.

Lemma heappush_perm heap item h :
  heapq.heappush lt heap item = Ok h -> h ≡ₚ item :: heap.
Proof.
  unfold heapq.heappush. intros Hs. apply _siftdown_perm in Hs.
  rewrite Hs. symmetry. apply Permutation_cons_append.
Qed.

Lemma heappop_perm heap item h :
  heapq.heappop lt heap = Ok (item, h) -> heap ≡ₚ item :: h.
Proof.
  unfold heapq.heappop.
  destruct (heap !! (length heap - 1)) as [lastelt|] eqn:Hl; simpl; [|discriminate].
  rewrite (last_split heap lastelt Hl) at 3.
  destruct (take (length heap - 1) heap) as [|r t]; simpl.
  - by intros [= <- <-].
  - destruct (heapq._siftup lt (lastelt :: t) 0) as [h1|] eqn:Hup; simpl; [|discriminate].
    intros [= <- <-]. apply _siftup_perm in Hup. rewrite Hup.
    f_equiv. symmetry. apply Permutation_cons_append.
Qed.
End HeapPermutation.

Section HeapOrder.
Context {A : Type} (lt : A -> A -> result bool) (le : A -> A -> Prop).
Hypothesis le_refl : forall a, le a a.
Hypothesis le_trans : forall a b c, le a b -> le b c -> le a c.
Hypothesis lt_true : forall a b, lt a b = Ok true -> le a b.
Hypothesis lt_false : forall a b, lt a b = Ok false -> le b a.
Implicit Types heap : list A.

Lemma hole_up_place heap pos newitem :
  hole_up le heap pos newitem ->
  (forall p, 0 < pos -> heap !! ((pos - 1) / 2) = Some p -> le p newitem) ->
  heap_ok le (<[pos := newitem]> heap).
Proof.
  intros (Hpos & Hedges & Hbelow & _) Habove i Hi x p Hx Hp.
  apply list_lookup_insert_Some in Hx as [(<- & <- & _)|[Hne Hx]];
    apply list_lookup_insert_Some in Hp as [(Hq & <- & _)|[Hnq Hp]].
  - lia.
  - by apply Habove.
  - by eapply Hbelow.
  - by apply (Hedges i).
Qed.

Lemma hole_up_step heap pos newitem parent :
  hole_up le heap pos newitem -> 0 < pos ->
  heap !! ((pos - 1) / 2) = Some parent -> le newitem parent ->
  hole_up le (<[pos := parent]> heap) ((pos - 1) / 2) newitem.
Proof.
  intros (Hpos & Hedges & Hbelow & Hgrand) Hlt Hparent Hle.
  assert (Hup : (pos - 1) / 2 < pos) by lia.
  repeat split.
  - rewrite length_insert. lia.
  - intros i Hi Hne x p Hx Hp.
    apply list_lookup_insert_Some in Hx as [(<- & <- & _)|[Hnx Hx]];
      apply list_lookup_insert_Some in Hp as [(Hq & <- & _)|[Hnq Hp]].
    + apply le_refl.
    + rewrite Hparent in Hp. injection Hp as <-. apply le_refl.
    + by eapply Hgrand.
    + by apply (Hedges i).
  - intros j y Hj Hjp Hy.
    apply list_lookup_insert_Some in Hy as [(<- & <- & _)|[Hny Hy]]; [done|].
    apply le_trans with parent; [done|].
    apply (Hedges j); [done..|]. by rewrite Hjp.
  - intros j y p Hpp Hj Hjp Hy Hp.
    rewrite list_lookup_insert_ne in Hp by lia.
    assert (le p parent) by (apply (Hedges ((pos - 1) / 2)); [lia..|done|done]).
    apply le_trans with parent; [done|].
    apply list_lookup_insert_Some in Hy as [(<- & <- & _)|[Hny Hy]]; [apply le_refl|].
    apply (Hedges j); [done..|]. by rewrite Hjp.
Qed.

Lemma siftdown_loop_ok fuel heap pos newitem h :
  pos <= fuel -> hole_up le heap pos newitem ->
  heapq.siftdown_loop lt fuel heap 0 pos newitem = Ok h -> heap_ok le h.
Proof.
  revert heap pos. induction fuel as [|fuel IH]; intros heap pos Hfuel Hhole; simpl.
  - intros [= <-]. apply hole_up_place; [done|]. intros; lia.
  - destruct (decide (0 < pos)) as [Hlt|Hz].
    2:{ intros [= <-]. apply hole_up_place; [done|]. intros; lia. }
    destruct (heap !! ((pos - 1) / 2)) as [parent|] eqn:Hp; simpl; [|discriminate].
    destruct (lt newitem parent) as [[|]|] eqn:Hcmp; simpl; try discriminate.
    + apply IH; [lia|]. apply hole_up_step; auto.
    + intros [= <-]. apply hole_up_place; [done|].
      intros p _ Hp'. rewrite Hp in Hp'. injection Hp' as <-. auto.
Qed.

(** A leaf hole into which [newitem] was just written. *)
Lemma _siftdown_leaf_ok heap leaf newitem h :
  leaf < length heap ->
  (forall i, 0 < i -> i <> leaf -> edge_ok le heap i) ->
  (forall j, 0 < j -> (j - 1) / 2 = leaf -> heap !! j = None) ->
  heapq._siftdown lt (<[leaf := newitem]> heap) 0 leaf = Ok h -> heap_ok le h.
Proof.
  intros Hleaf Hedges Hnone. unfold heapq._siftdown.
  rewrite list_lookup_insert_eq by done.
  apply siftdown_loop_ok; [done|]. repeat split.
  - by rewrite length_insert.
  - intros i Hi Hne x p Hx Hp. rewrite list_lookup_insert_ne in Hx by done.
    apply list_lookup_insert_Some in Hp as [(Hq & _ & _)|[Hnq Hp]].
    + rewrite Hnone in Hx by done. discriminate.
    + by apply (Hedges i).
  - intros j y Hj Hjp Hy. rewrite list_lookup_insert_ne in Hy by lia.
    rewrite Hnone in Hy by done. discriminate.
  - intros j y p _ Hj Hjp Hy _. rewrite list_lookup_insert_ne in Hy by lia.
    rewrite Hnone in Hy by done. discriminate.
Qed.

Theorem heappush_ok heap item h :
  heap_ok le heap -> heapq.heappush lt heap item = Ok h -> heap_ok le h.
Proof.
  intros Hheap. unfold heapq.heappush.
  rewrite length_app, Nat.add_sub. simpl length.
  rewrite <- (list_insert_id (heap ++ [item]) (length heap) item)
    by apply list_lookup_middle, eq_refl.
  apply _siftdown_leaf_ok.
  - rewrite length_app. simpl. lia.
  - intros i Hi Hne x p Hx Hp.
    assert (i < length heap).
    { apply lookup_lt_Some in Hx. rewrite length_app in Hx. simpl in Hx. lia. }
    rewrite lookup_app_l in Hx, Hp by lia. by apply (Hheap i).
  - intros j Hj Hjp. apply lookup_ge_None_2. rewrite length_app. simpl. lia.
Qed.

Lemma smaller_child_ok heap pos c xc :
  2 * pos + 1 < length heap ->
  heapq.smaller_child lt heap (length heap) (2 * pos + 1) = Ok c ->
  heap !! c = Some xc ->
  0 < c /\ (c - 1) / 2 = pos /\
  forall j y, 0 < j -> (j - 1) / 2 = pos -> heap !! j = Some y -> le xc y.
Proof.
  unfold heapq.smaller_child. intros Hlen.
  destruct (decide (2 * pos + 1 + 1 < length heap)) as [Hr|Hr].
  - destruct (heap !! (2 * pos + 1)) as [l|] eqn:Hl; simpl; [|discriminate].
    destruct (heap !! (2 * pos + 1 + 1)) as [r|] eqn:Hrr; simpl; [|discriminate].
    destruct (lt l r) as [[|]|] eqn:Hcmp; simpl; try discriminate;
      intros [= <-] Hc; (split; [lia|]); (split; [lia|]); intros j y Hj Hjp Hy;
      assert (Hcases : j = 2 * pos + 1 \/ j = 2 * pos + 1 + 1) by lia;
      destruct Hcases as [-> | ->]; simplify_eq; auto.
  - intros [= <-] Hc. split; [lia|]. split; [lia|]. intros j y Hj Hjp Hy.
    assert (Hcases : j = 2 * pos + 1 \/ j = 2 * pos + 1 + 1) by lia.
    destruct Hcases as [-> | ->]; simplify_eq; auto.
    apply lookup_lt_Some in Hy. lia.
Qed.

Lemma siftup_loop_ok fuel heap pos h leaf :
  length heap <= fuel + pos -> hole_down le heap pos ->
  heapq.siftup_loop lt fuel heap (length heap) pos = Ok (h, leaf) ->
  leaf < length h /\
  (forall i, 0 < i -> i <> leaf -> edge_ok le h i) /\
  (forall j, 0 < j -> (j - 1) / 2 = leaf -> h !! j = None).
Proof.
  revert heap pos. induction fuel as [|fuel IH];
    intros heap pos Hfuel (Hpos & Hedges & Hgrand); simpl; [lia|].
  destruct (decide (2 * pos + 1 < length heap)) as [Hlt|Hleaf].
  - destruct (heapq.smaller_child lt heap (length heap) (2 * pos + 1)) as [c|] eqn:Hc;
      simpl; [|discriminate].
    destruct (heap !! c) as [xc|] eqn:Hxc; simpl; [|discriminate].
    destruct (smaller_child_ok heap pos c xc Hlt Hc Hxc) as (Hc0 & Hcp & Hmin).
    pose proof (lookup_lt_Some _ _ _ Hxc) as Hclen.
    rewrite <- (length_insert heap pos xc). apply IH.
    + rewrite length_insert. lia.
    + repeat split.
      * by rewrite length_insert.
      * intros i Hi Hne x p Hx Hp.
        apply list_lookup_insert_Some in Hx as [(<- & <- & _)|[Hnx Hx]];
          apply list_lookup_insert_Some in Hp as [(Hq & <- & _)|[Hnq Hp]].
        -- lia.
        -- by apply (Hgrand c xc p).
        -- by apply (Hmin i).
        -- by apply (Hedges i).
      * intros j y p _ Hj Hjp Hy Hp.
        rewrite list_lookup_insert_ne in Hy by lia.
        rewrite Hcp, list_lookup_insert_eq in Hp by done. injection Hp as <-.
        apply (Hedges j); [done|lia|done|]. by rewrite Hjp.
  - intros [= <- <-]. repeat split; [done| |].
    + intros i Hi Hne x p Hx Hp. destruct (decide ((i - 1) / 2 = pos)) as [Hip|Hip].
      * apply lookup_lt_Some in Hx. lia.
      * by apply (Hedges i).
    + intros j Hj Hjp. apply lookup_ge_None_2. lia.
Qed.

Lemma _siftup_ok heap h :
  hole_down le heap 0 -> heapq._siftup lt heap 0 = Ok h -> heap_ok le h.
Proof.
  intros Hhole. unfold heapq._siftup.
  destruct (heap !! 0) as [newitem|] eqn:Hn; simpl; [|discriminate].
  destruct (heapq.siftup_loop lt (length heap) heap (length heap) 0)
    as [[h1 leaf]|] eqn:Hup; simpl; [|discriminate].
  apply siftup_loop_ok in Hup as (Hleaf & Hedges & Hnone); [|lia|done].
  by apply _siftdown_leaf_ok.
Qed.

Lemma heap_ok_take heap n : heap_ok le heap -> heap_ok le (take n heap).
Proof.
  intros Hheap i Hi x p Hx Hp.
  apply lookup_take_Some in Hx as [Hx ?], Hp as [Hp ?]. by apply (Hheap i).
Qed.

(** The root of a heap is below every item. *)
Lemma heap_ok_root heap r i y :
  heap_ok le heap -> heap !! 0 = Some r -> heap !! i = Some y -> le r y.
Proof.
  intros Hheap Hr. revert y. induction (Nat.lt_wf_0 i) as [i _ IH]. intros y Hy.
  destruct (decide (i = 0)) as [->|Hi].
  - rewrite Hr in Hy. injection Hy as <-. apply le_refl.
  - assert (Hlt : (i - 1) / 2 < i) by lia.
    destruct (lookup_lt_is_Some_2 heap ((i - 1) / 2)) as [p Hp].
    { apply lookup_lt_Some in Hy. lia. }
    apply le_trans with p; [by apply (IH _ Hlt)|]. apply (Hheap i); [lia|done..].
Qed.

Theorem heappop_ok heap item h :
  heap_ok le heap -> heapq.heappop lt heap = Ok (item, h) ->
  heap_ok le h /\ forall y, y ∈ h -> le item y.
Proof.
  intros Hheap Hpop. pose proof (heappop_perm lt heap item h Hpop) as Hperm.
  revert Hpop. unfold heapq.heappop.
  destruct (heap !! (length heap - 1)) as [lastelt|] eqn:Hl; simpl; [|discriminate].
  pose proof (heap_ok_take heap (length heap - 1) Hheap) as Htake.
  destruct (take (length heap - 1) heap) as [|r t] eqn:Ht.
  - intros [= <- <-]. split; [intros i Hi x p Hx; by destruct i|].
    intros y Hy. by apply elem_of_nil in Hy.
  - destruct (heapq._siftup lt (<[0 := lastelt]> (r :: t)) 0) as [h1|] eqn:Hup;
      simpl; [|discriminate].
    intros [= <- <-]. split.
    + apply _siftup_ok in Hup; [done|]. repeat split.
      * simpl. lia.
      * intros i Hi Hne x p Hx Hp.
        rewrite list_lookup_insert_ne in Hx, Hp by lia. by apply (Htake i).
      * intros; lia.
    + intros y Hy. assert (Hin : y ∈ heap) by (rewrite Hperm; by right).
      apply list_elem_of_lookup in Hin as [i Hi].
      apply (heap_ok_root heap r i y); [done| |done].
      assert (Hr : take (length heap - 1) heap !! 0 = Some r) by by rewrite Ht.
      by apply lookup_take_Some in Hr as [Hr _].
Qed.
End HeapOrder.

(** * Facts about events *)

Lemma bind_Ok {A B : Type} (r : result A) (k : A -> result B) b :
  bind r k = Ok b -> exists a, r = Ok a /\ k a = Ok b.
Proof. destruct r as [a|e]; simpl; [eauto | discriminate]. Qed.

Lemma Qltb_true a b : Qltb a b = true -> (a < b)%Q.
Proof. unfold Qltb. rewrite Qlt_alt. by destruct (a ?= b)%Q. Qed.

Lemma Qltb_false a b : Qltb a b = false -> (b <= a)%Q.
Proof.
  unfold Qltb. intros H. apply Qnot_lt_le. rewrite Qlt_alt.
  by destruct (a ?= b)%Q.
Qed.

Lemma le_time_refl a : le_time a a.
Proof. apply Qle_refl. Qed.

Lemma le_time_trans a b c : le_time a b -> le_time b c -> le_time a c.
Proof. apply Qle_trans. Qed.

Lemma tuple_lt_true a b : tuple_lt a b = Ok true -> le_time a b.
Proof.
  unfold tuple_lt, le_time.
  destruct (Qeq_bool (ev_time a) (ev_time b)) eqn:Ht; simpl.
  - intros _. apply Qeq_bool_iff in Ht. rewrite Ht. apply Qle_refl.
  - intros [= H]. by apply Qlt_le_weak, Qltb_true.
Qed.

Lemma tuple_lt_false a b : tuple_lt a b = Ok false -> le_time b a.
Proof.
  unfold tuple_lt, le_time.
  destruct (Qeq_bool (ev_time a) (ev_time b)) eqn:Ht; simpl.
  - intros _. apply Qeq_bool_iff in Ht. rewrite Ht. apply Qle_refl.
  - intros [= H]. by apply Qltb_false.
Qed.

Lemma count_type_perm k q q' : q ≡ₚ q' -> count_type k q = count_type k q'.
Proof. induction 1; simpl; lia. Qed.

Lemma heappush_count k q e q' :
  heapq.heappush tuple_lt q e = Ok q' ->
  count_type k q' = (if (ev_type e =? k)%string then 1 else 0) + count_type k q.
Proof. intros H. apply heappush_perm in H. by rewrite (count_type_perm k _ _ H). Qed.

Lemma heappop_count k q e q' :
  heapq.heappop tuple_lt q = Ok (e, q') ->
  count_type k q = (if (ev_type e =? k)%string then 1 else 0) + count_type k q'.
Proof. intros H. apply heappop_perm in H. by rewrite (count_type_perm k _ _ H). Qed.

Lemma heappush_time q e q' :
  heap_ok le_time q -> heapq.heappush tuple_lt q e = Ok q' -> heap_ok le_time q'.
Proof.
  apply heappush_ok; auto using le_time_refl, tuple_lt_true, tuple_lt_false.
  apply le_time_trans.
Qed.

Lemma heappop_time q e q' :
  heap_ok le_time q -> heapq.heappop tuple_lt q = Ok (e, q') ->
  heap_ok le_time q' /\ forall y, y ∈ q' -> le_time e y.
Proof.
  apply heappop_ok; auto using le_time_refl, tuple_lt_true, tuple_lt_false.
  apply le_time_trans.
Qed.

(** * Facts about the engine *)

Lemma schedule_event_Ok s t k c s' :
  schedule_event s t k c = Ok s' ->
  exists q, heapq.heappush tuple_lt (event_queue s) (t, k, c) = Ok q /\
            s' = set_event_queue s q.
Proof.
  unfold schedule_event. intros H. apply bind_Ok in H as (q & Hq & [= <-]). eauto.
Qed.

Lemma pydiv_Ok x y z : pydiv x y = Ok z -> Qeq_bool y 0 = false /\ z = (x / y)%Q.
Proof. unfold pydiv. destruct (Qeq_bool y 0); [discriminate|]. by intros [= <-]. Qed.

Lemma Qdiv_step t u r : (0 <= u)%Q -> (0 < r)%Q -> (t <= t + u / r)%Q.
Proof.
  intros Hu Hr. rewrite <- (Qplus_0_r t) at 1. apply Qplus_le_r.
  apply Qle_shift_div_l; [done|]. by rewrite Qmult_0_l.
Qed.

Section EngineFacts.
Variable unit_exp : nat -> Q.

Lemma expovariate_Ok lambd s x s' :
  expovariate unit_exp lambd s = Ok (x, s') ->
  Qeq_bool lambd 0 = false /\
  x = (unit_exp (rng_index s) / lambd)%Q /\
  s' = set_rng_index s (S (rng_index s)).
Proof.
  unfold expovariate. intros H. apply bind_Ok in H as (y & Hy & [= <- <-]).
  apply pydiv_Ok in Hy as [? ->]. done.
Qed.

(** Inversion of a successful call: every call it made succeeded. *)
Ltac inv_ok :=
  repeat match goal with
  | H : bind _ _ = Ok _ |- _ =>
      let a := fresh "a" in let Ha := fresh "Hcall" in
      apply bind_Ok in H as (a & Ha & H)
  | H : generate_service_time _ _ = Ok _ |- _ => unfold generate_service_time in H
  | H : generate_interarrival_time _ _ = Ok _ |- _ =>
      unfold generate_interarrival_time in H
  | H : expovariate _ _ _ = Ok (_, _) |- _ => apply expovariate_Ok in H as (? & ? & ?)
  | H : schedule_event _ _ _ _ = Ok _ |- _ => apply schedule_event_Ok in H as (? & ? & ?)
  | H : add_opt _ _ = Ok _ |- _ => unfold add_opt in H
  | H : (let '(_, _) := ?p in _) = Ok _ |- _ => destruct p
  | H : (if ?b then _ else _) = Ok _ |- _ => destruct b eqn:?
  | H : match ?x with _ => _ end = Ok _ |- _ => destruct x eqn:?
  | H : Raise _ = Ok _ |- _ => discriminate H
  | H : Ok _ = Ok _ |- _ => injection H as H
  | H : ?x = _ |- _ => is_var x; subst x
  | H : _ = ?x |- _ => is_var x; subst x
  end.

Lemma handle_arrival_frame s c s' :
  handle_arrival unit_exp s c = Ok s' ->
  num_servers s' = num_servers s /\ arrival_rate s' = arrival_rate s /\
  service_rate s' = service_rate s /\ current_time s' = current_time s /\
  last_event_time s' = last_event_time s /\
  queue_length_sum s' = queue_length_sum s /\
  max_queue_length s' = max_queue_length s /\
  time_history s' = time_history s /\
  customers_served s' = customers_served s /\
  customers_arrived s' = (customers_arrived s + 1)%Z /\
  queue_length_history s' = queue_length_history s.
Proof. unfold handle_arrival. intros H. inv_ok; simpl; done. Qed.

Lemma handle_departure_frame s c s' :
  handle_departure unit_exp s c = Ok s' ->
  num_servers s' = num_servers s /\ arrival_rate s' = arrival_rate s /\
  service_rate s' = service_rate s /\ current_time s' = current_time s /\
  last_event_time s' = last_event_time s /\
  queue_length_sum s' = queue_length_sum s /\
  max_queue_length s' = max_queue_length s /\
  time_history s' = time_history s /\
  customers_served s' = (customers_served s + 1)%Z /\
  customers_arrived s' = customers_arrived s /\
  queue_length_history s' = queue_length_history s.
Proof. unfold handle_departure. intros H. inv_ok; simpl; done. Qed.

Lemma handle_arrival_counts s c s' :
  handle_arrival unit_exp s c = Ok s' ->
  pending_arrivals s' = S (pending_arrivals s) /\
  ((busy_servers s < num_servers s)%Z /\
   busy_servers s' = (busy_servers s + 1)%Z /\
   pending_departures s' = S (pending_departures s) /\
   waiting_queue s' = waiting_queue s
   \/
   (num_servers s <= busy_servers s)%Z /\
   busy_servers s' = busy_servers s /\
   pending_departures s' = pending_departures s /\
   waiting_queue s' = waiting_queue s ++ [c]).
Proof.
  unfold handle_arrival, pending_arrivals, pending_departures. intros H.
  inv_ok; simpl in *;
    repeat match goal with
    | H : heapq.heappush _ _ _ = Ok _ |- _ =>
        pose proof (heappush_count "arrival" _ _ _ H);
        pose proof (heappush_count "departure" _ _ _ H); clear H
    end; simpl in *.
  - split; [lia|]. left. repeat split; lia.
  - split; [lia|]. right. repeat split; lia.
Qed.

Lemma handle_departure_counts s c s' :
  handle_departure unit_exp s c = Ok s' ->
  pending_arrivals s' = pending_arrivals s /\
  (waiting_queue s <> [] /\
   busy_servers s' = busy_servers s /\
   pending_departures s' = S (pending_departures s)
   \/
   waiting_queue s = [] /\
   busy_servers s' = (busy_servers s - 1)%Z /\
   pending_departures s' = pending_departures s).
Proof.
  unfold handle_departure, pending_arrivals, pending_departures. intros H.
  inv_ok; simpl in *;
    repeat match goal with
    | H : heapq.heappush _ _ _ = Ok _ |- _ =>
        pose proof (heappush_count "arrival" _ _ _ H);
        pose proof (heappush_count "departure" _ _ _ H); clear H
    end; simpl in *.
  - split; [done|]. right. done.
  - split; [lia|]. left. repeat split; [congruence|lia].
Qed.

Lemma heappush_after t q e q' :
  queue_after t q -> (t <= ev_time e)%Q ->
  heapq.heappush tuple_lt q e = Ok q' -> queue_after t q'.
Proof.
  intros [Hheap Hall] He Hpush. split; [by eapply heappush_time|].
  intros y Hy. rewrite (heappush_perm _ _ _ _ Hpush) in Hy.
  apply elem_of_cons in Hy as [->|Hy]; auto.
Qed.

Hypothesis unit_exp_nonneg : forall n, (0 <= unit_exp n)%Q.

Lemma handle_arrival_times s c s' :
  (0 < arrival_rate s)%Q -> (0 < service_rate s)%Q ->
  queue_after (current_time s) (event_queue s) ->
  handle_arrival unit_exp s c = Ok s' ->
  queue_after (current_time s') (event_queue s').
Proof.
  unfold handle_arrival. intros Ha Hs Hq H.
  inv_ok; simpl in *;
    repeat match goal with
    | H : heapq.heappush _ _ _ = Ok _ |- _ =>
        apply heappush_after with (t := current_time s) in H;
        [| done | simpl; apply Qdiv_step; [apply unit_exp_nonneg | done]]
    end; done.
Qed.

Lemma handle_departure_times s c s' :
  (0 < service_rate s)%Q ->
  queue_after (current_time s) (event_queue s) ->
  handle_departure unit_exp s c = Ok s' ->
  queue_after (current_time s') (event_queue s').
Proof.
  unfold handle_departure. intros Hs Hq H.
  inv_ok; simpl in *;
    repeat match goal with
    | H : heapq.heappush _ _ _ = Ok _ |- _ =>
        apply heappush_after with (t := current_time s) in H;
        [| done | simpl; apply Qdiv_step; [apply unit_exp_nonneg | done]]
    end; done.
Qed.

Lemma process_event_at s t k c :
  process_event unit_exp s (t, k, c) =
  if (k =? "arrival")%string then handle_arrival unit_exp (at_event s t) c
  else if (k =? "departure")%string then handle_departure unit_exp (at_event s t) c
  else Ok (at_event s t).
Proof. reflexivity. Qed.

Lemma loop_step_Continue mt mc s s' :
  loop_step unit_exp mt mc s = Continue s' ->
  exists e q,
    heapq.heappop tuple_lt (event_queue s) = Ok (e, q) /\
    past_max_time mt (ev_time e) = false /\
    enough_customers mc (set_event_queue s q) = false /\
    process_event unit_exp (set_event_queue s q) e = Ok s'.
Proof.
  unfold loop_step. destruct (event_queue s) as [|e0 q0] eqn:Hq; [discriminate|].
  rewrite <- Hq.
  destruct (heapq.heappop tuple_lt (event_queue s)) as [[e q]|] eqn:Hpop;
    [|discriminate].
  destruct (past_max_time mt (ev_time e)) eqn:Ht; [discriminate|].
  destruct (enough_customers mc (set_event_queue s q)) eqn:Hc; [discriminate|].
  destruct (process_event unit_exp (set_event_queue s q) e) eqn:Hp; [|discriminate].
  intros [= <-]. by exists e, q.
Qed.

Lemma loop_step_Break mt mc s s' :
  loop_step unit_exp mt mc s = Break s' ->
  event_queue s = [] /\ s' = s
  \/
  exists e q,
    heapq.heappop tuple_lt (event_queue s) = Ok (e, q) /\
    s' = set_event_queue s q /\
    (past_max_time mt (ev_time e) = true
     \/ enough_customers mc (set_event_queue s q) = true).
Proof.
  unfold loop_step. destruct (event_queue s) as [|e0 q0] eqn:Hq;
    [intros [= <-]; by left|].
  rewrite <- Hq.
  destruct (heapq.heappop tuple_lt (event_queue s)) as [[e q]|] eqn:Hpop;
    [|discriminate].
  destruct (past_max_time mt (ev_time e)) eqn:Ht.
  { intros [= <-]. right. exists e, q. auto. }
  destruct (enough_customers mc (set_event_queue s q)) eqn:Hc.
  { intros [= <-]. right. exists e, q. auto. }
  destruct (process_event unit_exp (set_event_queue s q) e); discriminate.
Qed.

Lemma run_loop_Running (P : Sim -> Prop) mt mc :
  (forall s s', P s -> loop_step unit_exp mt mc s = Continue s' -> P s') ->
  forall n s s', P s -> run_loop unit_exp n mt mc s = Running s' -> P s'.
Proof.
  intros Hstep. induction n as [|n IH]; intros s s' Hs; simpl.
  - by intros [= <-].
  - destruct (loop_step unit_exp mt mc s) as [s1|s1|] eqn:Hl; try discriminate.
    apply IH. by apply (Hstep s).
Qed.

Lemma run_loop_Returned (P R : Sim -> Prop) mt mc :
  (forall s s', P s -> loop_step unit_exp mt mc s = Continue s' -> P s') ->
  (forall s s', P s -> loop_step unit_exp mt mc s = Break s' -> R s') ->
  forall n s s', P s -> run_loop unit_exp n mt mc s = Returned s' -> R s'.
Proof.
  intros Hstep Hbreak. induction n as [|n IH]; intros s s' Hs; simpl; [discriminate|].
  destruct (loop_step unit_exp mt mc s) as [s1|s1|] eqn:Hl; try discriminate.
  - apply IH. by apply (Hstep s).
  - intros [= <-]. by apply (Hbreak s).
Qed.

Lemma process_event_cases s t k c s' :
  process_event unit_exp s (t, k, c) = Ok s' ->
  k = "arrival" /\ handle_arrival unit_exp (at_event s t) c = Ok s'
  \/ k = "departure" /\ handle_departure unit_exp (at_event s t) c = Ok s'
  \/ k <> "arrival" /\ k <> "departure" /\ s' = at_event s t.
Proof.
  rewrite process_event_at.
  destruct (String.eqb_spec k "arrival") as [->|Ha]; [auto|].
  destruct (String.eqb_spec k "departure") as [->|Hd]; [auto|].
  intros [= <-]. auto.
Qed.

Lemma eqb_other k k' : k <> k' -> (k =? k')%string = false.
Proof. intros. by apply String.eqb_neq. Qed.

(** Processing an event leaves the number of pending arrivals as it was. *)
Lemma loop_step_arrivals mt mc s s' :
  loop_step unit_exp mt mc s = Continue s' ->
  pending_arrivals s' = pending_arrivals s.
Proof.
  intros H. apply loop_step_Continue in H as ([[t k] c] & q & Hpop & _ & _ & Hev).
  pose proof (heappop_count "arrival" _ _ _ Hpop) as Hcount. simpl in Hcount.
  unfold pending_arrivals at 2. rewrite Hcount.
  apply process_event_cases in Hev as [[-> Hh]|[[-> Hh]|(Ha & Hd & ->)]].
  - apply handle_arrival_counts in Hh as [-> _]. reflexivity.
  - apply handle_departure_counts in Hh as [-> _]. reflexivity.
  - rewrite eqb_other by done. reflexivity.
Qed.

Lemma loop_step_Break_arrivals mt mc s s' :
  loop_step unit_exp mt mc s = Break s' ->
  pending_arrivals s = pending_arrivals s'
  \/ pending_arrivals s = S (pending_arrivals s').
Proof.
  intros H. apply loop_step_Break in H as [[_ ->]|(e & q & Hpop & -> & _)]; [by left|].
  pose proof (heappop_count "arrival" _ _ _ Hpop) as Hcount.
  unfold pending_arrivals. simpl. rewrite Hcount.
  destruct (ev_type e =? "arrival")%string; auto.
Qed.

Lemma loop_step_servers mt mc s s' :
  servers_inv s -> loop_step unit_exp mt mc s = Continue s' -> servers_inv s'.
Proof.
  unfold servers_inv. intros Hinv H.
  apply loop_step_Continue in H as ([[t k] c] & q & Hpop & _ & _ & Hev).
  pose proof (heappop_count "departure" _ _ _ Hpop) as Hcount. simpl in Hcount.
  unfold pending_departures in Hinv at 1. rewrite Hcount in Hinv.
  apply process_event_cases in Hev as [[-> Hh]|[[-> Hh]|(Ha & Hd & ->)]].
  - pose proof (handle_arrival_frame _ _ _ Hh) as (-> & _).
    apply handle_arrival_counts in Hh as [_ [(? & -> & -> & _)|(? & -> & -> & _)]];
      unfold pending_departures in *; simpl in *; lia.
  - pose proof (handle_departure_frame _ _ _ Hh) as (-> & _).
    apply handle_departure_counts in Hh as [_ [(? & -> & ->)|(? & -> & ->)]];
      unfold pending_departures in *; simpl in *; lia.
  - rewrite eqb_other in Hinv by done.
    unfold pending_departures; simpl in *; lia.
Qed.

Lemma loop_step_Break_servers mt mc s s' :
  servers_inv s -> loop_step unit_exp mt mc s = Break s' -> servers_inv s'.
Proof.
  unfold servers_inv. intros Hinv H.
  apply loop_step_Break in H as [[_ ->]|(e & q & Hpop & -> & _)]; [done|].
  pose proof (heappop_count "departure" _ _ _ Hpop) as Hcount.
  unfold pending_departures in *. simpl. lia.
Qed.

(** A departure that is popped finds a busy server. *)
Lemma popped_departure_busy s e q :
  servers_inv s -> heapq.heappop tuple_lt (event_queue s) = Ok (e, q) ->
  ev_type e = "departure" -> (0 < busy_servers s)%Z.
Proof.
  unfold servers_inv, pending_departures. intros Hinv Hpop He.
  rewrite (heappop_count "departure" _ _ _ Hpop), He in Hinv. simpl in Hinv. lia.
Qed.

Lemma nondecreasing_snoc l t :
  nondecreasing l -> (forall x, x ∈ l -> (x <= t)%Q) -> nondecreasing (l ++ [t]).
Proof.
  intros Hl Hle i t1 t2 H1 H2.
  apply lookup_snoc_Some in H2 as [[? H2]|[Hi <-]].
  - rewrite lookup_app_l in H1 by lia. by apply (Hl i).
  - rewrite lookup_app_l in H1 by lia. apply Hle. by eapply list_elem_of_lookup_2.
Qed.

Lemma schedule_first_arrival_Ok s s' :
  schedule_first_arrival unit_exp s = Ok s' ->
  exists q,
    heapq.heappush tuple_lt (event_queue s)
      ((unit_exp (rng_index s) / arrival_rate s)%Q, "arrival",
       {| id := next_customer_id s;
          arrival_time := (unit_exp (rng_index s) / arrival_rate s)%Q;
          service_start_time := None; departure_time := None |}) = Ok q /\
    s' = set_event_queue
           (set_next_customer_id (set_rng_index s (S (rng_index s)))
              (next_customer_id s + 1)) q.
Proof. unfold schedule_first_arrival. intros H. inv_ok; simpl in *. eauto. Qed.

Lemma schedule_first_arrival_arrivals s s' :
  schedule_first_arrival unit_exp s = Ok s' ->
  pending_arrivals s' = S (pending_arrivals s).
Proof.
  intros H. apply schedule_first_arrival_Ok in H as (q & Hq & ->).
  unfold pending_arrivals. simpl. by rewrite (heappush_count _ _ _ _ Hq).
Qed.

Lemma schedule_first_arrival_servers s s' :
  servers_inv s -> schedule_first_arrival unit_exp s = Ok s' -> servers_inv s'.
Proof.
  unfold servers_inv, pending_departures. intros Hinv H.
  apply schedule_first_arrival_Ok in H as (q & Hq & ->). simpl.
  by rewrite (heappush_count _ _ _ _ Hq).
Qed.

Lemma run_Running n mt mc s s' :
  run unit_exp n mt mc s = Running s' ->
  exists s1, schedule_first_arrival unit_exp s = Ok s1 /\
             run_loop unit_exp n mt mc s1 = Running s'.
Proof. unfold run. destruct (schedule_first_arrival unit_exp s); [eauto|discriminate]. Qed.

Lemma run_Returned n mt mc s s' :
  run unit_exp n mt mc s = Returned s' ->
  exists s1, schedule_first_arrival unit_exp s = Ok s1 /\
             run_loop unit_exp n mt mc s1 = Returned s'.
Proof. unfold run. destruct (schedule_first_arrival unit_exp s); [eauto|discriminate]. Qed.

(** One pass through the loop body, whatever it does, keeps the
    configuration. *)
Lemma loop_step_config mt mc s s' :
  loop_step unit_exp mt mc s = Continue s' \/ loop_step unit_exp mt mc s = Break s' ->
  num_servers s' = num_servers s /\ arrival_rate s' = arrival_rate s /\
  service_rate s' = service_rate s.
Proof.
  intros [H|H].
  - apply loop_step_Continue in H as ([[t k] c] & q & _ & _ & _ & Hev).
    apply process_event_cases in Hev as [[-> Hh]|[[-> Hh]|(_ & _ & ->)]]; [| |done].
    + by apply handle_arrival_frame in Hh as (-> & -> & -> & _).
    + by apply handle_departure_frame in Hh as (-> & -> & -> & _).
  - by apply loop_step_Break in H as [[_ ->]|(e & q & _ & -> & _)].
Qed.

(** What a processed event does to the statistics, the clock and the
    histories: the handlers leave them as [at_event] set them. *)
Lemma loop_step_statistics mt mc s s' :
  loop_step unit_exp mt mc s = Continue s' ->
  exists e q,
    heapq.heappop tuple_lt (event_queue s) = Ok (e, q) /\
    current_time s' = ev_time e /\
    last_event_time s' = ev_time e /\
    queue_length_sum s' =
      (queue_length_sum s
       + inject_Z (len (waiting_queue s)) * (ev_time e - last_event_time s))%Q /\
    max_queue_length s' = Z.max (max_queue_length s) (len (waiting_queue s)) /\
    time_history s' = time_history s ++ [ev_time e] /\
    queue_length_history s' = queue_length_history s ++ [len (waiting_queue s)].
Proof.
  intros H. apply loop_step_Continue in H as ([[t k] c] & q & Hpop & _ & _ & Hev).
  exists (t, k, c), q. split; [done|].
  apply process_event_cases in Hev as [[-> Hh]|[[-> Hh]|(_ & _ & ->)]]; [| |done].
  - by apply handle_arrival_frame in Hh
      as (_ & _ & _ & -> & -> & -> & -> & -> & _ & _ & ->).
  - by apply handle_departure_frame in Hh
      as (_ & _ & _ & -> & -> & -> & -> & -> & _ & _ & ->).
Qed.

Lemma loop_step_recorded mt mc s s' :
  loop_step unit_exp mt mc s = Continue s' -> clock_recorded s'.
Proof.
  intros H. apply loop_step_statistics in H as (e & q & _ & Hc & _ & _ & _ & Hh & _).
  unfold clock_recorded. by rewrite Hh, last_snoc.
Qed.

Lemma loop_step_Break_recorded mt mc s s' :
  clock_recorded s -> loop_step unit_exp mt mc s = Break s' -> clock_recorded s'.
Proof.
  intros Hrec H. by apply loop_step_Break in H as [[_ ->]|(e & q & _ & -> & _)].
Qed.

(** * The run, from a fresh object *)

Lemma init_Ok c lam mu s0 :
  init c lam mu = Ok s0 ->
  num_servers s0 = c /\ arrival_rate s0 = lam /\ service_rate s0 = mu /\
  current_time s0 = 0%Q /\ event_queue s0 = [] /\ time_history s0 = [] /\
  busy_servers s0 = 0%Z /\ waiting_queue s0 = [].
Proof. by intros [= <-]. Qed.

(** C2: every processed event updates the statistics once, before its
    handler runs and from the state before the event: the queue-length
    integral grows by the length the waiting line had before the event times
    the time elapsed since the previous event, the maximum queue length
    becomes the larger of itself and that same length, and the one history
    entry the event adds records that same length.  The time from which the
    elapsed time is measured is the time of the event processed before: the
    event leaves its own time in [last_event_time], and the event processed
    next adds its waiting line times the difference of the two event
    times. *)
Theorem statistics_use_pre_event_state mt mc s s' :
  loop_step unit_exp mt mc s = Continue s' ->
  exists event q,
    heapq.heappop tuple_lt (event_queue s) = Ok (event, q) /\
    current_time s' = ev_time event /\
    last_event_time s' = ev_time event /\
    queue_length_sum s' =
      (queue_length_sum s
       + inject_Z (len (waiting_queue s)) * (ev_time event - last_event_time s))%Q /\
    max_queue_length s' = Z.max (max_queue_length s) (len (waiting_queue s)) /\
    queue_length_history s' = queue_length_history s ++ [len (waiting_queue s)] /\
    time_history s' = time_history s ++ [ev_time event] /\
    forall s'',
      loop_step unit_exp mt mc s' = Continue s'' ->
      exists next q',
        heapq.heappop tuple_lt (event_queue s') = Ok (next, q') /\
        queue_length_sum s'' =
          (queue_length_sum s'
           + inject_Z (len (waiting_queue s')) * (ev_time next - ev_time event))%Q /\
        max_queue_length s'' = Z.max (max_queue_length s') (len (waiting_queue s')).
Proof.
  intros H.
  apply loop_step_statistics in H
    as (e & q & Hpop & Hct & Hlast & Hsum & Hmax & Hth & Hqh).
  exists e, q. split_and!; try done.
  intros s'' H'.
  apply loop_step_statistics in H'
    as (e' & q' & Hpop' & _ & _ & Hsum' & Hmax' & _).
  exists e', q'. rewrite Hlast in Hsum'. done.
Qed.

Lemma init_servers_inv c lam mu s0 :
  init c lam mu = Ok s0 -> (0 <= c)%Z -> servers_inv s0.
Proof. intros [= <-] Hc. unfold servers_inv, pending_departures. simpl. lia. Qed.

(** C7: in every state a call of [run] reaches, at the loop head or on
    return, the number of busy servers lies between zero and [num_servers]
    and the waiting line has a nonnegative length, provided the call starts
    from an object on which no more departures are pending than servers are
    busy and no more servers are busy than there are (so it is on a fresh
    object with a nonnegative server count, and again after every call); a
    popped departure finds a busy server, and arrival handling adds a busy
    server only when fewer than [num_servers] are busy. *)
Theorem busy_servers_in_range s0 n mt mc s :
  servers_inv s0 ->
  run unit_exp n mt mc s0 = Running s \/ run unit_exp n mt mc s0 = Returned s ->
  (0 <= busy_servers s <= num_servers s)%Z /\
  num_servers s = num_servers s0 /\
  (0 <= len (waiting_queue s))%Z /\
  servers_inv s /\
  (forall e q, heapq.heappop tuple_lt (event_queue s) = Ok (e, q) ->
     ev_type e = "departure" -> (0 < busy_servers s)%Z) /\
  (forall customer s', handle_arrival unit_exp s customer = Ok s' ->
     busy_servers s' = (busy_servers s + 1)%Z /\ (busy_servers s < num_servers s)%Z
     \/ busy_servers s' = busy_servers s).
Proof.
  intros H0 Hrun.
  set (P := fun s => servers_inv s /\ num_servers s = num_servers s0).
  assert (Hstep : forall s1 s2, P s1 -> loop_step unit_exp mt mc s1 = Continue s2 -> P s2).
  { intros s1 s2 [Hi Hn] Hl. split; [by eapply loop_step_servers|].
    destruct (loop_step_config mt mc s1 s2) as (-> & _); auto. }
  assert (Hbreak : forall s1 s2, P s1 -> loop_step unit_exp mt mc s1 = Break s2 -> P s2).
  { intros s1 s2 [Hi Hn] Hl. split; [by eapply loop_step_Break_servers|].
    destruct (loop_step_config mt mc s1 s2) as (-> & _); auto. }
  assert (Hs : P s).
  { destruct Hrun as [Hrun|Hrun].
    - apply run_Running in Hrun as (s1 & H1 & Hloop).
      apply (run_loop_Running P mt mc Hstep n s1 s); [|done].
      split; [by eapply schedule_first_arrival_servers|].
      apply schedule_first_arrival_Ok in H1 as (q & _ & ->). done.
    - apply run_Returned in Hrun as (s1 & H1 & Hloop).
      apply (run_loop_Returned P P mt mc Hstep Hbreak n s1 s); [|done].
      split; [by eapply schedule_first_arrival_servers|].
      apply schedule_first_arrival_Ok in H1 as (q & _ & ->). done. }
  destruct Hs as [Hinv Hn]. split_and!; try done.
  - unfold servers_inv in Hinv. lia.
  - unfold servers_inv in Hinv. lia.
  - unfold len. lia.
  - intros e q. by apply popped_departure_busy.
  - intros customer s' Hh.
    apply handle_arrival_counts in Hh as [_ [(? & -> & _)|(? & -> & _)]]; auto.
Qed.

(** C9: at the loop head of a run on a fresh object, after any number of
    processed events, exactly one arrival event is pending; processing an
    arrival schedules exactly one arrival and processing a departure
    schedules none. *)
Theorem one_arrival_pending c lam mu s0 n mt mc s :
  init c lam mu = Ok s0 ->
  run unit_exp n mt mc s0 = Running s ->
  pending_arrivals s = 1 /\
  (forall customer s', handle_arrival unit_exp s customer = Ok s' ->
     pending_arrivals s' = S (pending_arrivals s)) /\
  (forall customer s', handle_departure unit_exp s customer = Ok s' ->
     pending_arrivals s' = pending_arrivals s).
Proof.
  intros Hinit Hrun. split_and!.
  - apply init_Ok in Hinit as (_ & _ & _ & _ & Hq & _).
    apply run_Running in Hrun as (s1 & H1 & Hloop).
    apply schedule_first_arrival_arrivals in H1.
    unfold pending_arrivals at 2 in H1. rewrite Hq in H1. simpl in H1.
    revert Hloop. apply (run_loop_Running (fun s => pending_arrivals s = 1)); [|done].
    intros s2 s3 H2 Hl. by rewrite (loop_step_arrivals _ _ _ _ Hl).
  - intros customer s' Hh. by apply handle_arrival_counts in Hh as [-> _].
  - intros customer s' Hh. by apply handle_departure_counts in Hh as [-> _].
Qed.

(** A processed event moves the clock to its time, and no event is pending
    before that time afterwards. *)
Lemma loop_step_after mt mc s s' :
  (0 < arrival_rate s)%Q -> (0 < service_rate s)%Q ->
  heap_ok le_time (event_queue s) ->
  loop_step unit_exp mt mc s = Continue s' ->
  exists e q,
    heapq.heappop tuple_lt (event_queue s) = Ok (e, q) /\
    current_time s' = ev_time e /\
    time_history s' = time_history s ++ [ev_time e] /\
    queue_after (ev_time e) (event_queue s').
Proof.
  intros Ha Hs Hheap H.
  pose proof (loop_step_statistics _ _ _ _ H) as (e' & q' & Hpop' & Hc & _ & _ & _ & Hh & _).
  apply loop_step_Continue in H as (e & q & Hpop & _ & _ & Hev).
  rewrite Hpop in Hpop'. injection Hpop' as <- <-.
  exists e, q. split_and!; try done.
  destruct (heappop_time _ _ _ Hheap Hpop) as [Hheap' Hmin].
  destruct e as [[t k] c].
  assert (Hat : queue_after (current_time (at_event (set_event_queue s q) t))
                  (event_queue (at_event (set_event_queue s q) t))) by done.
  apply process_event_cases in Hev as [[-> Hh']|[[-> Hh']|(_ & _ & ->)]]; [| |done].
  - apply handle_arrival_times in Hh'; [|done..]. by rewrite Hc in Hh'.
  - apply handle_departure_times in Hh'; [|done..]. by rewrite Hc in Hh'.
Qed.

Lemma loop_step_order th0 mt mc s s' :
  order_inv th0 s -> loop_step unit_exp mt mc s = Continue s' -> order_inv th0 s'.
Proof.
  intros (Ha & Hs & Hheap & processed & Hth & Hnd & Hbefore & Hclock) H.
  destruct (loop_step_config mt mc s s' (or_introl H)) as (_ & Ea & Es).
  destruct (loop_step_after _ _ _ _ Ha Hs Hheap H)
    as (e & q & Hpop & Hc & Hh & [Hheap' Hafter]).
  assert (Hin : e ∈ event_queue s) by (rewrite (heappop_perm _ _ _ _ Hpop); by left).
  unfold order_inv. rewrite Ea, Es. split_and!; try done.
  exists (processed ++ [ev_time e]). split_and!.
  - by rewrite Hh, Hth, app_assoc.
  - apply nondecreasing_snoc; [done|]. intros t Ht. by apply Hbefore.
  - intros t e' Ht He'. apply Qle_trans with (ev_time e); [|by apply Hafter].
    apply elem_of_app in Ht as [Ht|Ht]; [by apply Hbefore|].
    apply list_elem_of_singleton in Ht as ->. apply Qle_refl.
  - intros t Ht. rewrite Hc. apply elem_of_app in Ht as [Ht|Ht]; [by apply Hbefore|].
    apply list_elem_of_singleton in Ht as ->. apply Qle_refl.
Qed.

Lemma loop_step_Break_order th0 mt mc s s' :
  order_inv th0 s -> loop_step unit_exp mt mc s = Break s' -> order_inv th0 s'.
Proof.
  intros (Ha & Hs & Hheap & processed & Hth & Hnd & Hbefore & Hclock) H.
  apply loop_step_Break in H as [[_ ->]|(e & q & Hpop & -> & _)].
  { unfold order_inv. split_and!; try done. by exists processed. }
  destruct (heappop_time _ _ _ Hheap Hpop) as [Hheap' _].
  unfold order_inv. simpl. split_and!; try done.
  exists processed. split_and!; try done.
  intros t e' Ht He'. apply Hbefore; [done|].
  rewrite (heappop_perm _ _ _ _ Hpop). by right.
Qed.

Lemma schedule_first_arrival_order s s' :
  (0 < arrival_rate s)%Q -> (0 < service_rate s)%Q ->
  heap_ok le_time (event_queue s) ->
  schedule_first_arrival unit_exp s = Ok s' -> order_inv (time_history s) s'.
Proof.
  intros Ha Hs Hheap H. apply schedule_first_arrival_Ok in H as (q & Hq & ->).
  unfold order_inv. simpl. split_and!; try done.
  - by eapply heappush_time.
  - exists []. simpl. split_and!.
    + by rewrite app_nil_r.
    + intros i t1 t2 H1. by destruct i.
    + intros t e Ht. by apply elem_of_nil in Ht.
    + intros t Ht. by apply elem_of_nil in Ht.
Qed.

(** C8: across any single call of [run], on an object with positive rates
    whose event queue is a heap (as on a fresh object and after every call),
    the times of the events the call processes never decrease from one
    processed event to the next, none of them lies after the clock, and once
    an event is processed the clock shows the time of the last one. *)
Theorem current_time_nondecreasing s n mt mc s' :
  (0 < arrival_rate s)%Q -> (0 < service_rate s)%Q ->
  heap_ok le_time (event_queue s) ->
  run unit_exp n mt mc s = Running s' \/ run unit_exp n mt mc s = Returned s' ->
  exists processed,
    time_history s' = time_history s ++ processed /\
    nondecreasing processed /\
    (forall t, t ∈ processed -> (t <= current_time s')%Q) /\
    (forall t e, t ∈ processed -> e ∈ event_queue s' -> (t <= ev_time e)%Q) /\
    (processed <> [] -> clock_recorded s') /\
    heap_ok le_time (event_queue s').
Proof.
  intros Hlam Hmu Hheap Hrun.
  set (P := fun s1 => order_inv (time_history s) s1 /\
                      (length (time_history s) < length (time_history s1) ->
                       clock_recorded s1)).
  assert (Hstep : forall s1 s2, P s1 -> loop_step unit_exp mt mc s1 = Continue s2 -> P s2).
  { intros s1 s2 [Hi _] Hl. split; [by eapply loop_step_order|].
    intros _. by eapply loop_step_recorded. }
  assert (Hbreak : forall s1 s2, P s1 -> loop_step unit_exp mt mc s1 = Break s2 -> P s2).
  { intros s1 s2 [Hi Hr] Hl. split; [by eapply loop_step_Break_order|].
    intros Hlen. eapply loop_step_Break_recorded; [|exact Hl]. apply Hr.
    by apply loop_step_Break in Hl as [[_ ->]|(e & q & _ & -> & _)]. }
  assert (Hfirst : forall s1, schedule_first_arrival unit_exp s = Ok s1 -> P s1).
  { intros s1 H1. split; [by apply schedule_first_arrival_order|].
    apply schedule_first_arrival_Ok in H1 as (q & _ & ->). simpl. lia. }
  assert (Hs : P s').
  { destruct Hrun as [Hrun|Hrun].
    - apply run_Running in Hrun as (s1 & H1 & Hloop).
      apply (run_loop_Running P mt mc Hstep n s1 s'); auto.
    - apply run_Returned in Hrun as (s1 & H1 & Hloop).
      apply (run_loop_Returned P P mt mc Hstep Hbreak n s1 s'); auto. }
  destruct Hs as [(_ & _ & Hheap' & processed & Hth & Hnd & Hbefore & Hclock) Hrec].
  exists processed. split_and!; try done.
  intros Hne. apply Hrec. rewrite Hth, length_app.
  destruct processed; [done|]. simpl. lia.
Qed.

(** * Runs without a bound, and repeated runs *)

Lemma run_loop_history n mt mc s s' :
  run_loop unit_exp n mt mc s = Running s' ->
  length (time_history s') = length (time_history s) + n.
Proof.
  revert s. induction n as [|n IH]; intros s; simpl.
  - intros [= <-]. lia.
  - destruct (loop_step unit_exp mt mc s) as [s1|s1|] eqn:Hl; try discriminate.
    intros Hrun. rewrite (IH _ Hrun).
    apply loop_step_statistics in Hl as (e & q & _ & _ & _ & _ & _ & -> & _).
    rewrite length_app. simpl. lia.
Qed.

Lemma loop_step_zero_customers s :
  loop_step unit_exp None (Some 0%Z) s = loop_step unit_exp None None s.
Proof. reflexivity. Qed.

Lemma run_loop_zero_customers n s :
  run_loop unit_exp n None (Some 0%Z) s = run_loop unit_exp n None None s.
Proof.
  revert s. induction n as [|n IH]; intros s; simpl; [done|].
  rewrite loop_step_zero_customers.
  by destruct (loop_step unit_exp None None s).
Qed.

(** With no bound in force the loop is never left while an arrival is
    pending. *)
Lemma loop_step_no_bound s s' :
  0 < pending_arrivals s -> loop_step unit_exp None None s <> Break s'.
Proof.
  intros Hp H. apply loop_step_Break in H as [[Hq _]|(e & q & _ & _ & [H|H])];
    try discriminate.
  unfold pending_arrivals in Hp. rewrite Hq in Hp. simpl in Hp. lia.
Qed.

(** C1, as the code has it: with both bounds absent, or with
    [max_customers = 0] and no [max_time], [run] raises no error of its own:
    zero counts as no bound, so the two calls behave alike, the first
    arrival is scheduled and events are processed, one per pass of the loop;
    such a call never returns: after any number of passes it is still in
    the loop, unless an exception of a scheduling or handling step has left
    it. *)
Theorem run_without_bound_never_returns n mc s :
  mc = None \/ mc = Some 0%Z ->
  run unit_exp n None mc s = run unit_exp n None None s /\
  (forall s', run unit_exp n None mc s <> Returned s') /\
  (forall s', run unit_exp n None mc s = Running s' ->
     length (time_history s') = length (time_history s) + n).
Proof.
  intros Hmc.
  assert (Heq : run unit_exp n None mc s = run unit_exp n None None s).
  { destruct Hmc as [->| ->]; [done|]. unfold run.
    destruct (schedule_first_arrival unit_exp s); [|done].
    apply run_loop_zero_customers. }
  rewrite Heq. split_and!; [done| |].
  - intros s' Hrun. apply run_Returned in Hrun as (s1 & H1 & Hloop).
    apply schedule_first_arrival_arrivals in H1.
    revert Hloop.
    apply (run_loop_Returned (fun s => 0 < pending_arrivals s) (fun _ => False));
      [| |lia].
    + intros s2 s3 H2 Hl. by rewrite (loop_step_arrivals _ _ _ _ Hl).
    + intros s2 s3 H2 Hl. by apply loop_step_no_bound in Hl.
  - intros s' Hrun. apply run_Running in Hrun as (s1 & H1 & Hloop).
    rewrite (run_loop_history _ _ _ _ _ Hloop).
    by apply schedule_first_arrival_Ok in H1 as (q & _ & ->).
Qed.

(** Every call of [run] adds one pending arrival to those it finds, and
    keeps that number while it processes events; when it leaves the loop
    the event it popped last is dropped, so one arrival less may be left. *)
Lemma run_arrivals n mt mc s s' :
  (run unit_exp n mt mc s = Running s' ->
     pending_arrivals s' = S (pending_arrivals s)) /\
  (run unit_exp n mt mc s = Returned s' ->
     pending_arrivals s' = S (pending_arrivals s)
     \/ pending_arrivals s' = pending_arrivals s).
Proof.
  split; intros Hrun.
  - apply run_Running in Hrun as (s1 & H1 & Hloop).
    apply schedule_first_arrival_arrivals in H1. rewrite <- H1. revert Hloop.
    apply (run_loop_Running (fun s => pending_arrivals s = pending_arrivals s1));
      [|done].
    intros s2 s3 H2 Hl. by rewrite (loop_step_arrivals _ _ _ _ Hl).
  - apply run_Returned in Hrun as (s1 & H1 & Hloop).
    apply schedule_first_arrival_arrivals in H1. revert Hloop.
    apply (run_loop_Returned (fun s2 => pending_arrivals s2 = S (pending_arrivals s))
             (fun s2 => pending_arrivals s2 = S (pending_arrivals s)
                        \/ pending_arrivals s2 = pending_arrivals s));
      [| |done].
    + intros s2 s3 H2 Hl. by rewrite (loop_step_arrivals _ _ _ _ Hl).
    + intros s2 s3 H2 Hl. apply loop_step_Break_arrivals in Hl. lia.
Qed.

(** C10, as the code has it: every call of [run] schedules a fresh first
    arrival without looking at the events a previous call left, so at the
    loop head of a second call on the same object one more arrival is
    pending than the first call left; the first call drops the event it
    popped when it stopped, so it leaves one pending arrival or none, and
    the second call has two arrival chains or one. *)
Theorem second_run_adds_an_arrival c lam mu s0 n1 mt1 mc1 s1 n2 mt2 mc2 s2 :
  init c lam mu = Ok s0 ->
  run unit_exp n1 mt1 mc1 s0 = Returned s1 ->
  run unit_exp n2 mt2 mc2 s1 = Running s2 ->
  pending_arrivals s2 = S (pending_arrivals s1) /\
  (pending_arrivals s1 = 0 \/ pending_arrivals s1 = 1).
Proof.
  intros Hinit H1 H2. split; [by apply (run_arrivals n2 mt2 mc2 s1 s2)|].
  apply init_Ok in Hinit as (_ & _ & _ & _ & Hq & _).
  apply (run_arrivals n1 mt1 mc1 s0 s1) in H1.
  unfold pending_arrivals at 2 4 in H1. rewrite Hq in H1. simpl in H1. lia.
Qed.

End EngineFacts.

(** * Concrete runs *)

(** One server, arrivals every time unit, services of 9/2 time units: the
    fourth event finds two customers waiting since time 3. *)
Lemma statistics_use_pre_event_state_witness :
  exists s0 s s',
    init 1 1 (2 # 9) = Ok s0 /\
    run (constant_draws 1) 3 None None s0 = Running s /\
    loop_step (constant_draws 1) None None s = Continue s' /\
    len (waiting_queue s) = 2%Z /\
    last_event_time s' = 4%Q /\
    queue_length_sum s' = (1 + inject_Z 2 * (4 - 3))%Q /\
    max_queue_length s' = 2%Z.
Proof.
  eexists _, _, _. split; [reflexivity|]. split; [vm_compute; reflexivity|].
  match goal with
  | |- loop_step ?u ?mt ?mc ?s = Continue ?s' /\ _ =>
      assert (Hstep : loop_step u mt mc s = Continue s') by (vm_compute; reflexivity);
      destruct (statistics_use_pre_event_state u mt mc s _ Hstep)
        as (event & q & Hpop & _ & Hlast & Hsum & Hmax & _)
  end.
  split; [exact Hstep|]. split; [reflexivity|].
  assert (event = (4%Q, "arrival",
                   {| id := 3; arrival_time := 4; service_start_time := None;
                      departure_time := None |})) as ->.
  { vm_compute in Hpop. by injection Hpop as <- _. }
  split; [exact Hlast|]. split; [exact Hsum | exact Hmax].
Defined.

Lemma constant_draws_nonneg : forall n, (0 <= constant_draws 1 n)%Q.
Proof. intros n. unfold constant_draws. lra. Qed.

Lemma busy_servers_in_range_witness :
  exists s0 s,
    init 1 1 (2 # 9) = Ok s0 /\
    run (constant_draws 1) 4 None None s0 = Running s /\
    (0 <= busy_servers s <= num_servers s)%Z /\
    num_servers s = 1%Z /\ busy_servers s = 1%Z /\ len (waiting_queue s) = 3%Z.
Proof.
  eexists _, _. split; [reflexivity|].
  match goal with
  | |- run ?u ?n ?mt ?mc ?s0 = Running ?s /\ _ =>
      assert (Hrun : run u n mt mc s0 = Running s) by (vm_compute; reflexivity);
      destruct (busy_servers_in_range u s0 n mt mc s
                  (init_servers_inv 1 1 (2 # 9) s0 eq_refl ltac:(lia))
                  (or_introl Hrun)) as (Hrange & Hn & _)
  end.
  split; [exact Hrun|]. split; [exact Hrange|]. split; [exact Hn|].
  split; reflexivity.
Defined.

Lemma one_arrival_pending_witness :
  exists s0 s,
    init 2 1 (1 # 2) = Ok s0 /\
    run (constant_draws 1) 3 None None s0 = Running s /\
    pending_arrivals s = 1 /\ pending_departures s = 2.
Proof.
  eexists _, _. split; [reflexivity|].
  match goal with
  | |- run ?u ?n ?mt ?mc ?s0 = Running ?s /\ _ =>
      assert (Hrun : run u n mt mc s0 = Running s) by (vm_compute; reflexivity);
      destruct (one_arrival_pending u 2 1 (1 # 2) s0 n mt mc s eq_refl Hrun)
        as (Hone & _)
  end.
  split; [exact Hrun|]. split; [exact Hone | reflexivity].
Defined.

(** A second call on the same object: the first call has stopped at time 5,
    the second one processes events at times 1 and 2. *)
Lemma current_time_nondecreasing_witness :
  exists s0 s1 s2,
    init 1 1 (2 # 9) = Ok s0 /\
    run (constant_draws 1) 10 (Some (52 # 10)) None s0 = Returned s1 /\
    run (constant_draws 1) 2 None None s1 = Running s2 /\
    time_history s1 = [1; 2; 3; 4; 5]%Q /\
    time_history s2 = [1; 2; 3; 4; 5; 1; 2]%Q /\
    nondecreasing (time_history s1) /\
    exists processed,
      time_history s2 = time_history s1 ++ processed /\ nondecreasing processed.
Proof.
  eexists _, _, _. split; [reflexivity|].
  match goal with
  | |- run ?u ?n1 ?mt1 ?mc1 ?s0 = Returned ?s1 /\ run _ ?n2 ?mt2 ?mc2 _ = Running ?s2 /\ _ =>
      assert (H1 : run u n1 mt1 mc1 s0 = Returned s1) by (vm_compute; reflexivity);
      assert (H2 : run u n2 mt2 mc2 s1 = Running s2) by (vm_compute; reflexivity);
      destruct (current_time_nondecreasing u constant_draws_nonneg s0 n1 mt1 mc1 s1)
        as (p1 & Hth1 & Hnd1 & _ & _ & _ & Hheap1);
        [reflexivity | reflexivity | (intros i Hi x p Hx; by destruct i)
        | right; exact H1 |];
      destruct (current_time_nondecreasing u constant_draws_nonneg s1 n2 mt2 mc2 s2)
        as (p2 & Hth2 & Hnd2 & _);
        [reflexivity | reflexivity | exact Hheap1 | left; exact H2 |]
  end.
  split; [exact H1|]. split; [exact H2|]. split; [reflexivity|]. split; [reflexivity|].
  split; [|exists p2; split; [exact Hth2 | exact Hnd2]].
  rewrite Hth1. exact Hnd1.
Defined.

(** C1, counterexample: on a fresh one-server object, [run] with both bounds
    absent, and [run] with [max_customers = 0] and no [max_time], raise
    nothing and process the first arrival. *)
Lemma run_without_bound_processes_events :
  exists s0 s,
    init 1 1 2 = Ok s0 /\
    run (constant_draws 1) 1 None None s0 = Running s /\
    run (constant_draws 1) 1 None (Some 0%Z) s0 = Running s /\
    customers_arrived s = 1%Z /\ time_history s = [1%Q] /\
    ~ fails (init 1 1 2) /\
    forall e, run (constant_draws 1) 1 None None s0 <> Raised e.
Proof.
  eexists _, _. split; [reflexivity|].
  split; [vm_compute; reflexivity|]. split; [vm_compute; reflexivity|].
  split; [reflexivity|]. split; [reflexivity|].
  split; [intros [e He]; discriminate|]. intros e He. vm_compute in He. discriminate.
Qed.

Lemma run_without_bound_never_returns_witness :
  exists s0,
    init 1 1 2 = Ok s0 /\
    run (constant_draws 1) 3 None (Some 0%Z) s0
      = run (constant_draws 1) 3 None None s0 /\
    forall s', run (constant_draws 1) 3 None (Some 0%Z) s0 <> Returned s'.
Proof.
  eexists. split; [reflexivity|].
  match goal with
  | |- run ?u ?n _ ?mc ?s0 = _ /\ _ =>
      destruct (run_without_bound_never_returns u n mc s0 (or_intror eq_refl))
        as (Heq & Hnever & _)
  end.
  split; [exact Heq | exact Hnever].
Defined.

(** C10, counterexample: the first call stops on its own first arrival,
    which lies past [max_time], and drops it; the second call then finds an
    empty queue, and at its loop head one arrival is pending, not two. *)
Lemma second_run_with_one_arrival_chain :
  exists s0 s1 s2,
    init 1 1 (2 # 9) = Ok s0 /\
    run (constant_draws 1) 1 (Some (1 # 2)) None s0 = Returned s1 /\
    run (constant_draws 1) 0 (Some 100%Q) None s1 = Running s2 /\
    event_queue s1 = [] /\
    pending_arrivals s2 = 1 /\ length (event_queue s2) = 1.
Proof.
  eexists _, _, _. split; [reflexivity|].
  split; [vm_compute; reflexivity|]. split; [vm_compute; reflexivity|].
  split; [reflexivity|]. split; reflexivity.
Qed.

(** The first call stops on a departure, which it drops: the arrival it
    left and the fresh one are both pending in the second call. *)
Lemma second_run_adds_an_arrival_witness :
  exists s0 s1 s2,
    init 1 1 (2 # 9) = Ok s0 /\
    run (constant_draws 1) 10 (Some (52 # 10)) None s0 = Returned s1 /\
    run (constant_draws 1) 2 None None s1 = Running s2 /\
    pending_arrivals s1 = 1 /\ pending_arrivals s2 = 2.
Proof.
  eexists _, _, _. split; [reflexivity|].
  match goal with
  | |- run ?u ?n1 ?mt1 ?mc1 ?s0 = Returned ?s1 /\ run _ ?n2 ?mt2 ?mc2 _ = Running ?s2 /\ _ =>
      assert (H1 : run u n1 mt1 mc1 s0 = Returned s1) by (vm_compute; reflexivity);
      assert (H2 : run u n2 mt2 mc2 s1 = Running s2) by (vm_compute; reflexivity);
      destruct (second_run_adds_an_arrival u 1 1 (2 # 9) s0 n1 mt1 mc1 s1
                  n2 mt2 mc2 s2 eq_refl H1 H2) as (Hadd & _)
  end.
  split; [exact H1|]. split; [exact H2|]. split; [reflexivity | exact Hadd].
Defined.

(** * Construction *)

Lemma zero_rate_raises u n mt mc s :
  Qeq_bool (arrival_rate s) 0 = true ->
  run u n mt mc s = Raised ZeroDivisionError.
Proof.
  intros H. unfold run, schedule_first_arrival, generate_interarrival_time,
    expovariate, pydiv. simpl. by rewrite H.
Qed.

(** C4, as the code has it: construction never fails and validates nothing;
    whatever the server count and the rates, it returns an object that
    stores them as given, with an empty event queue and no draw made.  A
    zero arrival rate surfaces only in [run], as the ZeroDivisionError of the
    first draw. *)
Theorem init_accepts_any_configuration c lam mu :
  exists s,
    init c lam mu = Ok s /\
    num_servers s = c /\ arrival_rate s = lam /\ service_rate s = mu /\
    event_queue s = [] /\ rng_index s = 0 /\
    (Qeq_bool lam 0 = true ->
     forall u n mt mc, run u n mt mc s = Raised ZeroDivisionError).
Proof.
  eexists. split; [reflexivity|]. simpl. split_and!; try reflexivity.
  intros H u n mt mc. by apply zero_rate_raises.
Qed.

Lemma init_accepts_any_configuration_witness :
  exists s,
    init 1 0 1 = Ok s /\
    run (constant_draws 1) 5 (Some 10%Q) None s = Raised ZeroDivisionError.
Proof.
  destruct (init_accepts_any_configuration 1 0 1) as (s & Hs & _ & _ & _ & _ & _ & Hz).
  exists s. split; [exact Hs|]. apply Hz. reflexivity.
Defined.

(** C4, counterexample: a zero server count with zero rates, and a negative
    server count with negative rates, are both accepted and stored. *)
Lemma init_accepts_nonpositive_configuration :
  ~ fails (init 0 0 0) /\ ~ fails (init (-1) (-1) (-1)) /\
  exists s, init (-1) (-1) 0 = Ok s /\
            num_servers s = (-1)%Z /\ arrival_rate s = (-1)%Q /\ service_rate s = 0%Q.
Proof.
  split; [intros [e He]; discriminate|]. split; [intros [e He]; discriminate|].
  eexists. split; [reflexivity|]. done.
Qed.

(** * The statistics snapshot *)

(** C6, what the code does where it departs from the claim: while no
    customer has departed, the snapshot has zero averages and zero
    utilization, but it has no entry for the current simulated time, and its
    maximum queue length is the literal zero. *)
Theorem get_statistics_before_first_departure s :
  customers_served s = 0%Z ->
  exists d,
    get_statistics s = Ok d /\
    dict_get d "current_time" = None /\
    dict_get d "customers_arrived" = Some (VInt (customers_arrived s)) /\
    dict_get d "customers_served" = Some (VInt 0) /\
    dict_get d "avg_waiting_time" = Some (VInt 0) /\
    dict_get d "avg_system_time" = Some (VInt 0) /\
    dict_get d "avg_queue_length" = Some (VInt 0) /\
    dict_get d "max_queue_length" = Some (VInt 0) /\
    dict_get d "server_utilization" = Some (VInt 0) /\
    dict_get d "current_queue_length" = Some (VInt (len (waiting_queue s))) /\
    dict_get d "busy_servers" = Some (VInt (busy_servers s)).
Proof.
  intros H. unfold get_statistics. rewrite H. simpl.
  eexists. split; [reflexivity|]. split_and!; reflexivity.
Qed.

Lemma get_statistics_before_first_departure_witness :
  exists s0 d,
    init 1 1 (3 # 2) = Ok s0 /\
    get_statistics s0 = Ok d /\
    dict_get d "current_time" = None.
Proof.
  eexists _. 
  destruct (get_statistics_before_first_departure
              (mkSim 1 1 (3 # 2) 0 [] [] 0 0 0 0 0 0 0 0 0 [] [] [] 0) eq_refl)
    as (d & Hd & Hnone & _).
  exists d. split; [reflexivity|]. split; [exact Hd | exact Hnone].
Defined.

(** The sibling branch, after a departure, does report the clock. *)
Lemma get_statistics_after_departure s d :
  customers_served s <> 0%Z -> get_statistics s = Ok d ->
  dict_get d "current_time" = Some (VFloat (current_time s)) /\
  dict_get d "max_queue_length" = Some (VInt (max_queue_length s)).
Proof.
  intros H. unfold get_statistics. apply Z.eqb_neq in H. rewrite H.
  intros Hd. repeat (apply bind_Ok in Hd as (? & _ & Hd)).
  by injection Hd as <-.
Qed.

(** * The theoretical statistics *)

#[local] Arguments float_of_int _ : simpl never.
#[local] Arguments pypow _ _ : simpl never.
#[local] Arguments factorial _ : simpl never.
#[local] Arguments overflows _ : simpl never.

Lemma pydiv_nonzero x y : ~ (y == 0)%Q -> pydiv x y = Ok (x / y)%Q.
Proof.
  intros H. unfold pydiv. destruct (Qeq_bool y 0) eqn:E; [|done].
  by apply Qeq_bool_iff in E.
Qed.

Lemma pydiv_pos x y : (0 < y)%Q -> pydiv x y = Ok (x / y)%Q.
Proof. intros H. apply pydiv_nonzero. intros E. rewrite E in H. by apply Qlt_irrefl in H. Qed.

Lemma pydiv_zero x y : (y == 0)%Q -> pydiv x y = Raise ZeroDivisionError.
Proof. intros E. unfold pydiv. by rewrite (proj2 (Qeq_bool_iff y 0) E). Qed.

Lemma inject_Z_pos c : (0 < c)%Z -> (0 < inject_Z c)%Q.
Proof. intros H. replace 0%Q with (inject_Z 0) by done. by rewrite <- Zlt_Qlt. Qed.

Lemma Qdiv_lt_1 a b : (0 < b)%Q -> (a / b < 1)%Q -> (a < b)%Q.
Proof.
  intros Hb H. apply (Qmult_lt_compat_r _ _ b Hb) in H.
  rewrite Qmult_1_l in H. unfold Qdiv in H.
  rewrite <- Qmult_assoc, (Qmult_comm (/ b)), Qmult_inv_r, Qmult_1_r in H; [done|].
  intros E. rewrite E in Hb. by apply Qlt_irrefl in Hb.
Qed.

Lemma Qle_bool_false a b : (b < a)%Q -> Qle_bool a b = false.
Proof.
  intros H. destruct (Qle_bool a b) eqn:E; [|done].
  apply Qle_bool_iff in E. by apply Qle_not_lt in E.
Qed.

Lemma stable_denominator c mu : (1 <= c)%Z -> (0 < mu)%Q -> (0 < inject_Z c * mu)%Q.
Proof.
  intros Hc Hmu. apply Qmult_lt_0_compat; [|done].
  replace 0%Q with (inject_Z 0) by done. rewrite <- Zlt_Qlt. lia.
Qed.

(** ** The float range *)

Lemma overflows_false x : (Qabs x < float_limit)%Q -> overflows x = false.
Proof. intros H. unfold overflows. by apply Qle_bool_false. Qed.

Lemma overflows_true x : (float_limit <= Qabs x)%Q -> overflows x = true.
Proof. intros H. unfold overflows. by apply Qle_bool_iff. Qed.

Lemma float_of_int_Ok n :
  (Z.abs n < int_limit)%Z -> float_of_int n = Ok (inject_Z n).
Proof.
  intros H. unfold float_of_int. rewrite overflows_false; [done|].
  change (Qabs (inject_Z n)) with (inject_Z (Z.abs n)).
  unfold float_limit. by rewrite <- Zlt_Qlt.
Qed.

Lemma float_of_int_Raise n :
  (int_limit <= Z.abs n)%Z -> float_of_int n = Raise OverflowError.
Proof.
  intros H. unfold float_of_int. rewrite overflows_true; [done|].
  change (Qabs (inject_Z n)) with (inject_Z (Z.abs n)).
  unfold float_limit. by rewrite <- Zle_Qle.
Qed.

Lemma float_of_int_cases n :
  float_of_int n = Ok (inject_Z n) \/ float_of_int n = Raise OverflowError.
Proof. unfold float_of_int. destruct (overflows _); auto. Qed.

Lemma pypow_Ok x n :
  (0 <= n)%Z -> (Qabs (x ^ n) < float_limit)%Q -> pypow x n = Ok (x ^ n)%Q.
Proof.
  intros Hn H. unfold pypow. rewrite (proj2 (Z.ltb_ge n 0) Hn). cbn [andb].
  by rewrite overflows_false.
Qed.

Lemma pypow_cases x n :
  (0 <= n)%Z -> pypow x n = Ok (x ^ n)%Q \/ pypow x n = Raise OverflowError.
Proof.
  intros Hn. unfold pypow. rewrite (proj2 (Z.ltb_ge n 0) Hn). cbn [andb].
  destruct (overflows _); auto.
Qed.

Lemma small_in_range : (143 < int_limit)%Z /\ (2 ^ 53 < int_limit)%Z /\ (1000 < int_limit)%Z.
Proof. by vm_compute. Qed.

(** Factorials: [170!] is the last one a float holds. *)
Lemma Zfact_fact n : Zfact n = Z.of_nat (fact n).
Proof.
  induction n as [|n IH]; [done|].
  change (Zfact (S n)) with (Z.of_nat (S n) * Zfact n)%Z.
  change (fact (S n)) with (S n * fact n)%nat.
  by rewrite Nat2Z.inj_mul, IH.
Qed.

Lemma fact_in_range n : n <= 170 -> (Z.abs (Z.of_nat (fact n)) < int_limit)%Z.
Proof.
  intros H. rewrite Z.abs_eq by apply Nat2Z.is_nonneg.
  apply Z.le_lt_trans with (Z.of_nat (fact 170)).
  - apply (proj1 (Nat2Z.inj_le _ _)). by apply fact_le.
  - rewrite <- Zfact_fact. by vm_compute.
Qed.

Lemma fact_overflows n : 171 <= n -> (int_limit <= Z.abs (Z.of_nat (fact n)))%Z.
Proof.
  intros H. rewrite Z.abs_eq by apply Nat2Z.is_nonneg.
  apply Z.le_trans with (Z.of_nat (fact 171)).
  - rewrite <- Zfact_fact. by vm_compute.
  - apply (proj1 (Nat2Z.inj_le _ _)). by apply fact_le.
Qed.

Lemma factorial_of_nat k : factorial (Z.of_nat k) = Ok (Z.of_nat (fact k)).
Proof.
  unfold factorial. rewrite (proj2 (Z.ltb_ge (Z.of_nat k) 0)) by lia.
  by rewrite Nat2Z.id.
Qed.

Lemma factorial_nonneg c :
  (0 <= c)%Z -> factorial c = Ok (Z.of_nat (fact (Z.to_nat c))).
Proof. intros H. unfold factorial. by rewrite (proj2 (Z.ltb_ge c 0) H). Qed.

Lemma fact_pos_Q k : (0 < inject_Z (Z.of_nat (fact k)))%Q.
Proof.
  replace 0%Q with (inject_Z 0) by done. rewrite <- Zlt_Qlt.
  pose proof (lt_O_fact k). lia.
Qed.

(** Powers that stay in the float range. *)
Lemma Qpower_S x k : (x ^ Z.of_nat (S k) == x * x ^ Z.of_nat k)%Q.
Proof.
  rewrite Nat2Z.inj_succ. unfold Z.succ. rewrite Z.add_comm.
  rewrite Qpower_plus' by lia. reflexivity.
Qed.

Lemma Qpower_le_base a b k :
  (0 <= a)%Q -> (a <= b)%Q -> (a ^ Z.of_nat k <= b ^ Z.of_nat k)%Q.
Proof.
  intros Ha Hab. induction k as [|k IH]; [apply Qle_refl|].
  rewrite !Qpower_S. apply Qmult_le_compat_nonneg; split; try done.
  by apply Qpower_0_le.
Qed.

Lemma power_in_range x n :
  (0 <= x)%Q -> (x <= 143)%Q -> (0 <= n <= 143)%Z ->
  (Qabs (x ^ n) < float_limit)%Q.
Proof.
  intros H0 Hx Hn. rewrite Qabs_pos by by apply Qpower_0_le.
  apply Qle_lt_trans with (inject_Z 143 ^ 143)%Q.
  - apply Qle_trans with (inject_Z 143 ^ n)%Q.
    + rewrite <- (Z2Nat.id n) by lia. by apply Qpower_le_base.
    + apply Qpower_le_compat_l; [lia|]. by vm_compute.
  - rewrite <- Zpower_Qpower by lia. unfold float_limit. rewrite <- Zlt_Qlt.
    by vm_compute.
Qed.

Lemma small_base_in_range x n :
  (0 <= x)%Q -> (x <= 1)%Q -> (0 <= n)%Z -> (Qabs (x ^ n) < float_limit)%Q.
Proof.
  intros H0 Hx Hn. rewrite Qabs_pos by by apply Qpower_0_le.
  apply Qle_lt_trans with 1%Q; [|by vm_compute].
  rewrite <- (Qpower_1 n). rewrite <- (Z2Nat.id n) by lia. by apply Qpower_le_base.
Qed.

Lemma moderate_pos x : moderate x -> (0 < x)%Q.
Proof.
  intros [H _]. apply Qlt_le_trans with (/ inject_Z (2 ^ 100))%Q; [by vm_compute|done].
Qed.

Lemma moderate_square x : moderate x -> (Qabs (x ^ 2) < float_limit)%Q.
Proof.
  intros Hx. pose proof (moderate_pos x Hx) as H0. destruct Hx as [_ Hx].
  apply Qlt_le_weak in H0.
  rewrite Qabs_pos by by apply Qpower_0_le.
  apply Qle_lt_trans with (inject_Z (2 ^ 100) ^ 2)%Q.
  - by apply (Qpower_le_base x (inject_Z (2 ^ 100)) 2).
  - rewrite <- Zpower_Qpower by lia. unfold float_limit. rewrite <- Zlt_Qlt.
    by vm_compute.
Qed.

Lemma clearly_stable_lt rho : clearly_stable rho -> (rho < 1)%Q.
Proof.
  intros H. apply Qle_lt_trans with (1 - / inject_Z (2 ^ 40))%Q; [done|by vm_compute].
Qed.

(** ** The generator sum *)

Lemma sum_terms_app c rho l1 l2 acc :
  sum_terms c rho (l1 ++ l2) acc =
  bind (sum_terms c rho l1 acc) (fun a => sum_terms c rho l2 a).
Proof.
  revert acc. induction l1 as [|n l1 IH]; intros acc; simpl; [done|].
  destruct (float_of_int c); simpl; [|done].
  destruct (pypow _ n); simpl; [|done].
  destruct (factorial n); simpl; [|done].
  destruct (float_of_int _); simpl; [|done].
  destruct (pydiv _ _); simpl; [|done].
  apply IH.
Qed.

(** While its powers and factorials stay in the float range, the generator
    sum of the code is the partial sum of the closed form. *)
Lemma sum_terms_range c rho k :
  (Z.abs c < int_limit)%Z -> k <= 171 ->
  (forall n, n < k -> (Qabs ((inject_Z c * rho) ^ Z.of_nat n) < float_limit)%Q) ->
  sum_terms c rho (range (Z.of_nat k)) 0
  = Ok (Theory.partial_exp (inject_Z c * rho) k).
Proof.
  intros Hc. unfold range. rewrite Nat2Z.id.
  induction k as [|k IH]; intros Hk Hpow; [done|].
  rewrite seq_S, map_app, sum_terms_app, IH; [|lia|intros n Hn; apply Hpow; lia].
  simpl. rewrite (float_of_int_Ok c Hc). simpl.
  rewrite pypow_Ok; [|lia|apply Hpow; lia]. simpl.
  rewrite factorial_of_nat. simpl.
  rewrite float_of_int_Ok by (apply fact_in_range; lia). simpl.
  rewrite pydiv_pos by apply fact_pos_Q. done.
Qed.

Lemma sum_terms_range_Z c' rho c :
  (Z.abs c' < int_limit)%Z -> (0 <= c <= 171)%Z ->
  (forall n, (0 <= n < c)%Z -> (Qabs ((inject_Z c' * rho) ^ n) < float_limit)%Q) ->
  sum_terms c' rho (range c) 0
  = Ok (Theory.partial_exp (inject_Z c' * rho) (Z.to_nat c)).
Proof.
  intros Hc' Hc Hpow. rewrite <- sum_terms_range; [by rewrite Z2Nat.id by lia|done|lia|].
  intros n Hn. apply Hpow. lia.
Qed.

Lemma range_nonneg c : Forall (fun n => (0 <= n)%Z) (range c).
Proof.
  unfold range. apply List.Forall_forall. intros n Hn.
  apply List.in_map_iff in Hn as (k & <- & _). lia.
Qed.

(** The generator sum raises nothing but OverflowError. *)
Lemma sum_terms_cases c rho ns acc :
  Forall (fun n => (0 <= n)%Z) ns ->
  (exists v, sum_terms c rho ns acc = Ok v)
  \/ sum_terms c rho ns acc = Raise OverflowError.
Proof.
  revert acc. induction ns as [|n ns IH]; intros acc Hns; [left; by eexists|].
  inversion Hns as [|? ? Hn Hrest]; subst.
  cbn [sum_terms].
  destruct (float_of_int_cases c) as [-> | ->]; [|by right]. cbn [bind].
  destruct (pypow_cases (inject_Z c * rho) n Hn) as [-> | ->]; [|by right]. cbn [bind].
  rewrite (factorial_nonneg n Hn). cbn [bind].
  destruct (float_of_int_cases (Z.of_nat (fact (Z.to_nat n)))) as [-> | ->];
    [|by right].
  cbn [bind]. rewrite pydiv_pos by apply fact_pos_Q. cbn [bind].
  by apply IH.
Qed.

Lemma partial_exp_nonneg a k : (0 <= a)%Q -> (0 <= Theory.partial_exp a k)%Q.
Proof.
  intros Ha. induction k as [|k IH]; simpl; [apply Qle_refl|].
  rewrite <- (Qplus_0_r 0). apply Qplus_le_compat; [done|].
  apply Qle_shift_div_l; [apply fact_pos_Q|]. rewrite Qmult_0_l.
  by apply Qpower_0_le.
Qed.

Lemma partial_exp_pos a k : (0 <= a)%Q -> 0 < k -> (0 < Theory.partial_exp a k)%Q.
Proof.
  intros Ha Hk. apply Qlt_le_trans with 1%Q; [reflexivity|].
  destruct k as [|k]; [lia|]. clear Hk. induction k as [|k IH].
  - simpl. unfold Qle. simpl. lia.
  - change (Theory.partial_exp a (S (S k)))
      with (Theory.partial_exp a (S k)
            + a ^ Z.of_nat (S k) / inject_Z (Z.of_nat (fact (S k))))%Q.
    rewrite <- (Qplus_0_r 1). apply Qplus_le_compat; [done|].
    apply Qle_shift_div_l; [apply fact_pos_Q|]. rewrite Qmult_0_l.
    by apply Qpower_0_le.
Qed.

(** ** The branches *)


(** The result of the one-server branch. *)
Lemma theoretical_mm1 s :
  num_servers s = 1%Z -> (0 < service_rate s)%Q ->
  (arrival_rate s < service_rate s)%Q ->
  (Qabs (arrival_rate s ^ 2) < float_limit)%Q ->
  get_theoretical_statistics s
  = Ok [ ("utilization", VFloat (arrival_rate s / (inject_Z 1 * service_rate s)));
         ("avg_customers_in_system",
          VFloat (arrival_rate s / (service_rate s - arrival_rate s)));
         ("avg_customers_in_queue",
          VFloat (arrival_rate s ^ 2
                  / (service_rate s * (service_rate s - arrival_rate s))));
         ("avg_time_in_system", VFloat (1 / (service_rate s - arrival_rate s)));
         ("avg_time_in_queue",
          VFloat (arrival_rate s
                  / (service_rate s * (service_rate s - arrival_rate s)))) ].
Proof.
  intros Hone Hmu Hlt Hsq. unfold get_theoretical_statistics. rewrite Hone.
  rewrite float_of_int_Ok by (by vm_compute). cbn [bind].
  assert (Hden : (0 < inject_Z 1 * service_rate s)%Q) by by rewrite Qmult_1_l.
  rewrite (pydiv_pos _ _ Hden). cbn [bind].
  rewrite Qle_bool_false.
  2:{ apply Qlt_shift_div_r; [done|]. by rewrite !Qmult_1_l. }
  assert (Hgap : (0 < service_rate s - arrival_rate s)%Q).
  { unfold Qminus. by rewrite <- Qlt_minus_iff. }
  assert (Hprod : (0 < service_rate s * (service_rate s - arrival_rate s))%Q)
    by by apply Qmult_lt_0_compat.
  change (1 =? 1)%Z with true. cbv iota.
  rewrite !(pydiv_pos _ _ Hgap). cbn [bind].
  rewrite pypow_Ok; [|lia|done]. cbn [bind].
  rewrite !(pydiv_pos _ _ Hprod). reflexivity.
Qed.

(** The evaluation of the branch for several servers up to the division by
    the arrival rate, while the powers and factorials stay in the float
    range: its last steps divide [Lq] by [lambda] and one by [mu]. *)
Lemma theoretical_mmc_steps s :
  let c := num_servers s in
  let lam := arrival_rate s in
  let mu := service_rate s in
  let rho := (lam / (inject_Z c * mu))%Q in
  let tail := ((inject_Z c * rho) ^ c
               / (inject_Z (Z.of_nat (fact (Z.to_nat c))) * (1 - rho)))%Q in
  let P0 := (1 / (Theory.partial_exp (inject_Z c * rho) (Z.to_nat c) + tail))%Q in
  let Lq := (tail * P0 * rho / (1 - rho))%Q in
  (1 < c <= 170)%Z -> (0 <= lam)%Q -> (0 < mu)%Q -> (rho < 1)%Q ->
  (forall n, (0 <= n <= c)%Z -> (Qabs ((inject_Z c * rho) ^ n) < float_limit)%Q) ->
  get_theoretical_statistics s
  = (let! Wq := pydiv Lq lam in
     let! mu_inv := pydiv 1 mu in
     Ok [ ("utilization", VFloat rho);
          ("avg_customers_in_system", VFloat (lam * (Wq + mu_inv)));
          ("avg_customers_in_queue", VFloat Lq);
          ("avg_time_in_system", VFloat (Wq + mu_inv));
          ("avg_time_in_queue", VFloat Wq) ]) /\
  (0 <= rho)%Q /\ (0 <= tail)%Q /\ (0 < P0)%Q /\ (0 <= Lq)%Q.
Proof.
  intros c lam mu rho tail P0 Lq Hc Hlam Hmu Hlt Hpow.
  assert (Hcl : (Z.abs c < int_limit)%Z).
  { apply Z.le_lt_trans with 170%Z; [lia|by vm_compute]. }
  assert (Hden : (0 < inject_Z c * mu)%Q)
    by (apply Qmult_lt_0_compat; [apply inject_Z_pos; lia | done]).
  assert (Hrho : (0 <= rho)%Q).
  { apply Qle_shift_div_l; [done|]. by rewrite Qmult_0_l. }
  assert (Hone : (0 < 1 - rho)%Q) by (unfold Qminus; by rewrite <- Qlt_minus_iff).
  assert (Ha : (0 <= inject_Z c * rho)%Q).
  { apply Qmult_le_0_compat; [|done]. apply Qlt_le_weak, inject_Z_pos. lia. }
  assert (Hf : (0 < inject_Z (Z.of_nat (fact (Z.to_nat c))) * (1 - rho))%Q)
    by (apply Qmult_lt_0_compat; [apply fact_pos_Q | done]).
  assert (Htail : (0 <= tail)%Q).
  { apply Qle_shift_div_l; [done|]. rewrite Qmult_0_l. by apply Qpower_0_le. }
  assert (Hsum : (0 < Theory.partial_exp (inject_Z c * rho) (Z.to_nat c) + tail)%Q).
  { apply Qlt_le_trans
      with (Theory.partial_exp (inject_Z c * rho) (Z.to_nat c) + 0)%Q.
    - rewrite Qplus_0_r. apply partial_exp_pos; [done|lia].
    - apply Qplus_le_compat; [apply Qle_refl|done]. }
  assert (HP0 : (0 < P0)%Q).
  { apply Qlt_shift_div_l; [done|]. by rewrite Qmult_0_l. }
  assert (HLq : (0 <= Lq)%Q).
  { apply Qle_shift_div_l; [done|]. rewrite Qmult_0_l.
    apply Qmult_le_0_compat; [|done].
    apply Qmult_le_0_compat; [done|by apply Qlt_le_weak]. }
  split_and!; try done.
  unfold get_theoretical_statistics. fold c lam mu.
  rewrite (float_of_int_Ok c Hcl). cbn [bind].
  rewrite (pydiv_pos _ _ Hden). cbn [bind]. fold rho.
  rewrite (Qle_bool_false 1 rho Hlt).
  rewrite (proj2 (Z.eqb_neq c 1)) by lia.
  rewrite sum_terms_range_Z; [|done|lia|intros n Hn; apply Hpow; lia]. cbn [bind].
  rewrite pypow_Ok; [|lia|apply Hpow; lia]. cbn [bind].
  rewrite factorial_nonneg by lia. cbn [bind].
  rewrite float_of_int_Ok by (apply fact_in_range; lia). cbn [bind].
  rewrite (pydiv_pos _ _ Hf). cbn [bind]. fold tail.
  rewrite (pydiv_pos _ _ Hsum). cbn [bind]. fold P0.
  rewrite (pydiv_pos _ _ Hone). cbn [bind]. fold Lq.
  destruct (pydiv Lq lam) as [Wq|e]; cbn [bind]; [|done].
  by destruct (pydiv 1 mu).
Qed.

(** With at most 143 servers and a utilization below one, the powers of
    [c * rho] stay in the float range. *)
Lemma stable_powers_in_range c lam mu n :
  (1 <= c <= 143)%Z -> (0 <= lam)%Q -> (0 < mu)%Q ->
  (lam / (inject_Z c * mu) < 1)%Q -> (0 <= n <= c)%Z ->
  (Qabs ((inject_Z c * (lam / (inject_Z c * mu))) ^ n) < float_limit)%Q.
Proof.
  intros Hc Hlam Hmu Hlt Hn.
  assert (Hcq : (0 < inject_Z c)%Q) by (apply inject_Z_pos; lia).
  assert (Hden : (0 < inject_Z c * mu)%Q) by by apply Qmult_lt_0_compat.
  assert (Hrho : (0 <= lam / (inject_Z c * mu))%Q).
  { apply Qle_shift_div_l; [done|]. by rewrite Qmult_0_l. }
  apply power_in_range; [| |lia].
  - apply Qmult_le_0_compat; [by apply Qlt_le_weak|done].
  - apply Qle_trans with (inject_Z c * 1)%Q.
    + apply Qmult_le_compat_nonneg; split;
        [by apply Qlt_le_weak | apply Qle_refl | done | by apply Qlt_le_weak].
    + rewrite Qmult_1_r. change 143%Q with (inject_Z 143). rewrite <- Zle_Qle. lia.
Qed.

(** From 171 servers on, a float does not hold the factorial of the server
    count: whatever the rates, a stable configuration raises
    OverflowError. *)
Lemma theoretical_overflow s :
  (171 <= num_servers s)%Z -> (0 < service_rate s)%Q ->
  (arrival_rate s / (inject_Z (num_servers s) * service_rate s) < 1)%Q ->
  get_theoretical_statistics s = Raise OverflowError.
Proof.
  intros Hc Hmu Hlt. unfold get_theoretical_statistics.
  destruct (float_of_int_cases (num_servers s)) as [E|E]; rewrite E; [|done].
  cbn [bind].
  rewrite pydiv_pos by (apply stable_denominator; [lia|done]). cbn [bind].
  rewrite (Qle_bool_false _ _ Hlt).
  rewrite (proj2 (Z.eqb_neq (num_servers s) 1)) by lia.
  destruct (sum_terms_cases (num_servers s)
              (arrival_rate s / (inject_Z (num_servers s) * service_rate s))
              (range (num_servers s)) 0 (range_nonneg _)) as [[v Hv]|Hv];
    rewrite Hv; [|done].
  cbn [bind].
  destruct (pypow_cases
              (inject_Z (num_servers s)
               * (arrival_rate s / (inject_Z (num_servers s) * service_rate s)))
              (num_servers s)) as [Hp|Hp]; [lia| |]; rewrite Hp; [|done].
  cbn [bind]. rewrite factorial_nonneg by lia. cbn [bind].
  rewrite float_of_int_Raise; [done|]. apply fact_overflows. lia.
Qed.




(** * Heap operations that cannot raise *)

Section HeapProgress.
Context {A : Type} (lt : A -> A -> result bool).
Implicit Types heap : list A.

Lemma elem_of_insert_inv heap i x y : y ∈ <[i := x]> heap -> y = x \/ y ∈ heap.
Proof.
  intros Hy. apply list_elem_of_lookup in Hy as [j Hj].
  apply list_lookup_insert_Some in Hj as [(_ & <- & _)|[_ Hj]]; [by left|].
  right. by eapply list_elem_of_lookup_2.
Qed.

Lemma siftdown_loop_total fuel heap startpos pos newitem :
  pos < length heap ->
  (forall y, y ∈ heap -> exists r, lt newitem y = Ok r) ->
  exists h, heapq.siftdown_loop lt fuel heap startpos pos newitem = Ok h.
Proof.
  revert heap pos. induction fuel as [|fuel IH]; intros heap pos Hpos Hcmp; simpl;
    [eauto|].
  destruct (decide (startpos < pos)) as [Hlt|_]; [|eauto].
  destruct (lookup_lt_is_Some_2 heap ((pos - 1) / 2)) as [parent Hp]; [lia|].
  rewrite Hp. assert (Hin : parent ∈ heap) by by eapply list_elem_of_lookup_2.
  destruct (Hcmp parent Hin) as [[|] ->]; simpl; [|eauto].
  apply IH; [rewrite length_insert; lia|].
  intros y Hy. apply elem_of_insert_inv in Hy as [->|Hy]; auto.
Qed.

Lemma _siftdown_total heap startpos pos :
  pos < length heap -> comparable lt heap ->
  exists h, heapq._siftdown lt heap startpos pos = Ok h.
Proof.
  intros Hpos Hcmp. unfold heapq._siftdown.
  destruct (lookup_lt_is_Some_2 heap pos Hpos) as [newitem Hn]. rewrite Hn.
  apply siftdown_loop_total; [done|].
  intros y Hy. apply Hcmp; [by eapply list_elem_of_lookup_2 | done].
Qed.

Lemma smaller_child_total heap childpos :
  childpos < length heap -> comparable lt heap ->
  exists c, heapq.smaller_child lt heap (length heap) childpos = Ok c.
Proof.
  intros Hc Hcmp. unfold heapq.smaller_child.
  destruct (decide (childpos + 1 < length heap)) as [Hr|_]; [|eauto].
  destruct (lookup_lt_is_Some_2 heap childpos Hc) as [l Hl].
  destruct (lookup_lt_is_Some_2 heap (childpos + 1) Hr) as [r Hrr].
  rewrite Hl, Hrr.
  destruct (Hcmp l r) as [b ->]; [by eapply list_elem_of_lookup_2..|]. simpl. eauto.
Qed.

Lemma siftup_loop_total fuel heap pos :
  pos < length heap -> comparable lt heap ->
  exists h leaf,
    heapq.siftup_loop lt fuel heap (length heap) pos = Ok (h, leaf) /\
    forall y, y ∈ h -> y ∈ heap.
Proof.
  revert heap pos. induction fuel as [|fuel IH]; intros heap pos Hpos Hcmp; simpl;
    [eauto|].
  destruct (decide (2 * pos + 1 < length heap)) as [Hlt|_]; [|eauto].
  destruct (smaller_child_total heap (2 * pos + 1) Hlt Hcmp) as [c Hc].
  rewrite Hc. simpl.
  apply smaller_child_lookup in Hc as [_ Hclt]; [|done..].
  destruct (lookup_lt_is_Some_2 heap c Hclt) as [x Hx]. rewrite Hx.
  assert (Hsub : forall y, y ∈ <[pos := x]> heap -> y ∈ heap).
  { intros y Hy. apply elem_of_insert_inv in Hy as [->|Hy]; [|done].
    by eapply list_elem_of_lookup_2. }
  destruct (IH (<[pos := x]> heap) c) as (h & leaf & Hloop & Hh).
  - rewrite length_insert. lia.
  - intros a b Ha Hb. apply Hcmp; auto.
  - rewrite length_insert in Hloop. rewrite Hloop. exists h, leaf. split; [done|].
    intros y Hy. by apply Hsub, Hh.
Qed.

Lemma _siftup_total heap pos :
  pos < length heap -> comparable lt heap ->
  exists h, heapq._siftup lt heap pos = Ok h.
Proof.
  intros Hpos Hcmp. unfold heapq._siftup.
  destruct (lookup_lt_is_Some_2 heap pos Hpos) as [newitem Hn]. rewrite Hn.
  destruct (siftup_loop_total (length heap) heap pos Hpos Hcmp)
    as (h & leaf & Hloop & Hh).
  rewrite Hloop. simpl.
  apply siftup_loop_perm in Hloop as (Hlen & Hleaf & _); [|done..].
  apply _siftdown_total; [rewrite length_insert; lia|].
  assert (Hnew : newitem ∈ heap) by by eapply list_elem_of_lookup_2.
  intros a b Ha Hb.
  apply elem_of_insert_inv in Ha as [->|Ha], Hb as [->|Hb]; apply Hcmp; auto.
Qed.

Theorem heappush_total heap item :
  comparable lt (item :: heap) -> exists h, heapq.heappush lt heap item = Ok h.
Proof.
  intros Hcmp. unfold heapq.heappush. apply _siftdown_total.
  - rewrite length_app. simpl. lia.
  - intros a b Ha Hb. apply Hcmp; rewrite elem_of_cons;
      [apply elem_of_app in Ha as [?|Ha%list_elem_of_singleton]
      |apply elem_of_app in Hb as [?|Hb%list_elem_of_singleton]]; auto.
Qed.

Theorem heappop_total heap :
  heap <> [] -> comparable lt heap -> exists r, heapq.heappop lt heap = Ok r.
Proof.
  intros Hne Hcmp. unfold heapq.heappop.
  destruct (lookup_lt_is_Some_2 heap (length heap - 1)) as [lastelt Hl].
  { destruct heap; [done|]. simpl. lia. }
  rewrite Hl. pose proof (last_split heap lastelt Hl) as Hsplit.
  destruct (take (length heap - 1) heap) as [|r t]; [eauto|].
  destruct (_siftup_total (<[0 := lastelt]> (r :: t)) 0) as [h Hh].
  - simpl. lia.
  - intros a b Ha Hb. apply Hcmp; rewrite Hsplit; simpl in *;
      rewrite elem_of_cons, elem_of_app, list_elem_of_singleton.
    + apply elem_of_cons in Ha as [->|Ha]; auto.
    + apply elem_of_cons in Hb as [->|Hb]; auto.
  - rewrite Hh. simpl. eauto.
Qed.
End HeapProgress.

(** * The order in which events leave the queue *)

Lemma string_leb_iff a b :
  (a <=? b)%string = true <-> String_as_OT.lt a b \/ a = b.
Proof.
  unfold String.leb.
  pose proof (String_as_OT.cmp_lt a b) as Hlt.
  pose proof (String_as_OT.cmp_eq a b) as Heq.
  unfold String_as_OT.cmp in *.
  destruct (String.compare a b); split; try done.
  - intros _. right. by apply Heq.
  - intros _. left. by apply Hlt.
  - intros [H|H]; [by apply Hlt in H | by apply Heq in H].
Qed.

Lemma string_leb_refl a : (a <=? a)%string = true.
Proof. apply string_leb_iff. by right. Qed.

Lemma string_leb_trans a b c :
  (a <=? b)%string = true -> (b <=? c)%string = true -> (a <=? c)%string = true.
Proof.
  rewrite !string_leb_iff. intros [H1| ->] [H2| ->]; auto.
  left. by apply String_as_OT.lt_trans with b.
Qed.

Lemma string_ltb_leb a b : (a <? b)%string = true -> (a <=? b)%string = true.
Proof. unfold String.ltb, String.leb. by destruct (String.compare a b). Qed.

Lemma string_ltb_false a b : (a <? b)%string = false -> (b <=? a)%string = true.
Proof.
  unfold String.ltb, String.leb. rewrite (String.compare_antisym b a).
  by destruct (String.compare a b).
Qed.

Lemma le_key_refl a : le_key a a.
Proof. right. split; [reflexivity | apply string_leb_refl]. Qed.

Lemma le_key_trans a b c : le_key a b -> le_key b c -> le_key a c.
Proof.
  intros [H1|[H1 K1]] [H2|[H2 K2]].
  - left. by apply Qlt_trans with (ev_time b).
  - left. by rewrite <- H2.
  - left. by rewrite H1.
  - right. split; [by rewrite H1 | by apply string_leb_trans with (ev_type b)].
Qed.

Lemma tuple_lt_true_key a b : tuple_lt a b = Ok true -> le_key a b.
Proof.
  unfold tuple_lt, le_key.
  destruct (Qeq_bool (ev_time a) (ev_time b)) eqn:Ht; simpl.
  - apply Qeq_bool_iff in Ht.
    destruct (ev_type a =? ev_type b)%string eqn:Hk; simpl.
    + destruct (Customer_eqb (ev_data a) (ev_data b)); simpl; discriminate.
    + intros [= H]. right. split; [done | by apply string_ltb_leb].
  - intros [= H]. left. by apply Qltb_true.
Qed.

Lemma tuple_lt_false_key a b : tuple_lt a b = Ok false -> le_key b a.
Proof.
  unfold tuple_lt, le_key.
  destruct (Qeq_bool (ev_time a) (ev_time b)) eqn:Ht; simpl.
  - apply Qeq_bool_iff in Ht. intros H. right. split; [by symmetry|].
    destruct (ev_type a =? ev_type b)%string eqn:Hk; simpl in H.
    + apply String.eqb_eq in Hk as ->. apply string_leb_refl.
    + injection H as H. by apply string_ltb_false.
  - intros [= H]. left. apply Qltb_false in H.
    destruct (Qle_lt_or_eq _ _ H) as [Hlt|Heq]; [done|].
    symmetry in Heq. apply Qeq_bool_iff in Heq. congruence.
Qed.

Lemma tuple_lt_no_tie a b : tie a b = false -> exists r, tuple_lt a b = Ok r.
Proof.
  unfold tie, tuple_lt.
  destruct (Qeq_bool (ev_time a) (ev_time b)); simpl; [|eauto].
  destruct (ev_type a =? ev_type b)%string; simpl; [|eauto].
  destruct (Customer_eqb (ev_data a) (ev_data b)); simpl; [eauto|discriminate].
Qed.

Lemma tuple_lt_tie a b : tie a b = true -> tuple_lt a b = Raise TypeError.
Proof.
  unfold tie, tuple_lt.
  destruct (Qeq_bool (ev_time a) (ev_time b)); simpl; [|discriminate].
  destruct (ev_type a =? ev_type b)%string; simpl; [|discriminate].
  by destruct (Customer_eqb (ev_data a) (ev_data b)).
Qed.

Lemma no_ties_comparable es : no_ties es -> comparable tuple_lt es.
Proof. intros H a b Ha Hb. apply tuple_lt_no_tie. by apply H. Qed.

Lemma no_ties_perm es es' : es ≡ₚ es' -> no_ties es -> no_ties es'.
Proof. intros Hp H a b Ha Hb. apply H; by rewrite Hp. Qed.

Lemma no_ties_cons e es : no_ties (e :: es) -> no_ties es.
Proof. intros H a b Ha Hb. apply H; by right. Qed.

Lemma heappush_key q e q' :
  heap_ok le_key q -> heapq.heappush tuple_lt q e = Ok q' -> heap_ok le_key q'.
Proof.
  apply heappush_ok; auto using le_key_refl, tuple_lt_true_key, tuple_lt_false_key.
  apply le_key_trans.
Qed.

Lemma heappop_key q e q' :
  heap_ok le_key q -> heapq.heappop tuple_lt q = Ok (e, q') ->
  heap_ok le_key q' /\ forall y, y ∈ q' -> le_key e y.
Proof.
  apply heappop_ok; auto using le_key_refl, tuple_lt_true_key, tuple_lt_false_key.
  apply le_key_trans.
Qed.

Lemma push_all_ok es q :
  heap_ok le_key q -> no_ties (q ++ es) ->
  exists q', push_all q es = Ok q' /\ q' ≡ₚ q ++ es /\ heap_ok le_key q'.
Proof.
  revert q. induction es as [|e es IH]; intros q Hheap Hties; simpl.
  - exists q. by rewrite app_nil_r.
  - destruct (heappush_total tuple_lt q e) as [q1 Hpush].
    { apply no_ties_comparable. intros a b Ha Hb.
      apply Hties; rewrite elem_of_app, elem_of_cons;
        [apply elem_of_cons in Ha as [->|Ha]|apply elem_of_cons in Hb as [->|Hb]];
        auto. }
    rewrite Hpush. simpl.
    pose proof (heappush_perm _ _ _ _ Hpush) as Hperm.
    destruct (IH q1) as (q' & Hq' & Hp' & Hheap').
    + by eapply heappush_key.
    + eapply no_ties_perm; [|exact Hties].
      rewrite Hperm. simpl. by rewrite Permutation_middle.
    + exists q'. split_and!; [done| |done].
      rewrite Hp', Hperm. simpl. by rewrite Permutation_middle.
Qed.

Lemma pop_all_ok n q :
  length q <= n -> heap_ok le_key q -> no_ties q ->
  exists out, pop_all n q = Ok out /\ out ≡ₚ q /\ StronglySorted le_key out.
Proof.
  revert q. induction n as [|n IH]; intros q Hlen Hheap Hties.
  - destruct q; [|simpl in Hlen; lia]. exists []. split_and!; [done..|constructor].
  - destruct q as [|e0 q0] eqn:Hq; [exists []; split_and!; [done..|constructor]|].
    rewrite <- Hq in *. 
    destruct (heappop_total tuple_lt q) as [[e q'] Hpop];
      [by rewrite Hq | by apply no_ties_comparable|].
    pose proof (heappop_perm _ _ _ _ Hpop) as Hperm.
    destruct (heappop_key _ _ _ Hheap Hpop) as [Hheap' Hmin].
    destruct (IH q') as (out & Hout & Hp & Hsorted); [|done| |].
    + apply Permutation_length in Hperm. simpl in Hperm. lia.
    + apply no_ties_cons with e. by eapply no_ties_perm.
    + exists (e :: out). split_and!.
      * rewrite Hq at 1. simpl. rewrite <- Hq, Hpop. simpl. by rewrite Hout.
      * by rewrite Hp, Hperm.
      * constructor; [done|]. apply Forall_forall. intros y Hy.
        apply Hmin. by rewrite <- Hp.
Qed.

(** C5, as the code has it: events leave the queue ordered by time, and
    events of equal time by their type, ['arrival'] before ['departure'],
    whatever the order of insertion; scheduling and popping any events no
    two of which tie (same time, same type, different customers) raises
    nothing and yields them in that order. *)
Theorem events_leave_in_time_then_type_order es :
  no_ties es ->
  exists q out,
    push_all [] es = Ok q /\ pop_all (length es) q = Ok out /\
    out ≡ₚ es /\ StronglySorted le_key out.
Proof.
  intros Hties.
  destruct (push_all_ok es []) as (q & Hq & Hperm & Hheap); [|done|].
  { intros i Hi x p Hx. by destruct i. }
  simpl in Hperm.
  destruct (pop_all_ok (length es) q) as (out & Hout & Hp & Hsorted); [|done| |].
  - by rewrite Hperm.
  - eapply no_ties_perm; [|exact Hties]. done.
  - exists q, out. split_and!; try done. by rewrite Hp.
Qed.

(** A departure and an arrival at time 1, inserted in this order, and an
    earlier departure inserted last: the earlier departure leaves first and
    the arrival leaves before the departure of the same time. *)
Lemma events_leave_in_time_then_type_order_witness :
  let c0 := mkCustomer 0 0 (Some 0%Q) None in
  let c1 := mkCustomer 1 1 None None in
  let c2 := mkCustomer 2 0 (Some 0%Q) None in
  let es := [(1%Q, "departure", c0); (1%Q, "arrival", c1); (1 # 2, "departure", c2)] in
  exists q,
    push_all [] es = Ok q /\
    pop_all 3 q
    = Ok [(1 # 2, "departure", c2); (1%Q, "arrival", c1); (1%Q, "departure", c0)] /\
    StronglySorted le_key
      [(1 # 2, "departure", c2); (1%Q, "arrival", c1); (1%Q, "departure", c0)].
Proof.
  intros c0 c1 c2 es.
  assert (Hties : no_ties es).
  { intros a b Ha Hb. unfold es in Ha, Hb.
    repeat (apply elem_of_cons in Ha as [->|Ha]);
      try (by apply elem_of_nil in Ha);
      repeat (apply elem_of_cons in Hb as [->|Hb]);
      try (by apply elem_of_nil in Hb); reflexivity. }
  destruct (events_leave_in_time_then_type_order es Hties)
    as (q & out & Hq & Hout & _ & Hsorted).
  vm_compute in Hq. injection Hq as <-.
  vm_compute in Hout. injection Hout as <-.
  eexists. split; [vm_compute; reflexivity|].
  split; [vm_compute; reflexivity | exact Hsorted].
Defined.

(** C5, counterexample: of a departure and an arrival scheduled for the
    same time, in this order, the arrival leaves first, against the order of
    insertion; and scheduling a second arrival for the time of a pending one
    raises TypeError. *)
Lemma equal_times_not_in_insertion_order :
  let c0 := mkCustomer 0 1 None None in
  let c1 := mkCustomer 1 1 None None in
  (exists q,
     push_all [] [(1%Q, "departure", c0); (1%Q, "arrival", c1)] = Ok q /\
     heapq.heappop tuple_lt q
     = Ok ((1%Q, "arrival", c1), [(1%Q, "departure", c0)])) /\
  heapq.heappush tuple_lt [(1%Q, "arrival", c0)] (1%Q, "arrival", c1)
  = Raise TypeError.
Proof.
  intros c0 c1. split; [|vm_compute; reflexivity].
  eexists. split; vm_compute; reflexivity.
Qed.

(** Two servers, arrivals at 1 and 2, services of 2 and 1: both departures
    fall on time 3, and scheduling the second one raises inside [run]. *)
Lemma run_raises_on_simultaneous_departures :
  exists s0,
    init 2 1 1 = Ok s0 /\
    run (listed_draws [1; 2; 1; 1]%Q 1) 2 (Some 10%Q) None s0 = Raised TypeError.
Proof. eexists. split; [reflexivity | vm_compute; reflexivity]. Qed.

(** While no customer has departed the snapshot shows a maximum queue
    length of zero, also when customers have been waiting. *)
Lemma get_statistics_hides_max_queue_length :
  exists s0 s d,
    init 1 1 (2 # 9) = Ok s0 /\
    run (constant_draws 1) 4 None None s0 = Running s /\
    customers_served s = 0%Z /\ max_queue_length s = 2%Z /\
    get_statistics s = Ok d /\
    dict_get d "max_queue_length" = Some (VInt 0) /\
    dict_get d "current_time" = None.
Proof.
  eexists _, _, _. split; [reflexivity|]. split; [vm_compute; reflexivity|].
  split; [reflexivity|]. split; [reflexivity|]. split; [reflexivity|].
  split; reflexivity.
Qed.

(** * More about the engine: the customers in the system *)

(** Inversion of a successful call, as in the first part. *)
Ltac inv_calls :=
  repeat match goal with
  | H : bind _ _ = Ok _ |- _ =>
      let a := fresh "a" in let Ha := fresh "Hcall" in
      apply bind_Ok in H as (a & Ha & H)
  | H : generate_service_time _ _ = Ok _ |- _ => unfold generate_service_time in H
  | H : generate_interarrival_time _ _ = Ok _ |- _ =>
      unfold generate_interarrival_time in H
  | H : expovariate _ _ _ = Ok (_, _) |- _ => apply expovariate_Ok in H as (? & ? & ?)
  | H : schedule_event _ _ _ _ = Ok _ |- _ => apply schedule_event_Ok in H as (? & ? & ?)
  | H : add_opt _ _ = Ok _ |- _ => unfold add_opt in H
  | H : (let '(_, _) := ?p in _) = Ok _ |- _ => destruct p
  | H : (if ?b then _ else _) = Ok _ |- _ => destruct b eqn:?
  | H : match ?x with _ => _ end = Ok _ |- _ => destruct x eqn:?
  | H : Raise _ = Ok _ |- _ => discriminate H
  | H : Ok _ = Ok _ |- _ => injection H as H
  | H : ?x = _ |- _ => is_var x; subst x
  | H : _ = ?x |- _ => is_var x; subst x
  end.

Section EngineState.
Variable unit_exp : nat -> Q.

Lemma handle_arrival_effect s c s' :
  handle_arrival unit_exp s c = Ok s' ->
  customers_arrived s' = (customers_arrived s + 1)%Z /\
  customers_served s' = customers_served s /\
  next_customer_id s' = (next_customer_id s + 1)%Z /\
  total_waiting_time s' = total_waiting_time s /\
  total_system_time s' = total_system_time s /\
  customers_in_system_history s' = customers_in_system_history s /\
  ((busy_servers s < num_servers s)%Z /\
   busy_servers s' = (busy_servers s + 1)%Z /\
   waiting_queue s' = waiting_queue s
   \/
   (num_servers s <= busy_servers s)%Z /\
   busy_servers s' = busy_servers s /\
   waiting_queue s' = waiting_queue s ++ [c]).
Proof.
  unfold handle_arrival. intros H. inv_calls; simpl in *.
  - split_and!; try done. left. split_and!; [lia|done..].
  - split_and!; try done. right. split_and!; [lia|done..].
Qed.

Lemma handle_departure_effect s c s' :
  handle_departure unit_exp s c = Ok s' ->
  customers_arrived s' = customers_arrived s /\
  customers_served s' = (customers_served s + 1)%Z /\
  next_customer_id s' = next_customer_id s /\
  customers_in_system_history s' = customers_in_system_history s /\
  ((exists c', waiting_queue s = c' :: waiting_queue s') /\
   busy_servers s' = busy_servers s
   \/
   waiting_queue s = [] /\ waiting_queue s' = [] /\
   busy_servers s' = (busy_servers s - 1)%Z).
Proof.
  unfold handle_departure. intros H. inv_calls; simpl in *.
  - split_and!; try done. right. done.
  - split_and!; try done. left. split; [|done]. eexists. eassumption.
Qed.

(** The handler of a processed event is called on the state of [at_event],
    which has the counters, the waiting line and the servers of the state
    before the event. *)
Lemma loop_step_handler mt mc s s' :
  loop_step unit_exp mt mc s = Continue s' ->
  exists t k c q,
    heapq.heappop tuple_lt (event_queue s) = Ok ((t, k, c), q) /\
    past_max_time mt t = false /\
    enough_customers mc s = false /\
    (k = "arrival" /\ handle_arrival unit_exp (at_event (set_event_queue s q) t) c = Ok s'
     \/ k = "departure"
        /\ handle_departure unit_exp (at_event (set_event_queue s q) t) c = Ok s'
     \/ k <> "arrival" /\ k <> "departure" /\ s' = at_event (set_event_queue s q) t).
Proof.
  intros H. apply loop_step_Continue in H as ([[t k] c] & q & Hpop & Ht & Hc & Hev).
  exists t, k, c, q. split_and!; try done. by apply process_event_cases.
Qed.

Lemma loop_step_Break_state mt mc s s' :
  loop_step unit_exp mt mc s = Break s' ->
  exists q, s' = set_event_queue s q /\ forall e, e ∈ q -> e ∈ event_queue s.
Proof.
  intros H. apply loop_step_Break in H as [[_ ->]|(e & q & Hpop & -> & _)].
  - exists (event_queue s). split; [by destruct s|done].
  - exists q. split; [done|]. intros e' He'.
    rewrite (heappop_perm _ _ _ _ Hpop). by right.
Qed.

Lemma loop_step_balance mt mc s s' :
  customers_balance s -> loop_step unit_exp mt mc s = Continue s' ->
  customers_balance s'.
Proof.
  unfold customers_balance, len. intros Hb H.
  apply loop_step_handler in H as (t & k & c & q & _ & _ & _ & Hcase).
  destruct Hcase as [[_ Hh]|[[_ Hh]|(_ & _ & ->)]]; [| |done].
  - apply handle_arrival_effect in Hh
      as (-> & -> & _ & _ & _ & _ & [(_ & -> & ->)|(_ & -> & ->)]); simpl in *.
    + lia.
    + rewrite length_app. simpl. lia.
  - apply handle_departure_effect in Hh
      as (-> & -> & _ & _ & [([c' Hw] & ->)|(Hw & -> & ->)]); simpl in *.
    + rewrite Hw in Hb. simpl in Hb. lia.
    + rewrite Hw in Hb. simpl in *. lia.
Qed.

Lemma schedule_first_arrival_state s s' :
  schedule_first_arrival unit_exp s = Ok s' ->
  customers_arrived s' = customers_arrived s /\
  customers_served s' = customers_served s /\
  waiting_queue s' = waiting_queue s /\ busy_servers s' = busy_servers s /\
  num_servers s' = num_servers s /\ time_history s' = time_history s /\
  queue_length_history s' = queue_length_history s /\
  customers_in_system_history s' = customers_in_system_history s /\
  next_customer_id s' = (next_customer_id s + 1)%Z.
Proof. intros H. by apply schedule_first_arrival_Ok in H as (q & _ & ->). Qed.

(** Reaching a state by [run]: an invariant of the loop that the first
    arrival establishes holds at every loop head and on return. *)
Lemma run_invariant (P : Sim -> Prop) n mt mc s s' :
  (forall s1, schedule_first_arrival unit_exp s = Ok s1 -> P s1) ->
  (forall s1 s2, P s1 -> loop_step unit_exp mt mc s1 = Continue s2 -> P s2) ->
  (forall s1 s2, P s1 -> loop_step unit_exp mt mc s1 = Break s2 -> P s2) ->
  run unit_exp n mt mc s = Running s' \/ run unit_exp n mt mc s = Returned s' ->
  P s'.
Proof.
  intros Hfirst Hstep Hbreak [Hrun|Hrun].
  - apply run_Running in Hrun as (s1 & H1 & Hloop).
    apply (run_loop_Running unit_exp P mt mc Hstep n s1 s'); auto.
  - apply run_Returned in Hrun as (s1 & H1 & Hloop).
    apply (run_loop_Returned unit_exp P P mt mc Hstep Hbreak n s1 s'); auto.
Qed.

(** X1: during and after a call of [run], every customer that has arrived
    has been served, is waiting, or occupies a server. *)
Theorem run_keeps_customers_balance s0 n mt mc s :
  customers_balance s0 ->
  run unit_exp n mt mc s0 = Running s \/ run unit_exp n mt mc s0 = Returned s ->
  customers_arrived s
  = (customers_served s + len (waiting_queue s) + busy_servers s)%Z.
Proof.
  intros H0. apply (run_invariant customers_balance).
  - intros s1 H1. unfold customers_balance in *.
    by apply schedule_first_arrival_state in H1 as (-> & -> & -> & -> & _).
  - intros s1 s2. apply loop_step_balance.
  - intros s1 s2 Hb Hl. apply loop_step_Break_state in Hl as (q & -> & _). done.
Qed.

Lemma loop_step_work_conserving mt mc s s' :
  servers_inv s -> work_conserving s ->
  loop_step unit_exp mt mc s = Continue s' -> work_conserving s'.
Proof.
  unfold work_conserving. intros Hinv Hw H.
  pose proof (loop_step_config unit_exp mt mc s s' (or_introl H)) as (Hn & _).
  apply loop_step_handler in H as (t & k & c & q & Hpop & _ & _ & Hcase).
  assert (Hle : (busy_servers s <= num_servers s)%Z) by (unfold servers_inv in Hinv; lia).
  rewrite Hn. destruct Hcase as [[_ Hh]|[[_ Hh]|(_ & _ & ->)]]; [| |done].
  - apply handle_arrival_effect in Hh
      as (_ & _ & _ & _ & _ & _ & [(Hlt & -> & ->)|(Hge & -> & ->)]); simpl in *.
    + intros Hne. apply Hw in Hne. lia.
    + intros _. lia.
  - apply handle_departure_effect in Hh
      as (_ & _ & _ & _ & [([c' Hq] & ->)|(_ & -> & _)]); simpl in *; [|done].
    intros _. apply Hw. by rewrite Hq.
Qed.

(** X2: the engine is work-conserving: during and after a call of [run],
    whenever a customer is waiting every server is busy. *)
Theorem run_is_work_conserving s0 n mt mc s :
  servers_inv s0 -> work_conserving s0 ->
  run unit_exp n mt mc s0 = Running s \/ run unit_exp n mt mc s0 = Returned s ->
  waiting_queue s <> [] -> busy_servers s = num_servers s.
Proof.
  intros Hinv H0 Hrun.
  apply (run_invariant (fun s => servers_inv s /\ work_conserving s)) in Hrun;
    [by destruct Hrun| | |].
  - intros s1 H1. split; [by eapply schedule_first_arrival_servers|].
    unfold work_conserving in *.
    by apply schedule_first_arrival_state in H1 as (_ & _ & -> & -> & -> & _).
  - intros s1 s2 [Hi Hw] Hl.
    split; [by eapply loop_step_servers | by eapply loop_step_work_conserving].
  - intros s1 s2 [Hi Hw] Hl. split; [by eapply loop_step_Break_servers|].
    by apply loop_step_Break_state in Hl as (q & -> & _).
Qed.

Lemma heappush_known q e q' :
  known_types q -> ev_type e = "arrival" \/ ev_type e = "departure" ->
  heapq.heappush tuple_lt q e = Ok q' -> known_types q'.
Proof.
  intros Hq He Hpush y Hy. rewrite (heappush_perm _ _ _ _ Hpush) in Hy.
  apply elem_of_cons in Hy as [->|Hy]; auto.
Qed.

Lemma handle_arrival_known s c s' :
  known_types (event_queue s) -> handle_arrival unit_exp s c = Ok s' ->
  known_types (event_queue s').
Proof.
  unfold handle_arrival. intros Hq H. inv_calls; simpl in *;
    repeat match goal with
    | H : heapq.heappush _ _ _ = Ok _ |- _ =>
        apply heappush_known in H; [|done|simpl; auto]
    end; done.
Qed.

Lemma handle_departure_known s c s' :
  known_types (event_queue s) -> handle_departure unit_exp s c = Ok s' ->
  known_types (event_queue s').
Proof.
  unfold handle_departure. intros Hq H. inv_calls; simpl in *;
    repeat match goal with
    | H : heapq.heappush _ _ _ = Ok _ |- _ =>
        apply heappush_known in H; [|done|simpl; auto]
    end; done.
Qed.

Lemma loop_step_history mt mc s s' :
  history_inv s -> loop_step unit_exp mt mc s = Continue s' -> history_inv s'.
Proof.
  intros (Hk & Hlen & Hq & Hc) H.
  pose proof (loop_step_statistics unit_exp _ _ _ _ H)
    as (e' & q' & Hpop' & _ & _ & _ & _ & Hth & Hqh).
  apply loop_step_handler in H as (t & k & c & q & Hpop & _ & _ & Hcase).
  rewrite Hpop in Hpop'. injection Hpop' as <- <-. simpl in Hth.
  assert (Hin : (t, k, c) ∈ event_queue s)
    by (rewrite (heappop_perm _ _ _ _ Hpop); by left).
  assert (Hkq : known_types q).
  { intros y Hy. apply Hk. rewrite (heappop_perm _ _ _ _ Hpop). by right. }
  unfold history_inv. rewrite Hth, Hqh, !length_app. simpl.
  destruct Hcase as [[_ Hh]|[[_ Hh]|(Ha & Hd & ->)]].
  - pose proof (handle_arrival_known (at_event (set_event_queue s q) t) c s' Hkq Hh)
      as Hk'.
    apply handle_arrival_effect in Hh as (-> & -> & _ & _ & _ & -> & _).
    simpl. rewrite length_app. simpl. split_and!; [done|lia..].
  - pose proof (handle_departure_known (at_event (set_event_queue s q) t) c s' Hkq Hh)
      as Hk'.
    apply handle_departure_effect in Hh as (-> & -> & _ & -> & _).
    simpl. rewrite length_app. simpl. split_and!; [done|lia..].
  - destruct (Hk _ Hin) as [E|E]; [by apply Ha in E | by apply Hd in E].
Qed.

(** X3: on a fresh object the three histories stay parallel: during and
    after [run] they have the same length, one entry for every arrival and
    every departure handled so far. *)
Theorem histories_are_parallel c lam mu s0 n mt mc s :
  init c lam mu = Ok s0 ->
  run unit_exp n mt mc s0 = Running s \/ run unit_exp n mt mc s0 = Returned s ->
  Z.of_nat (length (time_history s)) = (customers_arrived s + customers_served s)%Z /\
  length (queue_length_history s) = length (time_history s) /\
  length (customers_in_system_history s) = length (time_history s).
Proof.
  intros Hinit Hrun.
  apply (run_invariant history_inv) in Hrun; [by destruct Hrun as (_ & ?)| | |].
  - intros s1 H1. injection Hinit as <-.
    apply schedule_first_arrival_Ok in H1 as (q & Hq & ->).
    unfold history_inv. simpl. split_and!; try done.
    eapply heappush_known; [| |exact Hq]; [|simpl; auto].
    intros e He. by apply elem_of_nil in He.
  - intros s1 s2. apply loop_step_history.
  - intros s1 s2 (Hk & Hrest) Hl. apply loop_step_Break_state in Hl as (q & -> & Hsub).
    split; [|done]. intros e He. apply Hk. by apply Hsub.
Qed.

Lemma past_max_time_false m t :
  ~ (m == 0)%Q -> past_max_time (Some m) t = false -> (t <= m)%Q.
Proof.
  intros Hm. unfold past_max_time, truthy_float.
  destruct (Qeq_bool m 0) eqn:E; [by apply Qeq_bool_iff in E|]. simpl.
  apply Qltb_false.
Qed.

(** A processed event of a bounded call lies at or before the bound. *)
Lemma loop_step_processed_before m th0 mc s s' :
  ~ (m == 0)%Q -> processed_before m th0 s ->
  loop_step unit_exp (Some m) mc s = Continue s' ->
  processed_before m th0 s'.
Proof.
  intros Hm (processed & Hth & Hle) Hl.
  pose proof (loop_step_statistics unit_exp _ _ _ _ Hl)
    as (e' & q' & Hpop' & _ & _ & _ & _ & Hth' & _).
  apply loop_step_Continue in Hl as (e & q & Hpop & Hpast & _).
  rewrite Hpop in Hpop'. injection Hpop' as <- <-.
  exists (processed ++ [ev_time e]). split; [by rewrite Hth', Hth, app_assoc|].
  intros t Ht. apply elem_of_app in Ht as [Ht|Ht]; [by apply Hle|].
  apply list_elem_of_singleton in Ht as ->. by apply past_max_time_false.
Qed.

(** X4: a call of [run] with a [max_time] other than zero processes no
    event later than [max_time]: every time it adds to the history is at
    most [max_time]. *)
Theorem run_respects_max_time m s0 n mc s :
  ~ (m == 0)%Q ->
  run unit_exp n (Some m) mc s0 = Running s
  \/ run unit_exp n (Some m) mc s0 = Returned s ->
  exists processed,
    time_history s = time_history s0 ++ processed /\
    forall t, t ∈ processed -> (t <= m)%Q.
Proof.
  intros Hm. apply (run_invariant (processed_before m (time_history s0))).
  - intros s1 H1. apply schedule_first_arrival_state in H1 as (_ & _ & _ & _ & _ & Hth & _).
    exists []. rewrite Hth, app_nil_r. split; [done|].
    intros t Ht. by apply elem_of_nil in Ht.
  - intros s1 s2 Hp Hl. by apply (loop_step_processed_before m _ mc s1 s2).
  - intros s1 s2 Hp Hl. by apply loop_step_Break_state in Hl as (q & -> & _).
Qed.

Lemma enough_customers_false k s :
  (k <> 0)%Z -> enough_customers (Some k) s = false -> (customers_served s < k)%Z.
Proof.
  intros Hk. unfold enough_customers, truthy_int.
  rewrite (proj2 (Z.eqb_neq k 0) Hk). simpl. lia.
Qed.

(** X5: a call of [run] with a [max_customers] other than zero on an object
    that has served at most that many customers never serves more: during
    and after the call [customers_served] is at most [max_customers]. *)
Theorem run_respects_max_customers k s0 n mt s :
  (k <> 0)%Z -> (customers_served s0 <= k)%Z ->
  run unit_exp n mt (Some k) s0 = Running s
  \/ run unit_exp n mt (Some k) s0 = Returned s ->
  (customers_served s <= k)%Z.
Proof.
  intros Hk H0. apply (run_invariant (fun s => (customers_served s <= k)%Z)).
  - intros s1 H1. by apply schedule_first_arrival_state in H1 as (_ & -> & _).
  - intros s1 s2 H1 Hl.
    apply loop_step_handler in Hl as (t & kd & c & q & _ & _ & Hc & Hcase).
    apply enough_customers_false in Hc; [|done].
    destruct Hcase as [[_ Hh]|[[_ Hh]|(_ & _ & ->)]].
    + apply handle_arrival_effect in Hh as (_ & -> & _). simpl. lia.
    + apply handle_departure_effect in Hh as (_ & -> & _). simpl. lia.
    + simpl. lia.
  - intros s1 s2 H1 Hl. by apply loop_step_Break_state in Hl as (q & -> & _).
Qed.

Lemma weighted_length_snoc prev ts ls t l :
  length ls = length ts ->
  (weighted_length prev (ts ++ [t]) (ls ++ [l])
   == weighted_length prev ts ls + inject_Z l * (t - default prev (last ts)))%Q.
Proof.
  revert prev ls. induction ts as [|t0 ts IH]; intros prev [|l0 ls] Hlen;
    simpl in Hlen; try discriminate.
  - simpl. ring.
  - change (weighted_length prev ((t0 :: ts) ++ [t]) ((l0 :: ls) ++ [l]))
      with (inject_Z l0 * (t0 - prev) + weighted_length t0 (ts ++ [t]) (ls ++ [l]))%Q.
    rewrite IH by lia.
    change (weighted_length prev (t0 :: ts) (l0 :: ls))
      with (inject_Z l0 * (t0 - prev) + weighted_length t0 ts ls)%Q.
    replace (default prev (last (t0 :: ts))) with (default t0 (last ts)).
    + ring.
    + destruct ts as [|t1 ts]; [done|]. rewrite last_cons_cons.
      destruct (last (t1 :: ts)) eqn:E; [done|]. by apply last_None in E.
Qed.

Lemma max_length_snoc ls l : max_length (ls ++ [l]) = Z.max (max_length ls) l.
Proof.
  unfold max_length. induction ls as [|l0 ls IH]; simpl.
  - lia.
  - rewrite IH. lia.
Qed.

Lemma loop_step_integral mt mc s s' :
  integral_inv s -> loop_step unit_exp mt mc s = Continue s' -> integral_inv s'.
Proof.
  intros (Hlen & Hlast & Hsum & Hmax) H.
  apply loop_step_statistics in H
    as (e & q & _ & _ & Hl' & Hs' & Hm' & Hth & Hqh).
  unfold integral_inv. rewrite Hth, Hqh, Hl', Hs', Hm', last_snoc, !length_app.
  simpl. split_and!; [lia|done| |].
  - rewrite weighted_length_snoc by done. by rewrite Hsum, Hlast.
  - by rewrite max_length_snoc, Hmax.
Qed.

(** X8: on a fresh object, during and after [run], the accumulated
    queue-length integral is the sum, over the recorded events, of the
    recorded queue length times the time elapsed since the event before
    (since time zero for the first), and the maximum queue length is the
    largest recorded queue length. *)
Theorem queue_length_sum_is_integral c lam mu s0 n mt mc s :
  init c lam mu = Ok s0 ->
  run unit_exp n mt mc s0 = Running s \/ run unit_exp n mt mc s0 = Returned s ->
  (queue_length_sum s
   == weighted_length 0 (time_history s) (queue_length_history s))%Q /\
  max_queue_length s = max_length (queue_length_history s).
Proof.
  intros Hinit Hrun.
  apply (run_invariant integral_inv) in Hrun; [by destruct Hrun as (_ & _ & ? & ?)| | |].
  - intros s1 H1. injection Hinit as <-.
    apply schedule_first_arrival_Ok in H1 as (q & _ & ->).
    unfold integral_inv. simpl. split_and!; done.
  - intros s1 s2. apply loop_step_integral.
  - intros s1 s2 Hp Hl. by apply loop_step_Break_state in Hl as (q & -> & _).
Qed.

Lemma count_type_zero k q e : count_type k q = 0 -> e ∈ q -> ev_type e <> k.
Proof.
  induction q as [|e0 q IH]; simpl; intros Hc He; [by apply elem_of_nil in He|].
  apply elem_of_cons in He as [->|He].
  - intros E. rewrite E, String.eqb_refl in Hc. lia.
  - apply IH; [lia|done].
Qed.

Lemma increasing_ids_snoc l c :
  increasing_ids l -> (forall a, a ∈ l -> (id a < id c)%Z) ->
  increasing_ids (l ++ [c]).
Proof.
  intros Hl Hc i j a b Hij Ha Hb.
  apply lookup_snoc_Some in Hb as [[Hj Hb]|[Hj <-]].
  - rewrite lookup_app_l in Ha by lia. by apply (Hl i j).
  - rewrite lookup_app_l in Ha by lia. apply Hc. by eapply list_elem_of_lookup_2.
Qed.

Lemma increasing_ids_tail c l : increasing_ids (c :: l) -> increasing_ids l.
Proof. intros H i j a b Hij Ha Hb. apply (H (S i) (S j)); [lia|done..]. Qed.

Lemma heappush_arrival_ids (n : Z) q e q' :
  (forall y, y ∈ q -> ev_type y = "arrival" -> id (ev_data y) = n) ->
  (ev_type e = "arrival" -> id (ev_data e) = n) ->
  heapq.heappush tuple_lt q e = Ok q' ->
  forall y, y ∈ q' -> ev_type y = "arrival" -> id (ev_data y) = n.
Proof.
  intros Hq He Hpush y Hy. rewrite (heappush_perm _ _ _ _ Hpush) in Hy.
  apply elem_of_cons in Hy as [->|Hy]; auto.
Qed.

Lemma handle_arrival_ids s c s' :
  (forall y, y ∈ event_queue s -> ev_type y <> "arrival") ->
  handle_arrival unit_exp s c = Ok s' ->
  forall y, y ∈ event_queue s' -> ev_type y = "arrival" ->
            id (ev_data y) = next_customer_id s.
Proof.
  unfold handle_arrival. intros Hnone H. inv_calls; simpl in *.
  - eapply heappush_arrival_ids; [| |eassumption]; [|done].
    eapply heappush_arrival_ids; [| |eassumption]; [|simpl; discriminate].
    intros y Hy Ey. by apply Hnone in Hy.
  - eapply heappush_arrival_ids; [| |eassumption]; [|done].
    intros y Hy Ey. by apply Hnone in Hy.
Qed.

Lemma handle_departure_ids (n : Z) s c s' :
  (forall y, y ∈ event_queue s -> ev_type y = "arrival" -> id (ev_data y) = n) ->
  handle_departure unit_exp s c = Ok s' ->
  forall y, y ∈ event_queue s' -> ev_type y = "arrival" -> id (ev_data y) = n.
Proof.
  unfold handle_departure. intros Hq H. inv_calls; simpl in *; [done|].
  eapply heappush_arrival_ids; [| |eassumption]; [done|simpl; discriminate].
Qed.

Lemma loop_step_ids mt mc s s' :
  ids_inv s -> loop_step unit_exp mt mc s = Continue s' -> ids_inv s'.
Proof.
  intros (Hone & Hnext & Hpos & Harr & Hw & Hinc) H.
  pose proof (loop_step_arrivals unit_exp _ _ _ _ H) as Hcount.
  apply loop_step_handler in H as (t & k & c & q & Hpop & _ & _ & Hcase).
  assert (Hin : (t, k, c) ∈ event_queue s)
    by (rewrite (heappop_perm _ _ _ _ Hpop); by left).
  assert (Hsub : forall y, y ∈ q -> y ∈ event_queue s).
  { intros y Hy. rewrite (heappop_perm _ _ _ _ Hpop). by right. }
  pose proof (heappop_count "arrival" _ _ _ Hpop) as Hq.
  unfold ids_inv. rewrite Hcount. split; [done|].
  destruct Hcase as [[-> Hh]|[[-> Hh]|(_ & _ & ->)]].
  - assert (Hnone : forall y, y ∈ q -> ev_type y <> "arrival").
    { intros y Hy. apply (count_type_zero "arrival" q); [|done].
      unfold pending_arrivals in Hone. change (ev_type (t, "arrival", c)) with "arrival" in Hq.
      rewrite String.eqb_refl in Hq. lia. }
    assert (Hc : id c = customers_arrived s) by apply (Harr _ Hin eq_refl).
    pose proof (handle_arrival_ids (at_event (set_event_queue s q) t) c s' Hnone Hh)
      as Harr'.
    apply handle_arrival_effect in Hh as (Ea & _ & En & _ & _ & _ & Hb).
    change (customers_arrived (at_event (set_event_queue s q) t))
      with (customers_arrived s) in Ea.
    change (next_customer_id (at_event (set_event_queue s q) t))
      with (next_customer_id s) in En, Harr'.
    change (waiting_queue (at_event (set_event_queue s q) t))
      with (waiting_queue s) in Hb.
    rewrite Ea, En. split_and!; [lia|lia| | |].
    + intros y Hy Ey. rewrite (Harr' y Hy Ey). lia.
    + destruct Hb as [(_ & _ & ->)|(_ & _ & ->)].
      * intros c' Hc'. apply Hw in Hc'. lia.
      * intros c' Hc'. apply elem_of_app in Hc' as [Hc'|Hc'].
        -- apply Hw in Hc'. lia.
        -- apply list_elem_of_singleton in Hc' as ->. lia.
    + destruct Hb as [(_ & _ & ->)|(_ & _ & ->)]; [done|].
      apply increasing_ids_snoc; [done|]. intros a Ha. apply Hw in Ha. lia.
  - assert (Harr0 : forall y, y ∈ q -> ev_type y = "arrival" ->
                              id (ev_data y) = customers_arrived s) by auto.
    pose proof (handle_departure_ids (customers_arrived s)
                  (at_event (set_event_queue s q) t) c s' Harr0 Hh) as Harr'.
    apply handle_departure_effect in Hh as (Ea & _ & En & _ & Hb).
    change (customers_arrived (at_event (set_event_queue s q) t))
      with (customers_arrived s) in Ea.
    change (next_customer_id (at_event (set_event_queue s q) t))
      with (next_customer_id s) in En.
    change (waiting_queue (at_event (set_event_queue s q) t))
      with (waiting_queue s) in Hb.
    rewrite Ea, En. split_and!; [done|done|done| |].
    + destruct Hb as [([c' Hq'] & _)|(_ & -> & _)].
      * intros c0 Hc0. apply Hw. rewrite Hq'. by right.
      * intros c0 Hc0. by apply elem_of_nil in Hc0.
    + destruct Hb as [([c' Hq'] & _)|(_ & -> & _)].
      * rewrite Hq' in Hinc. by apply increasing_ids_tail in Hinc.
      * intros i j a b _ Ha. by destruct i.
  - split_and!; auto.
Qed.

(** X9: on a fresh object customer ids are handed out in the order of
    arrival: during and after [run], [next_customer_id] is one more than the
    number of arrivals handled, a pending arrival carries exactly that
    number of handled arrivals as its id, and the waiting customers carry
    smaller, nonnegative ids that increase from the head of the line to its
    tail. *)
Theorem ids_follow_arrival_order c lam mu s0 n mt mc s :
  init c lam mu = Ok s0 ->
  run unit_exp n mt mc s0 = Running s \/ run unit_exp n mt mc s0 = Returned s ->
  next_customer_id s = (customers_arrived s + 1)%Z /\
  (forall e, e ∈ event_queue s -> ev_type e = "arrival" ->
     id (ev_data e) = customers_arrived s) /\
  (forall c, c ∈ waiting_queue s -> (0 <= id c < customers_arrived s)%Z) /\
  increasing_ids (waiting_queue s).
Proof.
  intros Hinit Hrun.
  apply (run_invariant ids_inv) in Hrun;
    [by destruct Hrun as (_ & ? & _ & ? & ? & ?)| | |].
  - intros s1 H1. injection Hinit as <-.
    pose proof (schedule_first_arrival_arrivals unit_exp _ _ H1) as Hcount.
    apply schedule_first_arrival_Ok in H1 as (q & Hq & ->). simpl in Hq.
    unfold ids_inv. rewrite Hcount. simpl. split_and!; try done.
    + eapply heappush_arrival_ids; [| |exact Hq]; [|done].
      intros y Hy. by apply elem_of_nil in Hy.
    + intros c' Hc'. by apply elem_of_nil in Hc'.
  - intros s1 s2. apply loop_step_ids.
  - intros s1 s2 (Hone & Hnext & Hpos & Harr & Hw & Hinc) Hl.
    pose proof (loop_step_Break_arrivals unit_exp _ _ _ _ Hl) as Hcount.
    apply loop_step_Break_state in Hl as (q & -> & Hsub).
    unfold ids_inv. simpl. split_and!; auto. lia.
Qed.

End EngineState.

(** * More about the engine: waiting and system times *)

Section EngineTimes.
Variable unit_exp : nat -> Q.
Hypothesis unit_exp_nonneg : forall n, (0 <= unit_exp n)%Q.

Lemma heappush_event_ok q e q' :
  (forall y, y ∈ q -> event_ok y) -> event_ok e ->
  heapq.heappush tuple_lt q e = Ok q' -> forall y, y ∈ q' -> event_ok y.
Proof.
  intros Hq He Hpush y Hy. rewrite (heappush_perm _ _ _ _ Hpush) in Hy.
  apply elem_of_cons in Hy as [->|Hy]; auto.
Qed.

Lemma departure_event_ok t d r c :
  (0 <= d)%Q -> (0 < r)%Q -> (arrival_time c <= t)%Q ->
  event_ok ((t + d / r)%Q, "departure",
            {| id := id c; arrival_time := arrival_time c;
               service_start_time := Some t;
               departure_time := departure_time c |}).
Proof.
  intros Hd Hr Hc. split; simpl; [discriminate|]. intros _.
  exists t. split_and!; [done..|]. by apply Qdiv_step.
Qed.

Lemma arrival_event_ok t i :
  event_ok (t, "arrival",
            {| id := i; arrival_time := t; service_start_time := None;
               departure_time := None |}).
Proof. split; simpl; [intros _; apply Qle_refl | discriminate]. Qed.

Lemma handle_arrival_customers s c s' :
  (0 < service_rate s)%Q ->
  (forall e, e ∈ event_queue s -> event_ok e) ->
  (forall c', c' ∈ waiting_queue s -> (arrival_time c' <= current_time s)%Q) ->
  (arrival_time c <= current_time s)%Q ->
  handle_arrival unit_exp s c = Ok s' ->
  (forall e, e ∈ event_queue s' -> event_ok e) /\
  (forall c', c' ∈ waiting_queue s' -> (arrival_time c' <= current_time s')%Q).
Proof.
  unfold handle_arrival. intros Hs Hq Hw Hc H. inv_calls; simpl in *.
  - split; [|done].
    eapply heappush_event_ok; [| |eassumption]; [|apply arrival_event_ok].
    eapply heappush_event_ok; [| |eassumption]; [done|].
    by apply departure_event_ok.
  - split.
    + eapply heappush_event_ok; [| |eassumption]; [done|apply arrival_event_ok].
    + intros c' Hc'. apply elem_of_app in Hc' as [Hc'|Hc']; [by apply Hw|].
      by apply list_elem_of_singleton in Hc' as ->.
Qed.

Lemma handle_departure_customers s c s' :
  (0 < service_rate s)%Q ->
  (forall e, e ∈ event_queue s -> event_ok e) ->
  (forall c', c' ∈ waiting_queue s -> (arrival_time c' <= current_time s)%Q) ->
  (exists st, service_start_time c = Some st /\
              (arrival_time c <= st)%Q /\ (st <= current_time s)%Q) ->
  (0 <= total_waiting_time s)%Q ->
  (total_waiting_time s <= total_system_time s)%Q ->
  handle_departure unit_exp s c = Ok s' ->
  (forall e, e ∈ event_queue s' -> event_ok e) /\
  (forall c', c' ∈ waiting_queue s' -> (arrival_time c' <= current_time s')%Q) /\
  (0 <= total_waiting_time s')%Q /\
  (total_waiting_time s' <= total_system_time s')%Q.
Proof.
  unfold handle_departure, waiting_time, system_time.
  intros Hs Hq Hw (st & Hst & Hle1 & Hle2) H0 Hle H. simpl in H. rewrite Hst in H.
  inv_calls; simpl in *.
  - split_and!; [done| |lra|lra].
    match goal with E : waiting_queue s = _ |- _ => by rewrite E end.
  - assert (Hin : forall c', c' ∈ l -> (arrival_time c' <= current_time s)%Q).
    { intros c' Hc'. apply Hw. by right. }
    split_and!; [|done|lra|lra].
    eapply heappush_event_ok; [| |eassumption]; [done|].
    apply departure_event_ok; [done..|]. apply Hw. by left.
Qed.

Lemma loop_step_customers mt mc s s' :
  customers_inv s -> loop_step unit_exp mt mc s = Continue s' -> customers_inv s'.
Proof.
  intros (Ha & Hs & [Hheap Hafter] & Hev & Hw & Hserved & H0 & Hle) H.
  destruct (loop_step_config unit_exp mt mc s s' (or_introl H)) as (_ & Ea & Es).
  destruct (loop_step_after unit_exp unit_exp_nonneg _ _ _ _ Ha Hs Hheap H)
    as (e' & q' & Hpop' & Hc & _ & Hq').
  apply loop_step_handler in H as (t & k & c & q & Hpop & _ & _ & Hcase).
  rewrite Hpop in Hpop'. injection Hpop' as <- <-. simpl in Hc, Hq'.
  assert (Hin : (t, k, c) ∈ event_queue s)
    by (rewrite (heappop_perm _ _ _ _ Hpop); by left).
  assert (Hsub : forall y, y ∈ q -> y ∈ event_queue s).
  { intros y Hy. rewrite (heappop_perm _ _ _ _ Hpop). by right. }
  assert (Hnow : (current_time s <= t)%Q) by apply (Hafter _ Hin).
  assert (Hw' : forall c', c' ∈ waiting_queue s -> (arrival_time c' <= t)%Q).
  { intros c' Hc'. apply Qle_trans with (current_time s); auto. }
  destruct (Hev _ Hin) as [Harr Hdep]. simpl in Harr, Hdep.
  unfold customers_inv. rewrite Ea, Es, Hc.
  destruct Hcase as [[-> Hh]|[[-> Hh]|(_ & _ & ->)]].
  - pose proof (handle_arrival_effect unit_exp _ _ _ Hh) as (_ & -> & _ & -> & -> & _).
    apply handle_arrival_customers in Hh as [Hev' Hwq']; simpl; auto.
    simpl in *. rewrite Hc in Hwq'. split_and!; done.
  - pose proof (handle_departure_effect unit_exp _ _ _ Hh) as (_ & -> & _).
    apply handle_departure_customers in Hh as (Hev' & Hwq' & H0' & Hle');
      simpl; auto.
    simpl in *. rewrite Hc in Hwq'. split_and!; try done. lia.
  - simpl in *. split_and!; auto.
Qed.

Lemma loop_step_Break_customers mt mc s s' :
  customers_inv s -> loop_step unit_exp mt mc s = Break s' -> customers_inv s'.
Proof.
  intros (Ha & Hs & [Hheap Hafter] & Hev & Hw & Hserved & H0 & Hle) H.
  apply loop_step_Break in H as [[_ ->]|(e & q & Hpop & -> & _)]; [done|].
  destruct (heappop_time _ _ _ Hheap Hpop) as [Hheap' _].
  assert (Hsub : forall y, y ∈ q -> y ∈ event_queue s).
  { intros y Hy. rewrite (heappop_perm _ _ _ _ Hpop). by right. }
  unfold customers_inv, queue_after. simpl. split_and!; auto.
Qed.

(** On a fresh object with positive rates, every state of [run] satisfies
    the invariant of the customers. *)
Lemma run_customers_inv c lam mu s0 n mt mc s :
  init c lam mu = Ok s0 -> (0 < lam)%Q -> (0 < mu)%Q ->
  run unit_exp n mt mc s0 = Running s \/ run unit_exp n mt mc s0 = Returned s ->
  customers_inv s.
Proof.
  intros Hinit Hlam Hmu. apply (run_invariant unit_exp customers_inv).
  - intros s1 H1. injection Hinit as <-.
    apply schedule_first_arrival_Ok in H1 as (q & Hq & ->). simpl in Hq.
    unfold customers_inv. simpl. split_and!; try done.
    + eapply heappush_after; [| |exact Hq].
      * split; [intros i Hi x p Hx; by destruct i|].
        intros e He. by apply elem_of_nil in He.
      * simpl. apply Qle_shift_div_l; [done|]. rewrite Qmult_0_l. apply unit_exp_nonneg.
    + eapply heappush_event_ok; [| |exact Hq]; [|apply arrival_event_ok].
      intros e He. by apply elem_of_nil in He.
    + intros c' Hc'. by apply elem_of_nil in Hc'.
  - intros s1 s2. apply loop_step_customers.
  - intros s1 s2. apply loop_step_Break_customers.
Qed.

(** X6: on a fresh object with positive rates, the accumulated waiting time
    is never negative and never exceeds the accumulated system time, during
    and after [run]. *)
Theorem waiting_time_within_system_time c lam mu s0 n mt mc s :
  init c lam mu = Ok s0 -> (0 < lam)%Q -> (0 < mu)%Q ->
  run unit_exp n mt mc s0 = Running s \/ run unit_exp n mt mc s0 = Returned s ->
  (0 <= total_waiting_time s)%Q /\ (total_waiting_time s <= total_system_time s)%Q.
Proof.
  intros Hinit Hlam Hmu Hrun.
  by destruct (run_customers_inv c lam mu s0 n mt mc s Hinit Hlam Hmu Hrun)
    as (_ & _ & _ & _ & _ & _ & ? & ?).
Qed.

Lemma Qdiv_le_pos a b d : (0 < d)%Q -> (a <= b)%Q -> (a / d <= b / d)%Q.
Proof.
  intros Hd Hab. unfold Qdiv. apply Qmult_le_compat_r; [done|].
  apply Qlt_le_weak. by apply Qinv_lt_0_compat.
Qed.

(** X7: on a fresh object with positive rates, once a customer has
    departed the snapshot reports an average waiting time that is not
    negative and not above the average system time. *)
Theorem average_waiting_within_average_system c lam mu s0 n mt mc s d :
  init c lam mu = Ok s0 -> (0 < lam)%Q -> (0 < mu)%Q ->
  run unit_exp n mt mc s0 = Running s \/ run unit_exp n mt mc s0 = Returned s ->
  customers_served s <> 0%Z ->
  get_statistics s = Ok d ->
  exists w y,
    dict_get d "avg_waiting_time" = Some (VFloat w) /\
    dict_get d "avg_system_time" = Some (VFloat y) /\
    (0 <= w)%Q /\ (w <= y)%Q.
Proof.
  intros Hinit Hlam Hmu Hrun Hserved Hd.
  destruct (run_customers_inv c lam mu s0 n mt mc s Hinit Hlam Hmu Hrun)
    as (_ & _ & _ & _ & _ & Hs & H0 & Hle).
  assert (Hpos : (0 < inject_Z (customers_served s))%Q).
  { replace 0%Q with (inject_Z 0) by done. rewrite <- Zlt_Qlt. lia. }
  unfold get_statistics in Hd. rewrite (proj2 (Z.eqb_neq _ _) Hserved) in Hd.
  rewrite !(pydiv_pos _ _ Hpos) in Hd. cbn [bind] in Hd.
  repeat (apply bind_Ok in Hd as (? & _ & Hd)). injection Hd as <-.
  eexists _, _. split; [reflexivity|]. split; [reflexivity|]. split.
  - apply Qle_shift_div_l; [done|]. by rewrite Qmult_0_l.
  - by apply Qdiv_le_pos.
Qed.

End EngineTimes.

(** * More about the snapshots *)

Lemma Qltb_iff a b : Qltb a b = true <-> (a < b)%Q.
Proof.
  split; [apply Qltb_true|]. unfold Qltb. rewrite Qlt_alt. by intros ->.
Qed.

(** X10: every snapshot [get_statistics] returns, before or after the first
    departure, has all nine entries that the console and the window read. *)
Theorem get_statistics_has_displayed_keys s d :
  get_statistics s = Ok d ->
  forall k, k ∈ displayed_keys -> is_Some (dict_get d k).
Proof.
  unfold get_statistics. intros Hd k Hk.
  assert (Hcases : Forall (fun k => is_Some (dict_get d k)) displayed_keys).
  { destruct (customers_served s =? 0)%Z.
    - injection Hd as <-. repeat constructor; by eexists.
    - repeat (apply bind_Ok in Hd as (? & _ & Hd)). injection Hd as <-.
      repeat constructor; by eexists. }
  by apply (proj1 (Forall_forall _ _) Hcases).
Qed.


Lemma get_statistics_Ok s :
  ~ (customers_served s <> 0%Z /\ (0 < current_time s)%Q /\ num_servers s = 0%Z) ->
  exists d, get_statistics s = Ok d.
Proof.
  unfold get_statistics.
  intros Hnot. destruct (customers_served s =? 0)%Z eqn:Es; [eauto|].
  apply Z.eqb_neq in Es.
  assert (Hserved : ~ (inject_Z (customers_served s) == 0)%Q).
  { intros E. apply Es. apply (proj1 (inject_Z_injective _ 0)) in E. exact E. }
  rewrite !(pydiv_nonzero _ _ Hserved). cbn [bind].
  destruct (Qltb 0 (current_time s)) eqn:Et; [|cbn [bind]; eauto].
  apply Qltb_iff in Et. rewrite (pydiv_pos _ _ Et). cbn [bind].
  rewrite pydiv_nonzero; [cbn [bind]; eauto|].
  intros E. apply Hnot. split_and!; [done..|].
  apply Qmult_integral in E as [E|E].
  + rewrite E in Et. by apply Qlt_irrefl in Et.
  + by apply (proj1 (inject_Z_injective _ 0)) in E.
Qed.


(** X12: the utilization the snapshot reports is the service time of the
    departed customers, total system time less total waiting time, divided
    by the capacity [current_time * num_servers]. *)
Theorem server_utilization_is_service_time_over_capacity s d :
  customers_served s <> 0%Z -> (0 < current_time s)%Q ->
  get_statistics s = Ok d ->
  exists u,
    dict_get d "server_utilization" = Some (VFloat u) /\
    (u == (total_system_time s - total_waiting_time s)
          / (current_time s * inject_Z (num_servers s)))%Q.
Proof.
  unfold get_statistics. intros Hs Ht Hd.
  rewrite (proj2 (Z.eqb_neq _ _) Hs) in Hd.
  assert (Hserved : ~ (inject_Z (customers_served s) == 0)%Q).
  { intros E. apply Hs. apply (proj1 (inject_Z_injective _ 0)) in E. exact E. }
  rewrite !(pydiv_nonzero _ _ Hserved) in Hd. cbn [bind] in Hd.
  rewrite (proj2 (Qltb_iff _ _) Ht), (pydiv_pos _ _ Ht) in Hd. cbn [bind] in Hd.
  apply bind_Ok in Hd as (v & Hv & Hd). injection Hd as <-.
  apply bind_Ok in Hv as (u & Hu & Hv). injection Hv as <-.
  apply pydiv_Ok in Hu as [Hcap ->]. apply Qeq_bool_neq in Hcap.
  eexists. split; [reflexivity|]. field. split_and!; [| |done].
  - intros E. apply Hcap. rewrite E. ring.
  - intros E. apply Hcap. rewrite E. ring.
Qed.

(** * More about the theoretical statistics *)

(** X13: for one server and a stable configuration with rates of moderate
    size the four predicted averages, though each is computed from its own
    closed form, agree with Little's law and with each other:
    [L = lambda * W], [Lq = lambda * Wq], [W = Wq + 1 / mu] and
    [L = Lq + rho]. *)
Theorem mm1_predictions_are_consistent s :
  num_servers s = 1%Z ->
  moderate (arrival_rate s) -> moderate (service_rate s) ->
  (arrival_rate s < service_rate s)%Q ->
  exists rho L Lq W Wq,
    get_theoretical_statistics s
    = Ok [ ("utilization", VFloat rho);
           ("avg_customers_in_system", VFloat L);
           ("avg_customers_in_queue", VFloat Lq);
           ("avg_time_in_system", VFloat W);
           ("avg_time_in_queue", VFloat Wq) ] /\
    (L == arrival_rate s * W)%Q /\ (Lq == arrival_rate s * Wq)%Q /\
    (W == Wq + 1 / service_rate s)%Q /\ (L == Lq + rho)%Q.
Proof.
  intros Hone Hml Hmm Hlt. pose proof (moderate_pos _ Hmm) as Hmu.
  eexists _, _, _, _, _.
  split; [apply theoretical_mm1; [done..|by apply moderate_square]|].
  assert (Hm : ~ (service_rate s == 0)%Q).
  { intros E. rewrite E in Hmu. by apply Qlt_irrefl in Hmu. }
  assert (Hgap : ~ (service_rate s - arrival_rate s == 0)%Q).
  { intros E. lra. }
  split_and!; field; auto.
Qed.

(** X14: with an arrival rate of zero and a positive service rate, one
    server gets a prediction, with nobody in the system and a time in the
    system of [1 / mu]; 2 to 170 servers get a ZeroDivisionError, from the
    division of [Lq] by the arrival rate; 171 servers or more get an
    OverflowError, from the factorial, before that division is reached. *)
Theorem zero_arrival_rate_prediction s :
  (arrival_rate s == 0)%Q -> (0 < service_rate s)%Q ->
  (num_servers s = 1%Z -> moderate (service_rate s) ->
   exists rho L Lq W Wq,
     get_theoretical_statistics s
     = Ok [ ("utilization", VFloat rho);
            ("avg_customers_in_system", VFloat L);
            ("avg_customers_in_queue", VFloat Lq);
            ("avg_time_in_system", VFloat W);
            ("avg_time_in_queue", VFloat Wq) ] /\
     (rho == 0)%Q /\ (L == 0)%Q /\ (Lq == 0)%Q /\
     (W == 1 / service_rate s)%Q /\ (Wq == 0)%Q) /\
  ((1 < num_servers s <= 170)%Z ->
   get_theoretical_statistics s = Raise ZeroDivisionError) /\
  ((171 <= num_servers s)%Z ->
   get_theoretical_statistics s = Raise OverflowError).
Proof.
  intros Hzero Hmu. split_and!.
  - intros Hone _. eexists _, _, _, _, _. split.
    + apply theoretical_mm1; [done..|by rewrite Hzero|].
      apply small_base_in_range; [rewrite Hzero; apply Qle_refl|rewrite Hzero; done|lia].
    + assert (Hm : ~ (service_rate s == 0)%Q) by (intros E; lra).
      assert (Hgap : ~ (service_rate s - arrival_rate s == 0)%Q) by (intros E; lra).
      split_and!; rewrite ?Hzero; try (field; split; [lra|done]); field; lra.
  - intros Hc.
    assert (Hrho : (arrival_rate s / (inject_Z (num_servers s) * service_rate s)
                    == 0)%Q).
    { rewrite Hzero. unfold Qdiv. by rewrite Qmult_0_l. }
    destruct (theoretical_mmc_steps s) as (-> & _); [done| |done| | |].
    + rewrite Hzero. apply Qle_refl.
    + by rewrite Hrho.
    + intros n Hn. apply small_base_in_range; [| |lia].
      * rewrite Hrho, Qmult_0_r. apply Qle_refl.
      * by rewrite Hrho, Qmult_0_r.
    + by rewrite (pydiv_zero _ _ Hzero).
  - intros Hc. apply theoretical_overflow; [done..|].
    rewrite Hzero. unfold Qdiv. by rewrite Qmult_0_l.
Qed.

(** X15: the theoretical statistics raise on impossible configurations that
    construction accepts.  A server count too large for a float gets an
    OverflowError, from [num_servers * service_rate]; otherwise a capacity
    [num_servers * service_rate] of zero gets a ZeroDivisionError.  A
    negative server count, from -1000 on, with rates of moderate size gets
    the ValueError of [math.factorial] when the power
    [(c * rho) ** c = (lambda / mu) ** c], which the code computes first,
    is in the float range (at most [2^1000]), and an OverflowError when it
    is out of it (at least [2^1030]). *)
Theorem theoretical_statistics_raise s :
  let c := num_servers s in
  let lam := arrival_rate s in
  let mu := service_rate s in
  ((int_limit <= Z.abs c)%Z ->
   get_theoretical_statistics s = Raise OverflowError) /\
  ((Z.abs c < int_limit)%Z -> (inject_Z c * mu == 0)%Q ->
   get_theoretical_statistics s = Raise ZeroDivisionError) /\
  ((-1000 <= c < 0)%Z -> moderate lam -> moderate mu ->
   ((lam / mu) ^ c <= inject_Z (2 ^ 1000))%Q ->
   get_theoretical_statistics s = Raise ValueError) /\
  ((-1000 <= c < 0)%Z -> moderate lam -> moderate mu ->
   (inject_Z (2 ^ 1030) <= (lam / mu) ^ c)%Q ->
   get_theoretical_statistics s = Raise OverflowError).
Proof.
  intros c lam mu.
  assert (Hneg : (-1000 <= c < 0)%Z -> moderate lam -> moderate mu ->
    get_theoretical_statistics s
    = (let! p := pypow (inject_Z c * (lam / (inject_Z c * mu))) c in
       let! f := factorial c in
       Raise ValueError) /\
    (inject_Z c * (lam / (inject_Z c * mu)) == lam / mu)%Q /\ (0 < lam / mu)%Q).
  { intros Hc Hml Hmm.
    pose proof (moderate_pos _ Hml) as Hlam. pose proof (moderate_pos _ Hmm) as Hmu.
    assert (Hcl : (Z.abs c < int_limit)%Z).
    { apply Z.le_lt_trans with 1000%Z; [lia|by vm_compute]. }
    assert (Hcq : (inject_Z c < 0)%Q).
    { replace 0%Q with (inject_Z 0) by done. rewrite <- Zlt_Qlt. lia. }
    assert (Hden : (inject_Z c * mu < 0)%Q).
    { rewrite <- (Qmult_0_l mu). by apply Qmult_lt_compat_r. }
    assert (Hdz : ~ (inject_Z c * mu == 0)%Q) by (intros E; lra).
    assert (Hrho : (lam / (inject_Z c * mu) < 0)%Q).
    { apply Qopp_lt_compat in Hden.
      assert (Hpos : (0 < lam / (- (inject_Z c * mu)))%Q).
      { apply Qlt_shift_div_l; [lra|]. by rewrite Qmult_0_l. }
      assert (E : (lam / (inject_Z c * mu) == - (lam / (- (inject_Z c * mu))))%Q)
        by (field; lra).
      rewrite E. lra. }
    split_and!.
    - unfold get_theoretical_statistics. fold c lam mu.
      rewrite (float_of_int_Ok c Hcl). cbn [bind].
      rewrite (pydiv_nonzero _ _ Hdz). cbn [bind].
      rewrite Qle_bool_false by lra.
      rewrite (proj2 (Z.eqb_neq c 1)) by lia.
      unfold range. replace (Z.to_nat c) with 0 by lia. cbn [seq map sum_terms bind].
      destruct (pypow _ c); cbn [bind]; [|done].
      unfold factorial. by rewrite (proj2 (Z.ltb_lt c 0)) by lia.
    - field. split; lra.
    - apply Qlt_shift_div_l; [done|]. by rewrite Qmult_0_l. }
  split_and!.
  - intros Hc. unfold get_theoretical_statistics. fold c.
    by rewrite (float_of_int_Raise c Hc).
  - intros Hc E. unfold get_theoretical_statistics. fold c mu.
    rewrite (float_of_int_Ok c Hc). cbn [bind]. by rewrite (pydiv_zero _ _ E).
  - intros Hc Hml Hmm Hp. destruct (Hneg Hc Hml Hmm) as (-> & Hx & Hpos).
    assert (Hin : (Qabs ((inject_Z c * (lam / (inject_Z c * mu))) ^ c)
                   < float_limit)%Q).
    { rewrite Hx. rewrite Qabs_pos by (apply Qpower_0_le; by apply Qlt_le_weak).
      apply Qle_lt_trans with (inject_Z (2 ^ 1000)); [done|].
      unfold float_limit. rewrite <- Zlt_Qlt. by vm_compute. }
    unfold pypow. rewrite (proj2 (Z.ltb_lt c 0)) by lia. cbn [andb].
    destruct (Qeq_bool _ 0) eqn:E.
    { apply Qeq_bool_iff in E. rewrite Hx in E. rewrite E in Hpos.
      by apply Qlt_irrefl in Hpos. }
    rewrite (overflows_false _ Hin). cbn [bind].
    unfold factorial. by rewrite (proj2 (Z.ltb_lt c 0)) by lia.
  - intros Hc Hml Hmm Hp. destruct (Hneg Hc Hml Hmm) as (-> & Hx & Hpos).
    assert (Hout : (float_limit
                    <= Qabs ((inject_Z c * (lam / (inject_Z c * mu))) ^ c))%Q).
    { rewrite Hx. rewrite Qabs_pos by (apply Qpower_0_le; by apply Qlt_le_weak).
      apply Qle_trans with (inject_Z (2 ^ 1030)); [|done].
      unfold float_limit. rewrite <- Zle_Qle. by vm_compute. }
    unfold pypow. rewrite (proj2 (Z.ltb_lt c 0)) by lia. cbn [andb].
    destruct (Qeq_bool _ 0) eqn:E.
    { apply Qeq_bool_iff in E. rewrite Hx in E. rewrite E in Hpos.
      by apply Qlt_irrefl in Hpos. }
    by rewrite (overflows_true _ Hout).
Qed.

(** X16: for a configuration with 1 to 143 servers, rates of moderate size
    and a utilization clearly below one the four predicted averages are
    ordered as they must be: the queue averages are not negative and do not
    exceed the system averages. *)
Theorem stable_predictions_are_ordered s :
  (1 <= num_servers s <= 143)%Z ->
  moderate (arrival_rate s) -> moderate (service_rate s) ->
  clearly_stable (arrival_rate s / (inject_Z (num_servers s) * service_rate s)) ->
  exists rho L Lq W Wq,
    get_theoretical_statistics s
    = Ok [ ("utilization", VFloat rho);
           ("avg_customers_in_system", VFloat L);
           ("avg_customers_in_queue", VFloat Lq);
           ("avg_time_in_system", VFloat W);
           ("avg_time_in_queue", VFloat Wq) ] /\
    (0 <= Lq)%Q /\ (Lq <= L)%Q /\ (0 <= Wq)%Q /\ (Wq <= W)%Q.
Proof.
  intros Hc Hml Hmm Hst.
  pose proof (moderate_pos _ Hml) as Hlam. pose proof (moderate_pos _ Hmm) as Hmu.
  pose proof (clearly_stable_lt _ Hst) as Hlt.
  assert (Hm : ~ (service_rate s == 0)%Q) by (intros E; lra).
  assert (Hl : ~ (arrival_rate s == 0)%Q) by (intros E; lra).
  assert (Hinv : (0 < 1 / service_rate s)%Q).
  { apply Qlt_shift_div_l; [done|]. rewrite Qmult_0_l. reflexivity. }
  destruct (Z.eq_dec (num_servers s) 1%Z) as [Hone|Hmany].
  - assert (Hgap : (arrival_rate s < service_rate s)%Q).
    { rewrite Hone in Hlt. apply Qdiv_lt_1 in Hlt; [|by rewrite Qmult_1_l].
      by rewrite Qmult_1_l in Hlt. }
    assert (Hg : (0 < service_rate s - arrival_rate s)%Q) by lra.
    assert (Hp : (0 < service_rate s * (service_rate s - arrival_rate s))%Q)
      by by apply Qmult_lt_0_compat.
    assert (HWq : (0 <= arrival_rate s
                        / (service_rate s * (service_rate s - arrival_rate s)))%Q).
    { apply Qle_shift_div_l; [done|]. rewrite Qmult_0_l. lra. }
    eexists _, _, _, _, _.
    split; [apply theoretical_mm1; [done..|by apply moderate_square]|]. split_and!.
    + apply Qle_shift_div_l; [done|]. rewrite Qmult_0_l.
      apply Qpower_0_le. lra.
    + assert (E : (arrival_rate s / (service_rate s - arrival_rate s)
                   == arrival_rate s ^ 2
                      / (service_rate s * (service_rate s - arrival_rate s))
                      + arrival_rate s * (1 / service_rate s))%Q)
        by (field; split; lra).
      rewrite E.
      assert (0 <= arrival_rate s * (1 / service_rate s))%Q
        by (apply Qmult_le_0_compat; lra).
      lra.
    + done.
    + assert (E : (1 / (service_rate s - arrival_rate s)
                   == arrival_rate s
                      / (service_rate s * (service_rate s - arrival_rate s))
                      + 1 / service_rate s)%Q)
        by (field; split; lra).
      rewrite E. lra.
  - destruct (theoretical_mmc_steps s) as (Heq & _ & _ & _ & HLq);
      [lia|lra|done|done| |].
    { intros n Hn. apply stable_powers_in_range; [lia|lra|done..]. }
    rewrite Heq, (pydiv_pos _ _ Hlam), (pydiv_pos _ _ Hmu). cbn [bind].
    eexists _, _, _, _, _. split; [reflexivity|].
    match goal with
    | |- (0 <= ?Lq)%Q /\ _ =>
        assert (Hx : (0 <= Lq)%Q) by exact HLq; clear HLq Heq;
        revert Hx; generalize Lq; intros x Hx
    end.
    assert (HWq : (0 <= x / arrival_rate s)%Q)
      by (apply Qle_shift_div_l; [done|]; by rewrite Qmult_0_l).
    assert (E : (arrival_rate s * (x / arrival_rate s + 1 / service_rate s)
                 == x + arrival_rate s * (1 / service_rate s))%Q)
      by (field; split; lra).
    assert (0 <= arrival_rate s * (1 / service_rate s))%Q
      by (apply Qmult_le_0_compat; lra).
    split_and!; [done| |done|lra].
    rewrite E. lra.
Qed.

(** * Scheduling, resetting, and the order of processing *)

Lemma Customer_eqb_refl c : Customer_eqb c c = true.
Proof.
  unfold Customer_eqb, opt_eqb. rewrite Z.eqb_refl.
  rewrite (proj2 (Qeq_bool_iff _ _) (Qeq_refl (arrival_time c))).
  destruct (service_start_time c), (departure_time c); simpl;
    rewrite ?(proj2 (Qeq_bool_iff _ _) (Qeq_refl _)); done.
Qed.

Lemma tie_refl e : tie e e = false.
Proof. unfold tie. rewrite Customer_eqb_refl. simpl. apply andb_false_r. Qed.

(** [heappush] needs the new item to be comparable with the items of the
    heap only. *)
Lemma heappush_total_new {A : Type} (lt : A -> A -> result bool) heap item :
  (forall y, y ∈ item :: heap -> exists r, lt item y = Ok r) ->
  exists h, heapq.heappush lt heap item = Ok h.
Proof.
  intros Hcmp. unfold heapq.heappush, heapq._siftdown.
  rewrite length_app, Nat.add_sub. simpl length.
  rewrite (list_lookup_middle heap [] item (length heap) eq_refl).
  apply siftdown_loop_total.
  - rewrite length_app. simpl. lia.
  - intros y Hy. apply Hcmp. rewrite elem_of_cons.
    apply elem_of_app in Hy as [?|Hy%list_elem_of_singleton]; auto.
Qed.

(** X17: scheduling an event that ties with no pending event (none has its
    time and type with a different customer) succeeds; the new queue holds
    the pending events and the new one, nothing else of the object changes,
    and a queue that was a heap by time and type still is one. *)
Theorem schedule_event_adds_the_event s t k c :
  (forall y, y ∈ event_queue s -> tie (t, k, c) y = false) ->
  exists s',
    schedule_event s t k c = Ok s' /\
    event_queue s' ≡ₚ (t, k, c) :: event_queue s /\
    s' = set_event_queue s (event_queue s') /\
    (heap_ok le_key (event_queue s) -> heap_ok le_key (event_queue s')).
Proof.
  intros Hties. unfold schedule_event.
  destruct (heappush_total_new tuple_lt (event_queue s) (t, k, c)) as [q Hq].
  { intros y Hy. apply tuple_lt_no_tie.
    apply elem_of_cons in Hy as [->|Hy]; [apply tie_refl | by apply Hties]. }
  rewrite Hq. simpl. eexists. split; [reflexivity|]. simpl. split_and!.
  - by apply heappush_perm in Hq.
  - done.
  - intros Hheap. by eapply heappush_key.
Qed.

(** X18: [reset] gives back the state of a new object with the same
    configuration, and the next [run] has exactly one arrival pending at its
    loop head, whatever calls of [run] came before. *)
Theorem run_after_reset u s s1 n mt mc s2 :
  reset s = Ok s1 ->
  run u n mt mc s1 = Running s2 ->
  init (num_servers s) (arrival_rate s) (service_rate s) = Ok (set_rng_index s1 0) /\
  rng_index s1 = rng_index s /\
  pending_arrivals s2 = 1.
Proof.
  unfold reset. simpl. intros [= <-] Hrun. split_and!; [done..|].
  by apply (run_arrivals u n mt mc) in Hrun.
Qed.

Section ProcessingOrder.
Variable unit_exp : nat -> Q.

Lemma handle_arrival_key s c s' :
  heap_ok le_key (event_queue s) -> handle_arrival unit_exp s c = Ok s' ->
  heap_ok le_key (event_queue s').
Proof.
  unfold handle_arrival. intros Hq H. inv_calls; simpl in *;
    repeat match goal with
    | H : heapq.heappush _ _ _ = Ok _ |- _ => apply heappush_key in H; [|done]
    end; done.
Qed.

Lemma handle_departure_key s c s' :
  heap_ok le_key (event_queue s) -> handle_departure unit_exp s c = Ok s' ->
  heap_ok le_key (event_queue s').
Proof.
  unfold handle_departure. intros Hq H. inv_calls; simpl in *;
    repeat match goal with
    | H : heapq.heappush _ _ _ = Ok _ |- _ => apply heappush_key in H; [|done]
    end; done.
Qed.

Lemma run_keeps_key_heap s0 n mt mc s :
  heap_ok le_key (event_queue s0) ->
  run unit_exp n mt mc s0 = Running s \/ run unit_exp n mt mc s0 = Returned s ->
  heap_ok le_key (event_queue s).
Proof.
  intros H0. apply (run_invariant unit_exp (fun s => heap_ok le_key (event_queue s))).
  - intros s1 H1. apply schedule_first_arrival_Ok in H1 as (q & Hq & ->).
    simpl. by eapply heappush_key.
  - intros s1 s2 H1 Hl.
    apply loop_step_handler in Hl as (t & k & c & q & Hpop & _ & _ & Hcase).
    destruct (heappop_key _ _ _ H1 Hpop) as [Hq _].
    destruct Hcase as [[_ Hh]|[[_ Hh]|(_ & _ & ->)]]; [| |done].
    + by apply (handle_arrival_key (at_event (set_event_queue s1 q) t) c s2).
    + by apply (handle_departure_key (at_event (set_event_queue s1 q) t) c s2).
  - intros s1 s2 H1 Hl.
    apply loop_step_Break in Hl as [[_ ->]|(e & q & Hpop & -> & _)]; [done|].
    by destruct (heappop_key _ _ _ H1 Hpop) as [Hq _].
Qed.

(** X19: on a fresh object, the event [run] takes from the queue is always
    an earliest pending one, and among the earliest an arrival rather than
    a departure: no pending event precedes it by time, or by type at equal
    time. *)
Theorem run_takes_the_least_event c lam mu s0 n mt mc s e q :
  init c lam mu = Ok s0 ->
  run unit_exp n mt mc s0 = Running s ->
  heapq.heappop tuple_lt (event_queue s) = Ok (e, q) ->
  forall y, y ∈ q ->
    (ev_time e < ev_time y)%Q
    \/ (ev_time e == ev_time y)%Q /\ (ev_type e <=? ev_type y)%string = true.
Proof.
  intros Hinit Hrun Hpop.
  assert (Hheap : heap_ok le_key (event_queue s)).
  { apply (run_keeps_key_heap s0 n mt mc s); [|by left].
    injection Hinit as <-. intros i Hi x p Hx. by destruct i. }
  by destruct (heappop_key _ _ _ Hheap Hpop) as [_ Hmin].
Qed.

End ProcessingOrder.

(** * The animation of the interactive front end *)

Lemma heappop_head {A : Type} (lt : A -> A -> result bool) x l e q :
  heapq.heappop lt (x :: l) = Ok (e, q) -> e = x.
Proof.
  unfold heapq.heappop. destruct ((x :: l) !! (length (x :: l) - 1)) as [lastelt|] eqn:E;
    [|done].
  simpl length in *. rewrite Nat.sub_succ, Nat.sub_0_r in *.
  destruct l as [|y l].
  - simpl in *. injection E as <-. by intros [= <- _].
  - change (take (length (y :: l)) (x :: y :: l)) with (x :: take (length l) (y :: l)).
    intros H. apply bind_Ok in H as (h & _ & [= <- _]). done.
Qed.

Section RealtimeFacts.
Variable unit_exp : nat -> Q.

Lemma frame_step_Processed mt tt s tr s' tr' :
  frame_step unit_exp mt tt s tr = Processed s' tr' ->
  exists t k c q,
    heapq.heappop tuple_lt (event_queue s) = Ok ((t, k, c), q) /\
    (t <= tt)%Q /\ (t <= mt)%Q /\
    (k = "arrival"
       /\ handle_arrival unit_exp (at_frame_event (set_event_queue s q) t) c = Ok s'
     \/ k = "departure"
        /\ handle_departure unit_exp (at_frame_event (set_event_queue s q) t) c = Ok s'
     \/ k <> "arrival" /\ k <> "departure"
        /\ s' = at_frame_event (set_event_queue s q) t) /\
    tr' = {| times := times tr ++ [current_time s'];
             queue_lengths := queue_lengths tr ++ [len (waiting_queue s')];
             customers_in_system :=
               customers_in_system tr
                 ++ [(len (waiting_queue s') + busy_servers s')%Z] |}.
Proof.
  unfold frame_step. destruct (event_queue s) as [|[[t k] c] l] eqn:Hq; [done|].
  destruct (Qle_bool t tt) eqn:Htt; [|done]. simpl negb. cbv iota.
  destruct (Qltb mt t) eqn:Hmt; [done|].
  destruct (heapq.heappop tuple_lt _) as [[e q]|] eqn:Hpop; [|done].
  pose proof (heappop_head _ _ _ _ _ Hpop) as ->.
  change (set_last_event_time (set_current_time (update_statistics (set_event_queue s q)
            (t - last_event_time (set_event_queue s q))) t) t)
    with (at_frame_event (set_event_queue s q) t).
  intros H. exists t, k, c, q. split; [done|].
  split; [by apply Qle_bool_iff|]. split; [by apply Qltb_false|].
  destruct (String.eqb_spec k "arrival") as [->|Ha].
  { destruct (handle_arrival _ _ _) eqn:Hh; [|done]. injection H as <- <-. auto. }
  destruct (String.eqb_spec k "departure") as [->|Hd].
  { destruct (handle_departure _ _ _) eqn:Hh; [|done]. injection H as <- <-. auto. }
  injection H as <- <-. split; [|done]. right. right. done.
Qed.

Lemma frame_step_inv limit mt tt s tr s' tr' :
  (tt <= limit)%Q ->
  realtime_inv limit s tr ->
  frame_step unit_exp mt tt s tr = Processed s' tr' ->
  realtime_inv limit s' tr'.
Proof.
  intros Hlim (Hp & Hth & Hl1 & Hl2 & Hts) H.
  apply frame_step_Processed in H as (t & k & c & q & Hpop & Htt & _ & Hcase & ->).
  pose proof (heappop_count "arrival" _ _ _ Hpop) as Hcount. simpl in Hcount.
  unfold pending_arrivals in Hp. rewrite Hcount in Hp.
  assert (Hs' : pending_arrivals s' = 1 /\ time_history s' = [] /\ current_time s' = t).
  { destruct Hcase as [[-> Hh]|[[-> Hh]|(Ha & Hd & ->)]].
    - pose proof (handle_arrival_counts _ _ _ _ Hh) as [Hc _].
      apply handle_arrival_frame in Hh as (_ & _ & _ & Hct & _ & _ & _ & Hh & _).
      rewrite Hc, Hct, Hh. unfold pending_arrivals. simpl in *. split_and!; [lia|done..].
    - pose proof (handle_departure_counts _ _ _ _ Hh) as [Hc _].
      apply handle_departure_frame in Hh as (_ & _ & _ & Hct & _ & _ & _ & Hh & _).
      rewrite Hc, Hct, Hh. unfold pending_arrivals. simpl in *. split_and!; [lia|done..].
    - rewrite eqb_other in Hp by done. unfold pending_arrivals. simpl. done. }
  destruct Hs' as (Hp' & Hth' & Hct').
  unfold realtime_inv. simpl. rewrite !length_app. simpl.
  split_and!; [done|done|lia|lia|].
  intros x Hx. apply elem_of_app in Hx as [Hx|Hx%list_elem_of_singleton]; [auto|].
  subst x. rewrite Hct'. by apply Qle_trans with tt.
Qed.

Lemma frame_loop_inv limit n mt tt s tr s' tr' :
  (tt <= limit)%Q ->
  realtime_inv limit s tr ->
  frame_loop unit_exp n mt tt s tr = InLoop s' tr'
  \/ frame_loop unit_exp n mt tt s tr = Drawn s' tr' ->
  realtime_inv limit s' tr'.
Proof.
  intros Hlim. revert s tr. induction n as [|n IH]; intros s tr Hinv; simpl.
  - intros [[= <- <-]|[=]]. done.
  - destruct (frame_step unit_exp mt tt s tr) as [s1 tr1| |e] eqn:Hstep.
    + apply IH. by eapply frame_step_inv.
    + intros [[=]|[= <- <-]]. done.
    + intros [[=]|[=]].
Qed.

Lemma animate_inv limit n mt frames s tr s' tr' :
  (forall f, f ∈ frames -> (inject_Z f * (mt / 200) <= limit)%Q) ->
  realtime_inv limit s tr ->
  animate unit_exp n mt frames s tr = InLoop s' tr'
  \/ animate unit_exp n mt frames s tr = Drawn s' tr' ->
  realtime_inv limit s' tr'.
Proof.
  revert s tr. induction frames as [|f frames IH]; intros s tr Hf Hinv; simpl.
  - intros [[=]|[= <- <-]]. done.
  - unfold update.
    assert (Hlim : (inject_Z f * (mt / 200) <= limit)%Q) by (apply Hf; by left).
    destruct (frame_loop unit_exp n mt _ s tr) as [s1 tr1|s1 tr1|e] eqn:Hloop.
    + intros [[= <- <-]|[=]].
      eapply (frame_loop_inv limit n mt); [exact Hlim|exact Hinv|left; exact Hloop].
    + apply IH.
      * intros g Hg. apply Hf. by right.
      * eapply (frame_loop_inv limit n mt); [exact Hlim|exact Hinv|right; exact Hloop].
    + intros [[=]|[=]].
Qed.

(** X20: the animation of [realtime_simulation] shows no event of the last
    two hundredth of the time span: with a positive [max_time] and frames
    among 0..199, every recorded time is at most 199/200 of [max_time], so
    the [break] on [max_time] is never taken.  Unlike [run], the callback
    looks at the next event before it removes it: exactly one arrival stays
    pending.  The three lists have one entry per recorded event, and the
    histories of the object, from which [plot_results] draws, stay empty. *)
Theorem realtime_simulation_stops_short n c lam mu max_time frames s tr :
  (0 < max_time)%Q ->
  (forall f, f ∈ frames -> (0 <= f <= 199)%Z) ->
  realtime_simulation unit_exp n c lam mu max_time frames = InLoop s tr
  \/ realtime_simulation unit_exp n c lam mu max_time frames = Drawn s tr ->
  (forall t, t ∈ times tr -> (t <= (199 # 200) * max_time)%Q /\ (t < max_time)%Q) /\
  pending_arrivals s = 1 /\
  length (queue_lengths tr) = length (times tr) /\
  length (customers_in_system tr) = length (times tr) /\
  time_history s = [].
Proof.
  intros Hmt Hframes. unfold realtime_simulation. simpl.
  destruct (schedule_first_arrival unit_exp _) as [s1|e] eqn:H1;
    [|by intros [[=]|[=]]].
  intros Hrun.
  assert (Hinv : realtime_inv ((199 # 200) * max_time) s tr).
  { apply (animate_inv _ n max_time frames s1 (mkTrace [] [] []) s tr); [| |done].
    - intros f Hf. apply Hframes in Hf.
      assert (inject_Z f <= 199)%Q
        by (change 199%Q with (inject_Z 199); rewrite <- Zle_Qle; lia).
      assert (E : (inject_Z f * (max_time / 200) == inject_Z f * max_time * (1 # 200))%Q)
        by field.
      rewrite E. nra.
    - pose proof (schedule_first_arrival_arrivals _ _ _ H1) as Hp.
      apply schedule_first_arrival_Ok in H1 as (q & _ & ->).
      split_and!; try done. intros t Ht. by apply elem_of_nil in Ht. }
  destruct Hinv as (Hp & Hth & Hl1 & Hl2 & Hts). split_and!; try done.
  intros t Ht. apply Hts in Ht. split; [done|]. lra.
Qed.

End RealtimeFacts.

(** * Where exceptions come from *)

Lemma bind_Raise {A B : Type} (r : result A) (k : A -> result B) e :
  bind r k = Raise e -> r = Raise e \/ exists a, r = Ok a /\ k a = Raise e.
Proof. destruct r as [a|e']; simpl; [eauto | intros [= ->]; auto]. Qed.

Section HeapErrors.
Context {A : Type} (lt : A -> A -> result bool).
Implicit Types heap : list A.

(** With its positions inside the list, a heap operation raises only what
    a comparison raised. *)
Lemma siftdown_loop_Raise fuel heap startpos pos newitem e :
  pos < length heap ->
  heapq.siftdown_loop lt fuel heap startpos pos newitem = Raise e ->
  exists a b, lt a b = Raise e.
Proof.
  revert heap pos. induction fuel as [|fuel IH]; intros heap pos Hpos; simpl; [done|].
  destruct (decide (startpos < pos)) as [Hlt|_]; [|done].
  destruct (lookup_lt_is_Some_2 heap ((pos - 1) / 2)) as [parent Hp]; [lia|].
  rewrite Hp. intros H. apply bind_Raise in H as [H|([|] & Hb & H)]; [eauto| |done].
  apply IH in H; [done|]. rewrite length_insert. lia.
Qed.

Lemma _siftdown_Raise heap startpos pos e :
  pos < length heap -> heapq._siftdown lt heap startpos pos = Raise e ->
  exists a b, lt a b = Raise e.
Proof.
  intros Hpos. unfold heapq._siftdown.
  destruct (lookup_lt_is_Some_2 heap pos Hpos) as [newitem ->].
  by apply siftdown_loop_Raise.
Qed.

Lemma smaller_child_Raise heap childpos e :
  heapq.smaller_child lt heap (length heap) childpos = Raise e ->
  exists a b, lt a b = Raise e.
Proof.
  unfold heapq.smaller_child.
  destruct (decide (childpos + 1 < length heap)) as [Hr|_]; [|done].
  destruct (lookup_lt_is_Some_2 heap childpos) as [l ->]; [lia|].
  destruct (lookup_lt_is_Some_2 heap (childpos + 1) Hr) as [r ->].
  intros H. apply bind_Raise in H as [H|(b & _ & H)]; [eauto|done].
Qed.

Lemma siftup_loop_Raise fuel heap pos e :
  heapq.siftup_loop lt fuel heap (length heap) pos = Raise e ->
  exists a b, lt a b = Raise e.
Proof.
  revert heap pos. induction fuel as [|fuel IH]; intros heap pos; simpl; [done|].
  destruct (decide (2 * pos + 1 < length heap)) as [Hlt|_]; [|done].
  intros H. apply bind_Raise in H as [H|(c & Hc & H)];
    [by eapply smaller_child_Raise|].
  apply smaller_child_lookup in Hc as [_ Hclt]; [|done..].
  destruct (lookup_lt_is_Some_2 heap c Hclt) as [x Hx]. rewrite Hx in H.
  apply (IH (<[pos := x]> heap) c). by rewrite length_insert.
Qed.

Lemma _siftup_Raise heap pos e :
  pos < length heap -> heapq._siftup lt heap pos = Raise e ->
  exists a b, lt a b = Raise e.
Proof.
  intros Hpos. unfold heapq._siftup.
  destruct (lookup_lt_is_Some_2 heap pos Hpos) as [newitem ->].
  intros H. apply bind_Raise in H as [H|([h leaf] & Hloop & H)];
    [by eapply siftup_loop_Raise|].
  apply siftup_loop_perm in Hloop as (Hlen & Hleaf & _); [|done..].
  apply _siftdown_Raise in H; [done|]. rewrite length_insert. lia.
Qed.

Lemma heappush_Raise heap item e :
  heapq.heappush lt heap item = Raise e -> exists a b, lt a b = Raise e.
Proof.
  unfold heapq.heappush. apply _siftdown_Raise. rewrite length_app. simpl. lia.
Qed.

Lemma heappop_Raise heap e :
  heap <> [] -> heapq.heappop lt heap = Raise e -> exists a b, lt a b = Raise e.
Proof.
  intros Hne. unfold heapq.heappop.
  destruct (lookup_lt_is_Some_2 heap (length heap - 1)) as [lastelt ->].
  { destruct heap; [done|]. simpl. lia. }
  destruct (take (length heap - 1) heap) as [|r t]; [done|].
  intros H. apply bind_Raise in H as [H|(h & _ & H)]; [|done].
  apply _siftup_Raise in H; [done|]. simpl. lia.
Qed.

End HeapErrors.

Lemma tuple_lt_Raise a b e : tuple_lt a b = Raise e -> e = TypeError.
Proof.
  unfold tuple_lt.
  repeat match goal with |- context [if ?b then _ else _] => destruct b end;
    by intros [= <-].
Qed.

Section EngineErrors.
Variable unit_exp : nat -> Q.

Lemma expovariate_Raise lambd s e :
  expovariate unit_exp lambd s = Raise e -> e = ZeroDivisionError /\ (lambd == 0)%Q.
Proof.
  unfold expovariate, pydiv. destruct (Qeq_bool lambd 0) eqn:E; simpl; [|done].
  intros [= <-]. split; [done|]. by apply Qeq_bool_iff.
Qed.

Lemma generate_service_time_Raise s e :
  generate_service_time unit_exp s = Raise e ->
  e = ZeroDivisionError /\ (service_rate s == 0)%Q.
Proof. apply expovariate_Raise. Qed.

Lemma generate_interarrival_time_Raise s e :
  generate_interarrival_time unit_exp s = Raise e ->
  e = ZeroDivisionError /\ (arrival_rate s == 0)%Q.
Proof. apply expovariate_Raise. Qed.

Lemma schedule_event_Raise s t k c e :
  schedule_event s t k c = Raise e -> e = TypeError.
Proof.
  unfold schedule_event. intros H. apply bind_Raise in H as [H|(q & _ & H)]; [|done].
  apply heappush_Raise in H as (a & b & H). by apply tuple_lt_Raise in H.
Qed.

Lemma add_opt_Raise x y e : add_opt x y = Raise e -> e = TypeError.
Proof. destruct y; simpl; [done | by intros [= <-]]. Qed.

Ltac inv_raise :=
  repeat match goal with
  | H : bind _ _ = Raise _ |- _ => apply bind_Raise in H as [H|(? & ? & H)]
  | H : generate_service_time _ _ = Raise _ |- _ =>
      apply generate_service_time_Raise in H as [-> H]
  | H : generate_interarrival_time _ _ = Raise _ |- _ =>
      apply generate_interarrival_time_Raise in H as [-> H]
  | H : schedule_event _ _ _ _ = Raise _ |- _ => apply schedule_event_Raise in H as ->
  | H : add_opt _ _ = Raise _ |- _ => apply add_opt_Raise in H as ->
  | H : (let '(_, _) := ?p in _) = Raise _ |- _ => destruct p
  | H : (if ?b then _ else _) = Raise _ |- _ => destruct b eqn:?
  | H : match ?x with _ => _ end = Raise _ |- _ => destruct x eqn:?
  | H : Ok _ = Raise _ |- _ => discriminate H
  end.

Lemma handle_arrival_Raise s c e :
  handle_arrival unit_exp s c = Raise e ->
  e = TypeError
  \/ e = ZeroDivisionError /\ ((arrival_rate s == 0)%Q \/ (service_rate s == 0)%Q).
Proof.
  unfold handle_arrival. intros H. inv_raise; inv_calls; simpl in *; auto.
Qed.

Lemma handle_departure_Raise s c e :
  handle_departure unit_exp s c = Raise e ->
  e = TypeError
  \/ e = ZeroDivisionError /\ ((arrival_rate s == 0)%Q \/ (service_rate s == 0)%Q).
Proof.
  unfold handle_departure. intros H. inv_raise; inv_calls; simpl in *; auto.
Qed.

Lemma loop_step_Fail mt mc s e :
  loop_step unit_exp mt mc s = Fail e ->
  e = TypeError
  \/ e = ZeroDivisionError /\ ((arrival_rate s == 0)%Q \/ (service_rate s == 0)%Q).
Proof.
  unfold loop_step. destruct (event_queue s) as [|x l] eqn:Hq; [done|].
  destruct (heapq.heappop tuple_lt _) as [[[[t k] c] q]|e'] eqn:Hpop.
  - destruct (past_max_time mt _); [done|].
    destruct (enough_customers mc _); [done|].
    rewrite process_event_at.
    destruct (k =? "arrival")%string.
    { destruct (handle_arrival _ _ _) as [|e'] eqn:Hh; [done|]. intros [= <-].
      by apply handle_arrival_Raise in Hh. }
    destruct (k =? "departure")%string; [|done].
    destruct (handle_departure _ _ _) as [|e'] eqn:Hh; [done|]. intros [= <-].
    by apply handle_departure_Raise in Hh.
  - intros [= <-]. apply heappop_Raise in Hpop as (a & b & H); [|done].
    left. by apply tuple_lt_Raise in H.
Qed.

Lemma run_loop_Raised n mt mc s e :
  run_loop unit_exp n mt mc s = Raised e ->
  e = TypeError
  \/ e = ZeroDivisionError /\ ((arrival_rate s == 0)%Q \/ (service_rate s == 0)%Q).
Proof.
  revert s. induction n as [|n IH]; intros s; simpl; [done|].
  destruct (loop_step unit_exp mt mc s) as [s'| |e'] eqn:Hstep.
  - intros H. apply IH in H.
    destruct (loop_step_config unit_exp mt mc s s') as (_ & Ha & Hs); [by left|].
    by rewrite Ha, Hs in H.
  - done.
  - intros [= <-]. by apply loop_step_Fail in Hstep.
Qed.

Lemma schedule_first_arrival_Raise s e :
  schedule_first_arrival unit_exp s = Raise e ->
  e = TypeError \/ e = ZeroDivisionError /\ (arrival_rate s == 0)%Q.
Proof.
  unfold schedule_first_arrival. intros H.
  inv_raise; inv_calls; simpl in *; auto.
Qed.

(** X21: whatever the state of the object, the bounds and the draws, a call
    of [run] raises no other exception than TypeError (two tuples of the
    event queue that cannot be compared, or a customer without a service
    start) and ZeroDivisionError, and the latter only when the arrival rate
    or the service rate is zero: no IndexError from the heap or the waiting
    line, no ValueError. *)
Theorem run_raises_only n mt mc s e :
  run unit_exp n mt mc s = Raised e ->
  e = TypeError
  \/ e = ZeroDivisionError /\ ((arrival_rate s == 0)%Q \/ (service_rate s == 0)%Q).
Proof.
  unfold run. destruct (schedule_first_arrival unit_exp s) as [s1|e'] eqn:H1.
  - intros H. apply run_loop_Raised in H.
    apply schedule_first_arrival_Ok in H1 as (q & _ & ->). exact H.
  - intros [= <-]. apply schedule_first_arrival_Raise in H1 as [->|[-> H0]]; auto.
Qed.

End EngineErrors.

(** * The window *)

Section GuiFacts.
Variable unit_exp : nat -> Q.

Lemma validate_parameters_true c lam mu T ask :
  QueueSimulationGUI.validate_parameters c lam mu T ask = true ->
  (1 <= c)%Z /\ (0 < lam)%Q /\ (0 < mu)%Q /\ (0 < T)%Q /\
  (ask = false -> (lam / (inject_Z c * mu) < 1)%Q).
Proof.
  unfold QueueSimulationGUI.validate_parameters.
  destruct (c <? 1)%Z eqn:Hc; [done|]. apply Z.ltb_ge in Hc.
  destruct (Qle_bool lam 0) eqn:Hlam; [done|].
  destruct (Qle_bool mu 0) eqn:Hmu; [done|].
  destruct (Qle_bool T 0) eqn:HT; [done|].
  assert (Hpos : forall x, Qle_bool x 0 = false -> (0 < x)%Q).
  { intros x Hx. apply Qnot_le_lt. intros Hle.
    apply Qle_bool_iff in Hle. congruence. }
  apply Hpos in Hlam, Hmu, HT.
  rewrite (pydiv_pos _ _ (stable_denominator c mu Hc Hmu)).
  destruct (Qle_bool 1 _) eqn:Hrho.
  - intros ->. split_and!; done.
  - intros _. split_and!; try done. intros _. apply Qnot_le_lt. intros Hle.
    apply Qle_bool_iff in Hle. congruence.
Qed.

Lemma run_config n mt mc s0 s :
  run unit_exp n mt mc s0 = Running s \/ run unit_exp n mt mc s0 = Returned s ->
  num_servers s = num_servers s0 /\ arrival_rate s = arrival_rate s0 /\
  service_rate s = service_rate s0.
Proof.
  apply (run_invariant unit_exp
           (fun s => num_servers s = num_servers s0 /\ arrival_rate s = arrival_rate s0
                     /\ service_rate s = service_rate s0)).
  - intros s1 H1. by apply schedule_first_arrival_Ok in H1 as (q & _ & ->).
  - intros s1 s2 (<- & <- & <-) Hl.
    apply (loop_step_config unit_exp mt mc). by left.
  - intros s1 s2 (<- & <- & <-) Hl.
    apply (loop_step_config unit_exp mt mc). by right.
Qed.

(** X22: a run the window starts has passed [validate_parameters], and so
    it cannot fail with a division by zero (only a TypeError of the event
    queue can leave it), it records no event after [max_time], and the
    snapshot [update_results] asks for afterwards is returned. *)
Theorem window_run_is_guarded n c lam mu T k ask r :
  QueueSimulationGUI.run_simulation unit_exp n c lam mu T k ask = Some r ->
  (forall e, r = Raised e -> e = TypeError) /\
  (forall s, r = Returned s ->
     num_servers s = c /\ (1 <= c)%Z /\
     (forall t, t ∈ time_history s -> (t <= T)%Q) /\
     exists d, get_statistics s = Ok d).
Proof.
  unfold QueueSimulationGUI.run_simulation.
  destruct (QueueSimulationGUI.validate_parameters c lam mu T ask) eqn:Hv; [|done].
  apply validate_parameters_true in Hv as (Hc & Hlam & Hmu & HT & _).
  simpl. intros [= <-]. unfold QueueSimulationGUI._run_simulation_thread. simpl.
  set (s0 := mkSim c lam mu 0 [] [] 0 0 0 0 0 0 0 0 0 [] [] [] 0).
  set (mc := if (0 <? k)%Z then Some k else None).
  assert (Hlam0 : ~ (lam == 0)%Q).
  { intros E. rewrite E in Hlam. by apply Qlt_irrefl in Hlam. }
  assert (Hmu0 : ~ (mu == 0)%Q).
  { intros E. rewrite E in Hmu. by apply Qlt_irrefl in Hmu. }
  assert (HT0 : ~ (T == 0)%Q).
  { intros E. rewrite E in HT. by apply Qlt_irrefl in HT. }
  split.
  - intros e. unfold run.
    destruct (schedule_first_arrival unit_exp s0) as [s1|e'] eqn:H1.
    + intros He. apply run_loop_Raised in He as [->|[_ [H0|H0]]]; [done|exfalso..];
        apply schedule_first_arrival_Ok in H1 as (q & _ & ->); simpl in H0; auto.
    + intros [= <-].
      apply schedule_first_arrival_Raise in H1 as [->|[_ H0]]; [done|].
      by destruct Hlam0.
  - intros s Hs.
    destruct (run_config _ _ _ _ _ (or_intror Hs)) as (Hn & _ & _). simpl in Hn.
    split; [done|]. split; [done|]. split.
    + assert (Hp : processed_before T [] s).
      { revert Hs. intros Hs.
        apply (run_invariant unit_exp (processed_before T []) n (Some T) mc s0 s);
          [| | |by right].
        - intros s1 H1. apply schedule_first_arrival_Ok in H1 as (q & _ & ->).
          exists []. split; [done|]. intros t Ht. by apply elem_of_nil in Ht.
        - intros s1 s2 Hp Hl.
          by apply (loop_step_processed_before unit_exp T _ mc s1 s2).
        - intros s1 s2 Hp Hl. by apply loop_step_Break_state in Hl as (q & -> & _). }
      destruct Hp as (processed & Hth & Hle). simpl in Hth. rewrite Hth. exact Hle.
    + apply get_statistics_Ok. intros (_ & _ & H0). lia.
Qed.

End GuiFacts.

(** * The console *)

(** X23: the console stores a server count before it checks it: after
    [set_parameters] has refused a count below one, the application holds
    that count, with its other parameters unchanged, and the next run is
    built with it; after a refused zero the header of the menu, which
    divides by [num_servers * service_rate], raises ZeroDivisionError. *)
Theorem refused_server_count_is_kept a c arrival service time :
  (c < 1)%Z ->
  let a' := InteractiveQueueSimulator.set_parameters a
              (InteractiveQueueSimulator.Value c) arrival service time in
  a' = InteractiveQueueSimulator.mkApp c
         (InteractiveQueueSimulator.arrival_rate a)
         (InteractiveQueueSimulator.service_rate a)
         (InteractiveQueueSimulator.max_time a)
         (InteractiveQueueSimulator.max_customers a) /\
  (forall u n s,
     InteractiveQueueSimulator.run_simulation u n a' = Running s
     \/ InteractiveQueueSimulator.run_simulation u n a' = Returned s ->
     num_servers s = c) /\
  (c = 0%Z ->
   InteractiveQueueSimulator.print_current_parameters a' = Raise ZeroDivisionError).
Proof.
  intros Hc a'. assert (Ha' : a' = InteractiveQueueSimulator.mkApp c
         (InteractiveQueueSimulator.arrival_rate a)
         (InteractiveQueueSimulator.service_rate a)
         (InteractiveQueueSimulator.max_time a)
         (InteractiveQueueSimulator.max_customers a)).
  { unfold a', InteractiveQueueSimulator.set_parameters. simpl.
    by rewrite (proj2 (Z.ltb_lt c 1) Hc). }
  split; [done|]. rewrite Ha'. split.
  - intros u n s Hrun. unfold InteractiveQueueSimulator.run_simulation in Hrun.
    simpl in Hrun. by apply run_config in Hrun as (-> & _).
  - intros ->. unfold InteractiveQueueSimulator.print_current_parameters. simpl.
    apply pydiv_zero. ring.
Qed.

Section BoundFacts.
Variable unit_exp : nat -> Q.

Lemma past_max_time_zero m t : (m == 0)%Q -> past_max_time (Some m) t = false.
Proof.
  intros Hm. unfold past_max_time, truthy_float.
  by rewrite (proj2 (Qeq_bool_iff m 0) Hm).
Qed.

Lemma run_loop_zero_time m n mc s :
  (m == 0)%Q ->
  run_loop unit_exp n (Some m) mc s = run_loop unit_exp n None mc s.
Proof.
  intros Hm. revert s. induction n as [|n IH]; intros s; simpl; [done|].
  assert (Hstep : loop_step unit_exp (Some m) mc s = loop_step unit_exp None mc s).
  { unfold loop_step. destruct (event_queue s); [done|].
    destruct (heapq.heappop tuple_lt _) as [[ev q]|err]; [|done].
    by rewrite past_max_time_zero. }
  rewrite Hstep. by destruct (loop_step unit_exp None mc s).
Qed.

(** X24: a [max_time] of zero is no bound at all: the call behaves as
    without [max_time], and when [max_customers] is absent or zero as well
    it never returns.  The console accepts such a [max_time]; the window
    refuses it. *)
Theorem zero_max_time_is_no_bound m n mc s :
  (m == 0)%Q ->
  run unit_exp n (Some m) mc s = run unit_exp n None mc s /\
  (mc = None \/ mc = Some 0%Z ->
   forall s', run unit_exp n (Some m) mc s <> Returned s').
Proof.
  intros Hm.
  assert (Heq : run unit_exp n (Some m) mc s = run unit_exp n None mc s).
  { unfold run. destruct (schedule_first_arrival unit_exp s); [|done].
    by apply run_loop_zero_time. }
  split; [done|]. rewrite Heq. intros Hmc s' Hrun.
  assert (Hrun' : run unit_exp n None None s = Returned s').
  { destruct Hmc as [->| ->]; [done|]. rewrite <- Hrun. unfold run.
    destruct (schedule_first_arrival unit_exp s); [|done].
    symmetry. apply run_loop_zero_customers. }
  apply run_Returned in Hrun' as (s1 & H1 & Hloop).
  apply schedule_first_arrival_arrivals in H1.
  revert Hloop.
  apply (run_loop_Returned unit_exp (fun s => 0 < pending_arrivals s) (fun _ => False));
    [| |lia].
  - intros s2 s3 H2 Hl. by rewrite (loop_step_arrivals _ _ _ _ _ Hl).
  - intros s2 s3 H2 Hl. exact (loop_step_no_bound unit_exp s2 s3 H2 Hl).
Qed.

(** Without a server nobody is served. *)
Lemma loop_step_no_server mt mc s s' :
  (num_servers s <= 0)%Z /\ busy_servers s = 0%Z /\ customers_served s = 0%Z /\
  pending_departures s = 0 /\ len (waiting_queue s) = customers_arrived s ->
  loop_step unit_exp mt mc s = Continue s' ->
  (num_servers s' <= 0)%Z /\ busy_servers s' = 0%Z /\ customers_served s' = 0%Z /\
  pending_departures s' = 0 /\ len (waiting_queue s') = customers_arrived s'.
Proof.
  intros (Hn & Hb & Hs & Hd & Hw) Hl.
  destruct (loop_step_config unit_exp mt mc s s' (or_introl Hl)) as (Hn' & _ & _).
  apply loop_step_handler in Hl as (t & k & c & q & Hpop & _ & _ & Hcase).
  pose proof (heappop_count "departure" _ _ _ Hpop) as Hcount. simpl in Hcount.
  unfold pending_departures in Hd. rewrite Hcount in Hd.
  destruct Hcase as [[-> Hh]|[[-> Hh]|(_ & _ & ->)]].
  - pose proof (handle_arrival_frame _ _ _ _ Hh)
      as (_ & _ & _ & _ & _ & _ & _ & _ & Hserved & Harr & _).
    apply handle_arrival_counts in Hh as [_ [(Hlt & _)|(_ & Hb' & Hd' & Hw')]];
      simpl in *; [lia|].
    rewrite Hn', Hb', Hd', Hw', Hserved, Harr. unfold pending_departures. simpl.
    unfold len in *. rewrite length_app. simpl. split_and!; lia.
  - simpl in Hd. lia.
  - simpl. unfold pending_departures. simpl. split_and!; try done. lia.
Qed.

(** X25: an object built with no server, or a negative count, serves
    nobody: during and after a call of [run] on the fresh object no server
    is busy, no departure is pending, nobody has been served, and every
    customer that has arrived is waiting. *)
Theorem no_server_no_service c lam mu s0 n mt mc s :
  (c <= 0)%Z ->
  init c lam mu = Ok s0 ->
  run unit_exp n mt mc s0 = Running s \/ run unit_exp n mt mc s0 = Returned s ->
  busy_servers s = 0%Z /\ customers_served s = 0%Z /\ pending_departures s = 0 /\
  len (waiting_queue s) = customers_arrived s.
Proof.
  intros Hc [= <-] Hrun.
  enough (H : (num_servers s <= 0)%Z /\ busy_servers s = 0%Z /\
              customers_served s = 0%Z /\ pending_departures s = 0 /\
              len (waiting_queue s) = customers_arrived s) by tauto.
  revert Hrun.
  apply (run_invariant unit_exp
           (fun s => (num_servers s <= 0)%Z /\ busy_servers s = 0%Z /\
                     customers_served s = 0%Z /\ pending_departures s = 0 /\
                     len (waiting_queue s) = customers_arrived s)).
  - intros s1 H1.
    assert (Hd : pending_departures s1 = 0).
    { apply schedule_first_arrival_Ok in H1 as (q & Hq & ->).
      apply (heappush_count "departure") in Hq. unfold pending_departures. simpl in *.
      exact Hq. }
    apply schedule_first_arrival_Ok in H1 as (q & _ & ->). simpl. done.
  - intros s1 s2. apply loop_step_no_server.
  - intros s1 s2 (Hn & Hb & Hs & Hd & Hw) Hl.
    apply loop_step_Break in Hl as [[_ ->]|(e & q & Hpop & -> & _)]; [done|].
    simpl. split_and!; try done.
    pose proof (heappop_count "departure" _ _ _ Hpop) as Hcount.
    unfold pending_departures in *. simpl. lia.
Qed.

End BoundFacts.

(** X26: whenever [get_theoretical_statistics] returns, its result either
    carries a note, and then it holds nothing but the note and a
    utilization of one or more, or it carries none, and then the utilization
    is below one and all four averages are there as floats: the test
    ['note' in theo_stats] of [compare_theoretical] protects every later
    lookup. *)
Theorem theoretical_statistics_note_or_averages s d :
  get_theoretical_statistics s = Ok d ->
  (exists rho, (1 <= rho)%Q /\
     d = [ ("utilization", VFloat rho);
           ("note", VStr "System is unstable (ρ >= 1)") ])
  \/ (dict_get d "note" = None /\
      (exists rho, (rho < 1)%Q /\ dict_get d "utilization" = Some (VFloat rho)) /\
      forall k, k ∈ compared_keys -> exists x, dict_get d k = Some (VFloat x)).
Proof.
  unfold get_theoretical_statistics. intros H.
  apply bind_Ok in H as (c_float & _ & H).
  apply bind_Ok in H as (rho & _ & H).
  destruct (Qle_bool 1 rho) eqn:Hrho.
  - left. exists rho. split; [by apply Qle_bool_iff|]. by injection H as <-.
  - right. apply bind_Ok in H as ([[[L Lq] W] Wq] & _ & [= <-]).
    split; [reflexivity|]. split.
    + exists rho. split; [|reflexivity]. apply Qnot_le_lt. intros Hle.
      apply Qle_bool_iff in Hle. congruence.
    + intros k Hk.
      assert (Hall : Forall (fun k => exists x,
                dict_get [ ("utilization", VFloat rho);
                           ("avg_customers_in_system", VFloat L);
                           ("avg_customers_in_queue", VFloat Lq);
                           ("avg_time_in_system", VFloat W);
                           ("avg_time_in_queue", VFloat Wq) ] k = Some (VFloat x))
                compared_keys)
        by (repeat constructor; by eexists).
      by apply (proj1 (Forall_forall _ _) Hall).
Qed.

(** * The properties above at concrete runs *)

(** One server, arrivals at 1, 2, 3, ..., service times of 9/2: after four
    events one customer is in service and three wait. *)
Lemma run_keeps_customers_balance_witness :
  exists s0 s,
    init 1 1 (2 # 9) = Ok s0 /\
    run (constant_draws 1) 4 None None s0 = Running s /\
    customers_arrived s
    = (customers_served s + len (waiting_queue s) + busy_servers s)%Z /\
    customers_arrived s = 4%Z.
Proof.
  eexists _, _. split; [reflexivity|].
  match goal with
  | |- run ?u ?n ?mt ?mc ?s0 = Running ?s /\ _ =>
      assert (Hrun : run u n mt mc s0 = Running s) by (vm_compute; reflexivity);
      pose proof (run_keeps_customers_balance u s0 n mt mc s eq_refl (or_introl Hrun))
        as Hbalance
  end.
  split; [exact Hrun|]. split; [exact Hbalance | reflexivity].
Defined.

Lemma run_is_work_conserving_witness :
  exists s0 s,
    init 1 1 (2 # 9) = Ok s0 /\
    run (constant_draws 1) 4 None None s0 = Running s /\
    len (waiting_queue s) = 3%Z /\
    busy_servers s = num_servers s.
Proof.
  eexists _, _. split; [reflexivity|].
  match goal with
  | |- run ?u ?n ?mt ?mc ?s0 = Running ?s /\ _ =>
      assert (Hrun : run u n mt mc s0 = Running s) by (vm_compute; reflexivity);
      assert (Hw : waiting_queue s <> []) by (intros H; discriminate H);
      pose proof (run_is_work_conserving u s0 n mt mc s
                    (init_servers_inv 1 1 (2 # 9) s0 eq_refl ltac:(lia))
                    (fun H => match H eq_refl with end)
                    (or_introl Hrun) Hw) as Hbusy
  end.
  split; [exact Hrun|]. split; [reflexivity | exact Hbusy].
Defined.

Lemma histories_are_parallel_witness :
  exists s0 s,
    init 1 1 (2 # 9) = Ok s0 /\
    run (constant_draws 1) 6 None None s0 = Running s /\
    customers_arrived s = 5%Z /\ customers_served s = 1%Z /\
    Z.of_nat (length (time_history s)) = (customers_arrived s + customers_served s)%Z /\
    length (queue_length_history s) = length (time_history s) /\
    length (customers_in_system_history s) = length (time_history s).
Proof.
  eexists _, _. split; [reflexivity|].
  match goal with
  | |- run ?u ?n ?mt ?mc ?s0 = Running ?s /\ _ =>
      assert (Hrun : run u n mt mc s0 = Running s) by (vm_compute; reflexivity);
      pose proof (histories_are_parallel u 1 1 (2 # 9) s0 n mt mc s eq_refl
                    (or_introl Hrun)) as Hpar
  end.
  split; [exact Hrun|]. split; [reflexivity|]. split; [reflexivity | exact Hpar].
Defined.

(** A bound of 26/5: the events at 1, ..., 5 are processed, the arrival at
    6 ends the call. *)
Lemma run_respects_max_time_witness :
  exists s0 s,
    init 1 1 (2 # 9) = Ok s0 /\
    run (constant_draws 1) 10 (Some (26 # 5)) None s0 = Returned s /\
    time_history s = [1; 2; 3; 4; 5]%Q /\
    exists processed,
      time_history s = time_history s0 ++ processed /\
      forall t, t ∈ processed -> (t <= 26 # 5)%Q.
Proof.
  eexists _, _. split; [reflexivity|].
  match goal with
  | |- run ?u ?n (Some ?m) ?mc ?s0 = Returned ?s /\ _ =>
      assert (Hrun : run u n (Some m) mc s0 = Returned s) by (vm_compute; reflexivity);
      assert (Hm : ~ (m == 0)%Q) by (intros H; discriminate H);
      pose proof (run_respects_max_time u m s0 n mc s Hm (or_intror Hrun)) as Hbound
  end.
  split; [exact Hrun|]. split; [reflexivity | exact Hbound].
Defined.

(** Service times of 1/2 and a limit of two customers: the call returns
    when the third arrival is taken from the queue. *)
Lemma run_respects_max_customers_witness :
  exists s0 s,
    init 1 1 2 = Ok s0 /\
    run (constant_draws 1) 10 None (Some 2%Z) s0 = Returned s /\
    customers_served s = 2%Z /\
    (customers_served s <= 2)%Z.
Proof.
  eexists _, _. split; [reflexivity|].
  match goal with
  | |- run ?u ?n ?mt (Some ?k) ?s0 = Returned ?s /\ _ =>
      assert (Hrun : run u n mt (Some k) s0 = Returned s) by (vm_compute; reflexivity);
      pose proof (run_respects_max_customers u k s0 n mt s ltac:(lia) ltac:(simpl; lia)
                    (or_intror Hrun)) as Hbound
  end.
  split; [exact Hrun|]. split; [reflexivity | exact Hbound].
Defined.

Lemma waiting_time_within_system_time_witness :
  exists s0 s,
    init 1 1 (2 # 9) = Ok s0 /\
    run (constant_draws 1) 12 None None s0 = Running s /\
    customers_served s = 2%Z /\
    (0 <= total_waiting_time s)%Q /\ (total_waiting_time s <= total_system_time s)%Q.
Proof.
  eexists _, _. split; [reflexivity|].
  match goal with
  | |- run ?u ?n ?mt ?mc ?s0 = Running ?s /\ _ =>
      assert (Hrun : run u n mt mc s0 = Running s) by (vm_compute; reflexivity);
      pose proof (waiting_time_within_system_time u constant_draws_nonneg
                    1 1 (2 # 9) s0 n mt mc s eq_refl eq_refl eq_refl
                    (or_introl Hrun)) as Hbound
  end.
  split; [exact Hrun|]. split; [reflexivity | exact Hbound].
Defined.

Lemma average_waiting_within_average_system_witness :
  exists s0 s d w y,
    init 1 1 (2 # 9) = Ok s0 /\
    run (constant_draws 1) 12 None None s0 = Running s /\
    get_statistics s = Ok d /\
    dict_get d "avg_waiting_time" = Some (VFloat w) /\
    dict_get d "avg_system_time" = Some (VFloat y) /\
    (0 <= w)%Q /\ (w <= y)%Q.
Proof.
  eexists _, _, _.
  match goal with
  | |- exists w y, init _ _ _ = Ok ?s0 /\ run ?u ?n ?mt ?mc _ = Running ?s /\
                   get_statistics _ = Ok ?d /\ _ =>
      unify s0 (mkSim 1 1 (2 # 9) 0 [] [] 0 0 0 0 0 0 0 0 0 [] [] [] 0);
      assert (Hrun : run u n mt mc s0 = Running s) by (vm_compute; reflexivity);
      assert (Hd : get_statistics s = Ok d) by (vm_compute; reflexivity);
      assert (Hs : customers_served s <> 0%Z) by (intros H; discriminate H);
      destruct (average_waiting_within_average_system u constant_draws_nonneg
                  1 1 (2 # 9) s0 n mt mc s d eq_refl eq_refl eq_refl
                  (or_introl Hrun) Hs Hd) as (w & y & Hw & Hy & Hbound)
  end.
  exists w, y. split; [reflexivity|]. split; [exact Hrun|]. split; [exact Hd|].
  split; [exact Hw|]. split; [exact Hy | exact Hbound].
Defined.

Lemma queue_length_sum_is_integral_witness :
  exists s0 s,
    init 1 1 (2 # 9) = Ok s0 /\
    run (constant_draws 1) 4 None None s0 = Running s /\
    queue_length_history s = [0; 0; 1; 2]%Z /\
    (queue_length_sum s
     == weighted_length 0 (time_history s) (queue_length_history s))%Q /\
    max_queue_length s = max_length (queue_length_history s).
Proof.
  eexists _, _. split; [reflexivity|].
  match goal with
  | |- run ?u ?n ?mt ?mc ?s0 = Running ?s /\ _ =>
      assert (Hrun : run u n mt mc s0 = Running s) by (vm_compute; reflexivity);
      pose proof (queue_length_sum_is_integral u 1 1 (2 # 9) s0 n mt mc s eq_refl
                    (or_introl Hrun)) as Hsum
  end.
  split; [exact Hrun|]. split; [reflexivity | exact Hsum].
Defined.

Lemma ids_follow_arrival_order_witness :
  exists s0 s,
    init 1 1 (2 # 9) = Ok s0 /\
    run (constant_draws 1) 4 None None s0 = Running s /\
    map id (waiting_queue s) = [1; 2; 3]%Z /\
    next_customer_id s = (customers_arrived s + 1)%Z /\
    (forall e, e ∈ event_queue s -> ev_type e = "arrival" ->
       id (ev_data e) = customers_arrived s) /\
    (forall c, c ∈ waiting_queue s -> (0 <= id c < customers_arrived s)%Z) /\
    increasing_ids (waiting_queue s).
Proof.
  eexists _, _. split; [reflexivity|].
  match goal with
  | |- run ?u ?n ?mt ?mc ?s0 = Running ?s /\ _ =>
      assert (Hrun : run u n mt mc s0 = Running s) by (vm_compute; reflexivity);
      pose proof (ids_follow_arrival_order u 1 1 (2 # 9) s0 n mt mc s eq_refl
                    (or_introl Hrun)) as Hids
  end.
  split; [exact Hrun|]. split; [reflexivity | exact Hids].
Defined.

Lemma get_statistics_has_displayed_keys_witness :
  exists s0 s d,
    init 1 1 (2 # 9) = Ok s0 /\
    run (constant_draws 1) 6 None None s0 = Running s /\
    get_statistics s = Ok d /\
    dict_get d "customers_served" = Some (VInt 1) /\
    forall k, k ∈ displayed_keys -> is_Some (dict_get d k).
Proof.
  eexists _, _, _. split; [reflexivity|].
  match goal with
  | |- run ?u ?n ?mt ?mc ?s0 = Running ?s /\ get_statistics _ = Ok ?d /\ _ =>
      assert (Hrun : run u n mt mc s0 = Running s) by (vm_compute; reflexivity);
      assert (Hd : get_statistics s = Ok d) by (vm_compute; reflexivity);
      pose proof (get_statistics_has_displayed_keys s d Hd) as Hkeys
  end.
  split; [exact Hrun|]. split; [exact Hd|]. split; [reflexivity | exact Hkeys].
Defined.


(** One customer has departed at 11/2 after a service of 9/2 on the one
    server: a utilization of 9/11. *)
Lemma server_utilization_is_service_time_over_capacity_witness :
  exists s0 s d u,
    init 1 1 (2 # 9) = Ok s0 /\
    run (constant_draws 1) 6 None None s0 = Running s /\
    get_statistics s = Ok d /\
    dict_get d "server_utilization" = Some (VFloat u) /\
    (u == 9 # 11)%Q.
Proof.
  eexists _, _, _.
  match goal with
  | |- exists u, init _ _ _ = Ok ?s0 /\ run ?dr ?n ?mt ?mc _ = Running ?s /\
                 get_statistics _ = Ok ?d /\ _ =>
      unify s0 (mkSim 1 1 (2 # 9) 0 [] [] 0 0 0 0 0 0 0 0 0 [] [] [] 0);
      assert (Hrun : run dr n mt mc s0 = Running s) by (vm_compute; reflexivity);
      assert (Hd : get_statistics s = Ok d) by (vm_compute; reflexivity);
      destruct (server_utilization_is_service_time_over_capacity s d)
        as (u & Hu & Hval); [intros H; discriminate H | reflexivity | exact Hd |]
  end.
  exists u. split; [reflexivity|]. split; [exact Hrun|]. split; [exact Hd|].
  split; [exact Hu|]. rewrite Hval. reflexivity.
Defined.

(** One server, [lambda = 4/5], [mu = 1]: [L = 4] and [W = 5]. *)
Lemma mm1_predictions_are_consistent_witness :
  exists s rho L Lq W Wq,
    init 1 (4 # 5) 1 = Ok s /\
    get_theoretical_statistics s
    = Ok [ ("utilization", VFloat rho);
           ("avg_customers_in_system", VFloat L);
           ("avg_customers_in_queue", VFloat Lq);
           ("avg_time_in_system", VFloat W);
           ("avg_time_in_queue", VFloat Wq) ] /\
    (L == (4 # 5) * W)%Q /\ (Lq == (4 # 5) * Wq)%Q /\
    (W == Wq + 1 / 1)%Q /\ (L == Lq + rho)%Q.
Proof.
  eexists.
  match goal with
  | |- exists rho L Lq W Wq, init _ _ _ = Ok ?s /\ _ =>
      unify s (mkSim 1 (4 # 5) 1 0 [] [] 0 0 0 0 0 0 0 0 0 [] [] [] 0);
      destruct (mm1_predictions_are_consistent s)
        as (rho & L & Lq & W & Wq & Hd & Hlaws);
        [reflexivity | split; by vm_compute | split; by vm_compute | reflexivity |]
  end.
  exists rho, L, Lq, W, Wq. split; [reflexivity|]. split; [exact Hd | exact Hlaws].
Defined.

(** No arrivals and a service rate of 2, with 1, 2 and 171 servers. *)
Lemma zero_arrival_rate_prediction_witness :
  (exists s d, init 1 0 2 = Ok s /\ get_theoretical_statistics s = Ok d) /\
  (exists s, init 2 0 2 = Ok s /\
     get_theoretical_statistics s = Raise ZeroDivisionError) /\
  (exists s, init 171 0 2 = Ok s /\
     get_theoretical_statistics s = Raise OverflowError).
Proof.
  split_and!.
  - eexists.
    match goal with
    | |- exists d, init _ _ _ = Ok ?s /\ _ =>
        unify s (mkSim 1 0 2 0 [] [] 0 0 0 0 0 0 0 0 0 [] [] [] 0);
        destruct (zero_arrival_rate_prediction s) as (Hone & _ & _);
          [reflexivity | reflexivity |];
        destruct (Hone eq_refl) as (rho & L & Lq & W & Wq & Hd & _);
          [split; by vm_compute|]
    end.
    eexists. split; [reflexivity | exact Hd].
  - eexists. split; [reflexivity|].
    match goal with
    | |- get_theoretical_statistics ?s = _ =>
        destruct (zero_arrival_rate_prediction s) as (_ & Hmany & _);
          [reflexivity | reflexivity |]
    end.
    apply Hmany. simpl. lia.
  - eexists. split; [reflexivity|].
    match goal with
    | |- get_theoretical_statistics ?s = _ =>
        destruct (zero_arrival_rate_prediction s) as (_ & _ & Hbig);
          [reflexivity | reflexivity |]
    end.
    apply Hbig. simpl. lia.
Defined.

(** [2^1024] servers; no server; minus one server with equal rates, where
    the power is 1; minus 1000 servers with [lambda / mu = 1/4], where the
    power is [4^1000]. *)
Lemma theoretical_statistics_raise_witness :
  (exists s, init (2 ^ 1024) 1 1 = Ok s /\
     get_theoretical_statistics s = Raise OverflowError) /\
  (exists s, init 0 1 1 = Ok s /\
     get_theoretical_statistics s = Raise ZeroDivisionError) /\
  (exists s, init (-1) 1 1 = Ok s /\
     get_theoretical_statistics s = Raise ValueError) /\
  (exists s, init (-1000) 1 4 = Ok s /\
     get_theoretical_statistics s = Raise OverflowError).
Proof.
  split_and!; (eexists; split; [reflexivity|]).
  - match goal with
    | |- get_theoretical_statistics ?s = _ =>
        destruct (theoretical_statistics_raise s) as (Hhuge & _)
    end.
    apply Hhuge. by vm_compute.
  - match goal with
    | |- get_theoretical_statistics ?s = _ =>
        destruct (theoretical_statistics_raise s) as (_ & Hzero & _)
    end.
    apply Hzero; [by vm_compute | reflexivity].
  - match goal with
    | |- get_theoretical_statistics ?s = _ =>
        destruct (theoretical_statistics_raise s) as (_ & _ & Hvalue & _)
    end.
    apply Hvalue; [simpl; lia | split; by vm_compute | split; by vm_compute
                  | by vm_compute].
  - match goal with
    | |- get_theoretical_statistics ?s = _ =>
        destruct (theoretical_statistics_raise s) as (_ & _ & _ & Hpower)
    end.
    apply Hpower; [simpl; lia | split; by vm_compute | split; by vm_compute
                  | by vm_compute].
Defined.

(** Three servers, [lambda = 2], [mu = 1]. *)
Lemma stable_predictions_are_ordered_witness :
  exists s rho L Lq W Wq,
    init 3 2 1 = Ok s /\
    get_theoretical_statistics s
    = Ok [ ("utilization", VFloat rho);
           ("avg_customers_in_system", VFloat L);
           ("avg_customers_in_queue", VFloat Lq);
           ("avg_time_in_system", VFloat W);
           ("avg_time_in_queue", VFloat Wq) ] /\
    (0 <= Lq)%Q /\ (Lq <= L)%Q /\ (0 <= Wq)%Q /\ (Wq <= W)%Q.
Proof.
  eexists.
  match goal with
  | |- exists rho L Lq W Wq, init _ _ _ = Ok ?s /\ _ =>
      unify s (mkSim 3 2 1 0 [] [] 0 0 0 0 0 0 0 0 0 [] [] [] 0);
      destruct (stable_predictions_are_ordered s)
        as (rho & L & Lq & W & Wq & Hd & Hord);
        [simpl; lia | split; by vm_compute | split; by vm_compute | by vm_compute |]
  end.
  exists rho, L, Lq, W, Wq. split; [reflexivity|]. split; [exact Hd | exact Hord].
Defined.

(** A departure at 11/2 is scheduled while the first arrival, at 1, is
    pending. *)
Lemma schedule_event_adds_the_event_witness :
  exists s0 s c s',
    init 1 1 (2 # 9) = Ok s0 /\
    schedule_first_arrival (constant_draws 1) s0 = Ok s /\
    length (event_queue s) = 1 /\
    schedule_event s (11 # 2) "departure" c = Ok s' /\
    event_queue s' ≡ₚ (11 # 2, "departure", c)%Q :: event_queue s /\
    s' = set_event_queue s (event_queue s').
Proof.
  eexists _, _, (mkCustomer 7 1 (Some 1%Q) None).
  match goal with
  | |- exists s', init _ _ _ = Ok ?s0 /\ schedule_first_arrival ?u _ = Ok ?s /\ _ =>
      unify s0 (mkSim 1 1 (2 # 9) 0 [] [] 0 0 0 0 0 0 0 0 0 [] [] [] 0);
      assert (H1 : schedule_first_arrival u s0 = Ok s) by (vm_compute; reflexivity);
      destruct (schedule_event_adds_the_event s (11 # 2) "departure"
                  (mkCustomer 7 1 (Some 1%Q) None))
        as (s' & Hs' & Hperm & Hframe & _)
  end.
  { intros y Hy. apply elem_of_cons in Hy as [->|Hy]; [reflexivity|].
    apply elem_of_nil in Hy. destruct Hy. }
  exists s'. split; [reflexivity|]. split; [exact H1|]. split; [reflexivity|].
  split; [exact Hs'|]. split; [exact Hperm | exact Hframe].
Defined.

(** A first call stops on its pending arrival; after [reset], five draws
    later, the next call has one arrival pending. *)
Lemma run_after_reset_witness :
  exists s0 s s1 s2,
    init 1 1 (2 # 9) = Ok s0 /\
    run (constant_draws 1) 10 (Some (26 # 5)) None s0 = Returned s /\
    reset s = Ok s1 /\
    run (constant_draws 1) 2 None None s1 = Running s2 /\
    rng_index s1 = rng_index s /\
    pending_arrivals s2 = 1.
Proof.
  eexists _, _, _, _. split; [reflexivity|].
  match goal with
  | |- run ?u ?n ?mt ?mc ?s0 = Returned ?s /\ reset _ = Ok ?s1 /\
       run _ ?n2 ?mt2 ?mc2 _ = Running ?s2 /\ _ =>
      assert (Hrun : run u n mt mc s0 = Returned s) by (vm_compute; reflexivity);
      assert (Hreset : reset s = Ok s1) by (vm_compute; reflexivity);
      assert (Hrun2 : run u n2 mt2 mc2 s1 = Running s2) by (vm_compute; reflexivity);
      destruct (run_after_reset u s s1 n2 mt2 mc2 s2 Hreset Hrun2)
        as (_ & Hrng & Hone)
  end.
  split; [exact Hrun|]. split; [exact Hreset|]. split; [exact Hrun2|].
  split; [exact Hrng | exact Hone].
Defined.

(** After the first event the arrival at 2 and the departure at 11/2 are
    pending: the arrival is taken. *)
Lemma run_takes_the_least_event_witness :
  exists s0 s e q y,
    init 1 1 (2 # 9) = Ok s0 /\
    run (constant_draws 1) 1 None None s0 = Running s /\
    heapq.heappop tuple_lt (event_queue s) = Ok (e, q) /\
    ev_type e = "arrival" /\ y ∈ q /\ ev_type y = "departure" /\
    ((ev_time e < ev_time y)%Q
     \/ (ev_time e == ev_time y)%Q /\ (ev_type e <=? ev_type y)%string = true).
Proof.
  eexists _, _, _, _, _. split; [reflexivity|].
  match goal with
  | |- run ?u ?n ?mt ?mc ?s0 = Running ?s /\ heapq.heappop _ _ = Ok (?e, ?q) /\
       _ /\ ?y ∈ _ /\ _ =>
      assert (Hrun : run u n mt mc s0 = Running s) by (vm_compute; reflexivity);
      assert (Hpop : heapq.heappop tuple_lt (event_queue s) = Ok (e, q))
        by (vm_compute; reflexivity);
      assert (Hy : y ∈ q) by (left);
      pose proof (run_takes_the_least_event u 1 1 (2 # 9) s0 n mt mc s e q
                    eq_refl Hrun Hpop y Hy) as Hleast
  end.
  split; [exact Hrun|]. split; [exact Hpop|]. split; [reflexivity|].
  split; [exact Hy|]. split; [reflexivity | exact Hleast].
Defined.

(** Frames 0 to 3 of a span of 100, that is target times 0, 1/2, 1 and
    3/2: the arrival at 1 is the one event shown. *)
Lemma realtime_simulation_stops_short_witness :
  exists s tr,
    realtime_simulation (constant_draws 1) 5 1 1 (2 # 9) 100 [0; 1; 2; 3]%Z
    = Drawn s tr /\
    times tr = [1%Q] /\
    (forall t, t ∈ times tr -> (t <= (199 # 200) * 100)%Q /\ (t < 100)%Q) /\
    pending_arrivals s = 1 /\
    length (queue_lengths tr) = length (times tr) /\
    length (customers_in_system tr) = length (times tr) /\
    time_history s = [].
Proof.
  eexists _, _.
  match goal with
  | |- realtime_simulation ?u ?n ?c ?lam ?mu ?T ?frames = Drawn ?s ?tr /\ _ =>
      assert (Hrun : realtime_simulation u n c lam mu T frames = Drawn s tr)
        by (vm_compute; reflexivity);
      assert (Hframes : forall f, f ∈ frames -> (0 <= f <= 199)%Z)
        by (intros f Hf;
            repeat (apply elem_of_cons in Hf as [->|Hf]; [lia|]);
            apply elem_of_nil in Hf; destruct Hf);
      pose proof (realtime_simulation_stops_short u n c lam mu T frames s tr
                    eq_refl Hframes (or_intror Hrun)) as Hshort
  end.
  split; [exact Hrun|]. split; [reflexivity | exact Hshort].
Defined.

(** An arrival rate of zero: the first draw raises. *)
Lemma run_raises_only_witness :
  exists s0 e,
    init 1 0 1 = Ok s0 /\
    run (constant_draws 1) 3 None None s0 = Raised e /\
    (e = TypeError
     \/ e = ZeroDivisionError /\ ((arrival_rate s0 == 0)%Q \/ (service_rate s0 == 0)%Q)).
Proof.
  eexists _, _. split; [reflexivity|].
  match goal with
  | |- run ?u ?n ?mt ?mc ?s0 = Raised ?e /\ _ =>
      assert (Hrun : run u n mt mc s0 = Raised e) by (vm_compute; reflexivity);
      pose proof (run_raises_only u n mt mc s0 e Hrun) as Hkind
  end.
  split; [exact Hrun | exact Hkind].
Defined.

(** One server, [lambda = 1], [mu = 2], a span of 3 and no limit on the
    customers: the departure at 7/2 ends the run. *)
Lemma window_run_is_guarded_witness :
  exists s d,
    QueueSimulationGUI.run_simulation (constant_draws 1) 10 1 1 2 3 0 false
    = Some (Returned s) /\
    time_history s = [1; 3 # 2; 2; 5 # 2; 3]%Q /\
    num_servers s = 1%Z /\
    (forall t, t ∈ time_history s -> (t <= 3)%Q) /\
    get_statistics s = Ok d.
Proof.
  eexists.
  match goal with
  | |- exists d, QueueSimulationGUI.run_simulation ?u ?n ?c ?lam ?mu ?T ?k ?ask
                 = Some (Returned ?s) /\ _ =>
      assert (Hrun : QueueSimulationGUI.run_simulation u n c lam mu T k ask
                     = Some (Returned s)) by (vm_compute; reflexivity);
      destruct (window_run_is_guarded u n c lam mu T k ask (Returned s) Hrun)
        as [_ Hret];
      destruct (Hret s eq_refl) as (Hn & _ & Hbound & d & Hd)
  end.
  exists d. split; [exact Hrun|]. split; [vm_compute; reflexivity|].
  split; [exact Hn|]. split; [exact Hbound | exact Hd].
Defined.

(** The answer 0 to the first prompt of the console. *)
Lemma refused_server_count_is_kept_witness :
  let a' := InteractiveQueueSimulator.set_parameters InteractiveQueueSimulator.__init__
              (InteractiveQueueSimulator.Value 0%Z) InteractiveQueueSimulator.Blank
              InteractiveQueueSimulator.Blank InteractiveQueueSimulator.Blank in
  InteractiveQueueSimulator.num_servers a' = 0%Z /\
  InteractiveQueueSimulator.print_current_parameters a' = Raise ZeroDivisionError.
Proof.
  intros a'.
  destruct (refused_server_count_is_kept InteractiveQueueSimulator.__init__ 0
              InteractiveQueueSimulator.Blank InteractiveQueueSimulator.Blank
              InteractiveQueueSimulator.Blank ltac:(lia)) as (Ha & _ & Hmenu).
  split; [reflexivity | exact (Hmenu eq_refl)].
Defined.

Lemma zero_max_time_is_no_bound_witness :
  exists s0,
    init 1 1 2 = Ok s0 /\
    run (constant_draws 1) 20 (Some 0%Q) None s0
    = run (constant_draws 1) 20 None None s0 /\
    forall s', run (constant_draws 1) 20 (Some 0%Q) None s0 <> Returned s'.
Proof.
  eexists. split; [reflexivity|].
  match goal with
  | |- run ?u ?n (Some ?m) ?mc ?s0 = _ /\ _ =>
      destruct (zero_max_time_is_no_bound u m n mc s0 (Qeq_refl 0)) as [Heq Hnever]
  end.
  split; [exact Heq | exact (Hnever (or_introl eq_refl))].
Defined.

(** No server: after three events three customers wait. *)
Lemma no_server_no_service_witness :
  exists s0 s,
    init 0 1 1 = Ok s0 /\
    run (constant_draws 1) 3 None None s0 = Running s /\
    customers_arrived s = 3%Z /\
    busy_servers s = 0%Z /\ customers_served s = 0%Z /\ pending_departures s = 0 /\
    len (waiting_queue s) = customers_arrived s.
Proof.
  eexists _, _. split; [reflexivity|].
  match goal with
  | |- run ?u ?n ?mt ?mc ?s0 = Running ?s /\ _ =>
      assert (Hrun : run u n mt mc s0 = Running s) by (vm_compute; reflexivity);
      pose proof (no_server_no_service u 0 1 1 s0 n mt mc s ltac:(lia) eq_refl
                    (or_introl Hrun)) as Hnone
  end.
  split; [exact Hrun|]. split; [reflexivity | exact Hnone].
Defined.

(** A stable and an unstable configuration. *)
Lemma theoretical_statistics_note_or_averages_witness :
  (exists s d, init 1 (4 # 5) 1 = Ok s /\ get_theoretical_statistics s = Ok d /\
     dict_get d "note" = None /\
     forall k, k ∈ compared_keys -> exists x, dict_get d k = Some (VFloat x)) /\
  (exists s d rho, init 1 2 1 = Ok s /\ get_theoretical_statistics s = Ok d /\
     (1 <= rho)%Q /\
     d = [ ("utilization", VFloat rho);
           ("note", VStr "System is unstable (ρ >= 1)") ]).
Proof.
  split.
  - eexists _, _. split; [reflexivity|].
    match goal with
    | |- get_theoretical_statistics ?s = Ok ?d /\ _ =>
        assert (Hd : get_theoretical_statistics s = Ok d) by (vm_compute; reflexivity);
        destruct (theoretical_statistics_note_or_averages s d Hd)
          as [(rho & _ & Hnote)|(Hnone & _ & Hkeys)]; [discriminate Hnote|]
    end.
    split; [exact Hd|]. split; [exact Hnone | exact Hkeys].
  - eexists _, _.
    match goal with
    | |- exists rho, init _ _ _ = Ok ?s /\ get_theoretical_statistics _ = Ok ?d /\ _ =>
        unify s (mkSim 1 2 1 0 [] [] 0 0 0 0 0 0 0 0 0 [] [] [] 0);
        assert (Hd : get_theoretical_statistics s = Ok d) by (vm_compute; reflexivity);
        destruct (theoretical_statistics_note_or_averages s d Hd)
          as [(rho & Hrho & Hnote)|(Hnone & _)]; [|discriminate Hnone]
    end.
    exists rho. split; [reflexivity|]. split; [exact Hd|].
    split; [exact Hrho | exact Hnote].
Defined.
